(** * GalTransl.SafeWrite: atomic writes, validation and backups

    A shallow embedding of [GalTransl/SafeWrite.py] and the properties of
    its durable-write discipline.

    The module works inside one directory, [target_path.parent]: the staged
    file, the snapshots and the target are siblings.  The directory is a
    finite map from file names to files; every filesystem call consumes one
    event of an environment tape that says how long the call takes and
    whether it fails.  Python exceptions are results of the monad and keep
    the state reached when they were raised. *)

From Stdlib Require Import ZArith Lia Bool Ascii String DecimalString.
From Stdlib Require Import Strings.Byte.
From Stdlib Require DecimalZ.
From stdpp Require Import base tactics option list gmap strings sorting.

Local Open Scope Z_scope.

(** ** Strings *)

Module Str.

Fixpoint count (c : ascii) (s : string) : nat :=
  match s with
  | EmptyString => 0%nat
  | String a r => ((if Ascii.eqb a c then 1 else 0) + count c r)%nat
  end.

Fixpoint take (n : nat) (s : string) : string :=
  match n, s with
  | S k, String a r => String a (take k r)
  | _, _ => EmptyString
  end.

Fixpoint drop (n : nat) (s : string) : string :=
  match n, s with
  | S k, String _ r => drop k r
  | _, _ => s
  end.

(** [str.rfind(c)]: index of the last occurrence. *)
Fixpoint rfind (c : ascii) (s : string) : option nat :=
  match s with
  | EmptyString => None
  | String a r =>
      match rfind c r with
      | Some i => Some (S i)
      | None => if Ascii.eqb a c then Some 0%nat else None
      end
  end.

End Str.

(** ** pathlib: the final path component, [stem] and [suffix] *)

Module PurePath.

(** [PurePath.suffix]: [i = name.rfind('.')]; the suffix is [name[i:]] when
    [0 < i < len(name) - 1], the empty string otherwise. *)
Definition suffix (name : string) : string :=
  match Str.rfind "." name with
  | Some i =>
      if (0 <? i)%nat && (i <? String.length name - 1)%nat
      then Str.drop i name else ""
  | None => ""
  end.

(** [PurePath.stem]: [name[:i]] under the same condition, else [name]. *)
Definition stem (name : string) : string :=
  match Str.rfind "." name with
  | Some i =>
      if (0 <? i)%nat && (i <? String.length name - 1)%nat
      then Str.take i name else name
  | None => name
  end.

End PurePath.

(** ** fnmatch: the matcher behind [Path.glob]

    [*] matches any run of characters and [?] any single one; every other
    character stands for itself.  This is [fnmatch] for patterns without an
    opening bracket: a bracket opens a character class there, which this
    matcher does not have, so what is stated below about the files a glob
    finds is stated for targets whose name has no opening bracket (the
    patterns are built from the name of the target).  pathlib's [glob]
    applies the pattern to every directory entry, hidden ones included. *)

Fixpoint fnmatch_here (pat : string) : string -> bool :=
  match pat with
  | EmptyString => fun s => match s with EmptyString => true | _ => false end
  | String p pat' =>
      if Ascii.eqb p "*" then
        (fix star (s : string) : bool :=
           fnmatch_here pat' s ||
           match s with
           | EmptyString => false
           | String _ s' => star s'
           end)
      else
        fun s =>
          match s with
          | EmptyString => false
          | String a s' =>
              (Ascii.eqb p "?" || Ascii.eqb p a) && fnmatch_here pat' s'
          end
  end.

Definition fnmatch (name pat : string) : bool := fnmatch_here pat name.

(** ** Decimal rendering ([str(int)] and zero-padded [strftime] fields) *)

Definition str_of_Z (z : Z) : string := NilZero.string_of_int (Z.to_int z).

Fixpoint zeros (n : nat) : string :=
  match n with O => "" | S k => String "0" (zeros k) end.

(** [%0<width>d] for a non-negative field. *)
Definition zero_pad (width : nat) (z : Z) : string :=
  let s := str_of_Z z in
  zeros (width - String.length s) +:+ s.

(** ** datetime: civil time of a clock reading

    The clock counts microseconds since 1970-01-01T00:00:00; readings are
    rendered in that same zone. *)

Module Datetime.

Record t := mk { year : Z; month : Z; day : Z; hour : Z; minute : Z; second : Z }.

Definition civil_from_days (days : Z) : Z * Z * Z :=
  let z := days + 719468 in
  let era := z / 146097 in
  let doe := z - era * 146097 in
  let yoe := (doe - doe / 1460 + doe / 36524 - doe / 146096) / 365 in
  let doy := doe - (365 * yoe + yoe / 4 - yoe / 100) in
  let mp := (5 * doy + 2) / 153 in
  let d := doy - (153 * mp + 2) / 5 + 1 in
  let m := if mp <? 10 then mp + 3 else mp - 9 in
  let y := yoe + era * 400 + (if m <=? 2 then 1 else 0) in
  (y, m, d).

Definition of_clock (us : Z) : t :=
  let secs := us / 1000000 in
  let '(y, m, d) := civil_from_days (secs / 86400) in
  let sod := secs mod 86400 in
  mk y m d (sod / 3600) (sod mod 3600 / 60) (sod mod 60).

(** [strftime("%Y%m%d_%H%M%S")] *)
Definition strftime_backup (d : t) : string :=
  zero_pad 4 (year d) +:+ zero_pad 2 (month d) +:+ zero_pad 2 (day d) +:+ "_" +:+
  zero_pad 2 (hour d) +:+ zero_pad 2 (minute d) +:+ zero_pad 2 (second d).

End Datetime.

(** ** The environment: files, clock, fault tape, log *)

Definition bytes := list byte.

Record File := mkFile { content : bytes; mtime : Z }.

(** One event per filesystem call: the time the call takes (microseconds)
    and, when it fails, how many bytes a write had put down before failing.
    An exhausted tape means no delay and no failure. *)
Record event := mkEvent { elapsed : Z; fault : option nat }.

Inductive exn :=
  | OSError | FileNotFoundError | RuntimeError | TypeError | KeyError | IndexError | ValueError
  | AttributeError.

Inductive level := DEBUG | INFO | WARNING | ERROR.

(** One constructor per [LOGGER] call of the module. *)
Inductive msg :=
  | TempCleaned (p : string)
  | TempCleanupFailed (e : exn)
  | ValidationFailed (target : string)
  | WriteSucceeded (target : string)
  | WriteFailed (target : string) (e : exn)
  | TempCreated (p : string)
  | TempWritten (n : nat)
  | TempWriteFailed (e : exn)
  | ReplaceDone (target : string)
  | ReplaceFailed (e : exn)
  | FileMissing (p : string)
  | FileEmpty (p : string)
  | JsonFormatError
  | FileValid (p : string)
  | FileValidationException (e : exn)
  | NotAList
  | ItemNotDict (i : nat)
  | ItemMissingFields (i : nat) (missing : list string)
  | ItemFieldType (i : nat) (field : string)
  | StructureValid (n : nat)
  | StructureException (e : exn)
  | BackupSkipped (p : string)
  | BackupCreated (p : string)
  | BackupFailed (e : exn)
  | NoBackupFound (p : string)
  | BackupInvalid (p : string)
  | Restored (p latest : string)
  | RestoreFailed (e : exn)
  | BackupDeleted (p : string)
  | BackupCleanupFailed (e : exn).

(** The directory and its environment, together with the two mutable
    attributes of the writer in use ([self.temp_path], [self._lock]). *)
Record world := mkWorld {
  fs : gmap string File;
  clock : Z;
  tape : list event;
  log : list (level * msg);
  self_temp_path : option string;
  self_lock : bool
}.

Definition set_fs (f : gmap string File) (w : world) : world :=
  mkWorld f (clock w) (tape w) (log w) (self_temp_path w) (self_lock w).
Definition set_env (c : Z) (t : list event) (w : world) : world :=
  mkWorld (fs w) c t (log w) (self_temp_path w) (self_lock w).
Definition add_log (l : level) (m : msg) (w : world) : world :=
  mkWorld (fs w) (clock w) (tape w) (log w ++ [(l, m)]) (self_temp_path w) (self_lock w).
Definition set_temp_path (p : option string) (w : world) : world :=
  mkWorld (fs w) (clock w) (tape w) (log w) p (self_lock w).
Definition set_lock (b : bool) (w : world) : world :=
  mkWorld (fs w) (clock w) (tape w) (log w) (self_temp_path w) b.

(** ** The monad: state, exceptions that keep the state, and blocking *)

Inductive outcome (A : Type) :=
  | Val (a : A)
  | Raise (e : exn)
  | Blocked.
Arguments Val {A} a.
Arguments Raise {A} e.
Arguments Blocked {A}.

Definition IO (A : Type) : Type := world -> outcome A * world.

Definition ret {A} (a : A) : IO A := fun w => (Val a, w).

Definition bind {A B} (m : IO A) (k : A -> IO B) : IO B := fun w =>
  match m w with
  | (Val a, w') => k a w'
  | (Raise e, w') => (Raise e, w')
  | (Blocked, w') => (Blocked, w')
  end.

Declare Scope io_scope.
Delimit Scope io_scope with io.
Bind Scope io_scope with IO.
Notation "x ← y ; z" := (bind y (fun x => z))
  (at level 20, y at level 100, z at level 200, only parsing) : io_scope.
Notation "y ;; z" := (bind y (fun _ => z))
  (at level 100, z at level 200, only parsing, right associativity) : io_scope.
Local Open Scope io_scope.

Definition raise {A} (e : exn) : IO A := fun w => (Raise e, w).

(** [try: body except Exception as e: handler] *)
Definition try_except {A} (body : IO A) (handler : exn -> IO A) : IO A := fun w =>
  match body w with
  | (Raise e, w') => handler e w'
  | r => r
  end.

(** [try: body finally: final] *)
Definition try_finally {A} (body : IO A) (final : IO unit) : IO A := fun w =>
  match body w with
  | (Blocked, w') => (Blocked, w')
  | (r, w') =>
      match final w' with
      | (Val _, w'') => (r, w'')
      | (Raise e, w'') => (Raise e, w'')
      | (Blocked, w'') => (Blocked, w'')
      end
  end.

Definition gets {A} (f : world -> A) : IO A := fun w => (Val (f w), w).
Definition modify (f : world -> world) : IO unit := fun w => (Val tt, f w).

Definition LOGGER (l : level) (m : msg) : IO unit := modify (add_log l m).

(** [for x in xs: body x] *)
Fixpoint for_each {A} (xs : list A) (body : A -> IO unit) : IO unit :=
  match xs with
  | [] => ret tt
  | x :: rest => body x ;; for_each rest body
  end.

(** [[f(x) for x in xs]] *)
Fixpoint map_io {A B} (f : A -> IO B) (xs : list A) : IO (list B) :=
  match xs with
  | [] => ret []
  | x :: rest => y ← f x; ys ← map_io f rest; ret (y :: ys)
  end.

(** ** Filesystem and clock primitives *)

(** Take the next event off the tape and let its time pass. *)
Definition next_event : IO event := fun w =>
  match tape w with
  | [] => (Val (mkEvent 0 None), w)
  | ev :: rest => (Val ev, set_env (clock w + elapsed ev) rest w)
  end.

Definition syscall : IO unit :=
  ev ← next_event;
  match fault ev with
  | Some _ => raise OSError
  | None => ret tt
  end.

(** [int(time.time() * 1000000)] *)
Definition time_us : IO Z := gets clock.

(** [datetime.now()] *)
Definition datetime_now : IO Datetime.t := gets (fun w => Datetime.of_clock (clock w)).

(** [parent.mkdir(parents=True, exist_ok=True)] *)
Definition mkdir_parents : IO unit := syscall.

(** [Path.exists()] *)
Definition path_exists (p : string) : IO bool :=
  syscall ;; gets (fun w => bool_decide (is_Some (fs w !! p))).

(** [Path.stat()] *)
Definition path_stat (p : string) : IO File :=
  syscall ;;
  f ← gets (fun w => fs w !! p);
  match f with
  | Some f => ret f
  | None => raise FileNotFoundError
  end.

Definition st_size (f : File) : nat := length (content f).
Definition st_mtime (f : File) : Z := mtime f.

(** [Path.unlink()] *)
Definition path_unlink (p : string) : IO unit :=
  syscall ;;
  f ← gets (fun w => fs w !! p);
  match f with
  | Some _ => modify (fun w => set_fs (delete p (fs w)) w)
  | None => raise FileNotFoundError
  end.

(** [src.replace(dst)]: one rename; the file keeps its content and time. *)
Definition path_replace (src dst : string) : IO unit :=
  syscall ;;
  f ← gets (fun w => fs w !! src);
  match f with
  | Some f => modify (fun w => set_fs (<[dst := f]> (delete src (fs w))) w)
  | None => raise FileNotFoundError
  end.

(** The names a directory listing yields that match [pat].  The order
    of a listing is the directory's own and is not fixed by anything in the
    program; here it is the order of the map.  After the sort by
    modification time that only shows among files of equal time, and what
    is stated below about which snapshots are chosen is stated in a way
    that does not depend on it, or for snapshots of distinct times. *)
Definition glob_names (files : gmap string File) (pat : string) : list string :=
  filter (fun n => fnmatch n pat = true) (map_to_list files).*1.

(** [list(parent.glob(pat))] *)
Definition path_glob (pat : string) : IO (list string) :=
  syscall ;; gets (fun w => glob_names (fs w) pat).

(** [aiofiles.open(p, 'rb')]; the handle is the name. *)
Definition aio_open_rb (p : string) : IO string :=
  syscall ;;
  f ← gets (fun w => fs w !! p);
  match f with
  | Some _ => ret p
  | None => raise FileNotFoundError
  end.

(** [await f.read()] *)
Definition aio_read (h : string) : IO bytes :=
  syscall ;;
  f ← gets (fun w => fs w !! h);
  match f with
  | Some f => ret (content f)
  | None => raise OSError
  end.

(** [aiofiles.open(p, 'wb')]: creates or truncates. *)
Definition aio_open_wb (p : string) : IO string :=
  syscall ;;
  modify (fun w => set_fs (<[p := mkFile [] (clock w)]> (fs w)) w) ;;
  ret p.

(** [await f.write(data)]: appends at the end of what the handle wrote so
    far; a failing write leaves a prefix of [data] behind. *)
Definition aio_write (h : string) (data : bytes) : IO unit :=
  ev ← next_event;
  old ← gets (fun w => default [] (content <$> fs w !! h));
  match fault ev with
  | Some n =>
      modify (fun w => set_fs (<[h := mkFile (old ++ take n data) (clock w)]> (fs w)) w) ;;
      raise OSError
  | None =>
      modify (fun w => set_fs (<[h := mkFile (old ++ data) (clock w)]> (fs w)) w)
  end.

(** [await f.fsync()].  The handle that [aiofiles.open] gives has no
    [fsync] method: looking the attribute up raises [AttributeError], before
    anything is awaited and without a call to the filesystem. *)
Definition aio_fsync (h : string) : IO unit := raise AttributeError.

(** ** Python values: parsed JSON and [isinstance] *)

#[warnings="-register-all"]
Inductive json :=
  | JNull
  | JBool (b : bool)
  | JInt (z : Z)
  | JFloat (repr : string)
  | JStr (s : string)
  | JList (items : list json)
  | JDict (d : gmap string json).

Inductive pytype := NoneType | PyBool | PyInt | PyFloat | PyStr | PyList | PyDict.

#[global] Instance pytype_eq_dec : EqDecision pytype.
Proof. solve_decision. Defined.

Definition type_of (v : json) : pytype :=
  match v with
  | JNull => NoneType
  | JBool _ => PyBool
  | JInt _ => PyInt
  | JFloat _ => PyFloat
  | JStr _ => PyStr
  | JList _ => PyList
  | JDict _ => PyDict
  end.

(** [bool] is a subclass of [int]; the other built-in types are unrelated. *)
Definition issubclass (a b : pytype) : bool :=
  bool_decide (a = b) || (bool_decide (a = PyBool) && bool_decide (b = PyInt)).

(** [isinstance(v, (t1, ..., tn))] *)
Definition isinstance (v : json) (classinfo : list pytype) : bool :=
  existsb (issubclass (type_of v)) classinfo.

(** [xs[n:]] for a Python integer [n]. *)
Definition slice_from {A} (n : Z) (xs : list A) : list A :=
  if 0 <=? n then drop (Z.to_nat n) xs
  else drop (length xs - Z.to_nat (- n)) xs.

(** [xs.sort(key=..., reverse=True)] on a list that carries its keys: a
    stable sort, equal keys keep their order. *)
Fixpoint insert_desc (x : Z * string) (l : list (Z * string)) : list (Z * string) :=
  match l with
  | [] => [x]
  | y :: r => if x.1 <? y.1 then y :: insert_desc x r else x :: y :: r
  end.

Definition sort_desc (l : list (Z * string)) : list (Z * string) :=
  foldr insert_desc [] l.

(** ** A reference JSON decoder

    [orjson.loads] is a parameter of the validator below.  The concrete
    runs in this file decode with [Json.loads], a recursive-descent reader
    of the JSON grammar: literals, integers, numbers with a fraction or an
    exponent (kept as text), strings with the one-letter escapes, arrays
    and objects (a repeated key keeps its last value, as a Python dict
    does).  [\u] escapes are rejected and integers are read whatever their
    size, where [orjson] decodes the former and stops at 64 bits for the
    latter; the runs below use neither. *)

Module Json.

(** The double quote. *)
Definition dquote : ascii := ascii_of_nat 34.

Definition is_ws (c : ascii) : bool :=
  Ascii.eqb c " " || Ascii.eqb c "009" || Ascii.eqb c "010" || Ascii.eqb c "013".

Definition is_digit (c : ascii) : bool :=
  let n := nat_of_ascii c in (48 <=? n)%nat && (n <=? 57)%nat.

Fixpoint skip_ws (s : string) : string :=
  match s with
  | String c r => if is_ws c then skip_ws r else s
  | EmptyString => s
  end.

(** The longest run of digits at the front of [s]. *)
Fixpoint digits (s : string) : string * string :=
  match s with
  | String c r =>
      if is_digit c then let '(d, rest) := digits r in (String c d, rest)
      else (EmptyString, s)
  | EmptyString => (EmptyString, s)
  end.

Definition Z_of_digits (d : string) : Z :=
  fold_left (fun acc c => 10 * acc + Z.of_nat (nat_of_ascii c - 48))
            (list_ascii_of_string d) 0.

(** The body of a string literal, after the opening quote. *)
Fixpoint string_body (s : string) : option (string * string) :=
  match s with
  | EmptyString => None
  | String c r =>
      if Ascii.eqb c dquote then Some (EmptyString, r)
      else if Ascii.eqb c "\" then
        match r with
        | String e r' =>
            let unescaped :=
              if Ascii.eqb e "n" then Some "010"%char
              else if Ascii.eqb e "t" then Some "009"%char
              else if Ascii.eqb e "r" then Some "013"%char
              else if Ascii.eqb e "b" then Some "008"%char
              else if Ascii.eqb e "f" then Some "012"%char
              else if Ascii.eqb e dquote || Ascii.eqb e "\" || Ascii.eqb e "/" then Some e
              else None in
            match unescaped, string_body r' with
            | Some u, Some (body, rest) => Some (String u body, rest)
            | _, _ => None
            end
        | EmptyString => None
        end
      else if (nat_of_ascii c <? 32)%nat then None
      else
        match string_body r with
        | Some (body, rest) => Some (String c body, rest)
        | None => None
        end
  end.

(** A number: [-? int frac? exp?]. *)
Definition number (s : string) : option (json * string) :=
  let '(neg, s1) :=
    match s with
    | String c r => if Ascii.eqb c "-" then (true, r) else (false, s)
    | EmptyString => (false, s)
    end in
  let '(int_part, s2) := digits s1 in
  let leading_zero :=
    match int_part with
    | String c (String _ _) => Ascii.eqb c "0"
    | _ => false
    end in
  if bool_decide (int_part = EmptyString) || leading_zero then None
  else
    let frac :=
      match s2 with
      | String c r =>
          if Ascii.eqb c "." then
            let '(f, r') := digits r in
            if bool_decide (f = EmptyString) then None else Some ("." +:+ f, r')
          else Some (EmptyString, s2)
      | EmptyString => Some (EmptyString, s2)
      end in
    match frac with
    | None => None
    | Some (f, s3) =>
        let expo :=
          match s3 with
          | String c r =>
              if Ascii.eqb c "e" || Ascii.eqb c "E" then
                let '(sign, r1) :=
                  match r with
                  | String g r' =>
                      if Ascii.eqb g "+" || Ascii.eqb g "-"
                      then (String g EmptyString, r') else (EmptyString, r)
                  | EmptyString => (EmptyString, r)
                  end in
                let '(x, r2) := digits r1 in
                if bool_decide (x = EmptyString) then None
                else Some ("e" +:+ sign +:+ x, r2)
              else Some (EmptyString, s3)
          | EmptyString => Some (EmptyString, s3)
          end in
        match expo with
        | None => None
        | Some (x, s4) =>
            if bool_decide (f = EmptyString) && bool_decide (x = EmptyString)
            then Some (JInt (if neg then - Z_of_digits int_part else Z_of_digits int_part), s4)
            else Some (JFloat ((if neg then "-" else "") +:+ int_part +:+ f +:+ x), s4)
        end
    end.

Definition literal (word : string) (v : json) (s : string) : option (json * string) :=
  if String.prefix word s
  then Some (v, Str.drop (String.length word) s) else None.

Fixpoint value (fuel : nat) (s : string) : option (json * string) :=
  match fuel with
  | O => None
  | S n =>
      let elements :=
        fix elements (k : nat) (s : string) (acc : list json) : option (json * string) :=
          match k with
          | O => None
          | S k' =>
              match value n s with
              | Some (v, r) =>
                  match skip_ws r with
                  | String c r' =>
                      if Ascii.eqb c "," then elements k' r' (acc ++ [v])
                      else if Ascii.eqb c "]" then Some (JList (acc ++ [v]), r')
                      else None
                  | EmptyString => None
                  end
              | None => None
              end
          end in
      let members :=
        fix members (k : nat) (s : string) (acc : gmap string json) : option (json * string) :=
          match k with
          | O => None
          | S k' =>
              match skip_ws s with
              | String q r =>
                  if Ascii.eqb q dquote then
                    match string_body r with
                    | Some (key, r1) =>
                        match skip_ws r1 with
                        | String c r2 =>
                            if Ascii.eqb c ":" then
                              match value n r2 with
                              | Some (v, r3) =>
                                  match skip_ws r3 with
                                  | String d r4 =>
                                      if Ascii.eqb d "," then members k' r4 (<[key := v]> acc)
                                      else if Ascii.eqb d "}" then Some (JDict (<[key := v]> acc), r4)
                                      else None
                                  | EmptyString => None
                                  end
                              | None => None
                              end
                            else None
                        | EmptyString => None
                        end
                    | None => None
                    end
                  else None
              | EmptyString => None
              end
          end in
      match skip_ws s with
      | EmptyString => None
      | String c r =>
          if Ascii.eqb c "[" then
            match skip_ws r with
            | String c' r' =>
                if Ascii.eqb c' "]" then Some (JList [], r') else elements n r []
            | EmptyString => None
            end
          else if Ascii.eqb c "{" then
            match skip_ws r with
            | String c' r' =>
                if Ascii.eqb c' "}" then Some (JDict ∅, r') else members n r ∅
            | EmptyString => None
            end
          else if Ascii.eqb c dquote then
            match string_body r with
            | Some (body, rest) => Some (JStr body, rest)
            | None => None
            end
          else if Ascii.eqb c "t" then literal "true" (JBool true) (String c r)
          else if Ascii.eqb c "f" then literal "false" (JBool false) (String c r)
          else if Ascii.eqb c "n" then literal "null" JNull (String c r)
          else number (String c r)
      end
  end.

Definition loads (content : bytes) : option json :=
  let s := string_of_list_byte content in
  match value (S (String.length s)) s with
  | Some (v, rest) =>
      match skip_ws rest with
      | EmptyString => Some v
      | String _ _ => None
      end
  | None => None
  end.

End Json.

(** ** SafeWriteConfig *)

Inductive cfgval := CBool (b : bool) | CInt (z : Z).

Definition truthy (v : cfgval) : bool :=
  match v with CBool b => b | CInt z => negb (z =? 0) end.

Definition int_of (v : cfgval) : Z :=
  match v with CBool b => if b then 1 else 0 | CInt z => z end.

Module SafeWriteConfig.

Definition DEFAULT_CONFIG : gmap string cfgval :=
  list_to_map [
    ("enable_safe_write", CBool true);
    ("backup_retention_count", CInt 3);
    ("write_verification", CBool true);
    ("temp_file_cleanup", CBool true);
    ("write_timeout_seconds", CInt 30);
    ("enable_backup", CBool true)
  ].

Record t := mk { config : gmap string cfgval }.

(** [{**DEFAULT_CONFIG}] updated with [config_dict] when it is non-empty. *)
Definition __init__ (config_dict : option (gmap string cfgval)) : t :=
  mk (match config_dict with
      | Some d => d ∪ DEFAULT_CONFIG
      | None => DEFAULT_CONFIG
      end).

Definition get (self : t) (key : string) (default : option cfgval) : option cfgval :=
  match config self !! key with
  | Some v => Some v
  | None => default
  end.

Definition is_enabled (self : t) : bool :=
  truthy (default (CBool true) (config self !! "enable_safe_write")).

End SafeWriteConfig.

(** ** DataValidator *)

Module DataValidator.

Definition required_fields : list string :=
  ["index"; "name"; "pre_jp"; "post_jp"; "pre_zh"].

(** The inner loop [for field in required_fields]; [item[field]] raises
    [KeyError] on a missing key. *)
Fixpoint check_fields (i : nat) (item : gmap string json) (fields : list string) : IO bool :=
  match fields with
  | [] => ret true
  | field :: rest =>
      match item !! field with
      | None => raise KeyError
      | Some v =>
          if negb (isinstance v [PyStr; PyInt])
          then LOGGER ERROR (ItemFieldType i field) ;; ret false
          else check_fields i item rest
      end
  end.

Definition check_item (i : nat) (item : json) : IO bool :=
  match item with
  | JDict d =>
      let missing_fields := filter (fun k => d !! k = None) required_fields in
      if negb (bool_decide (missing_fields = []))
      then LOGGER ERROR (ItemMissingFields i missing_fields) ;; ret false
      else check_fields i d required_fields
  | _ => LOGGER ERROR (ItemNotDict i) ;; ret false
  end.

(** [for i, item in enumerate(data)], leaving at the first [return False]. *)
Fixpoint check_items (i : nat) (data : list json) : IO bool :=
  match data with
  | [] => ret true
  | item :: rest =>
      ok ← check_item i item;
      if ok then check_items (S i) rest else ret false
  end.

Definition _validate_cache_structure (data : json) : IO bool :=
  try_except
    (match data with
     | JList items =>
         ok ← check_items 0 items;
         if ok
         then LOGGER DEBUG (StructureValid (length items)) ;; ret true
         else ret false
     | _ => LOGGER ERROR NotAList ;; ret false
     end)
    (fun e => LOGGER ERROR (StructureException e) ;; ret false).

Section WithDecoder.

(** [orjson.loads]: [None] stands for [orjson.JSONDecodeError]. *)
Variable loads : bytes -> option json.

Definition validate_json_file (file_path : string) : IO bool :=
  try_except
    (present ← path_exists file_path;
     if negb present
     then LOGGER ERROR (FileMissing file_path) ;; ret false
     else
       st ← path_stat file_path;
       if bool_decide (st_size st = 0%nat)
       then LOGGER ERROR (FileEmpty file_path) ;; ret false
       else
         f ← aio_open_rb file_path;
         content ← aio_read f;
         match loads content with
         | None => LOGGER ERROR JsonFormatError ;; ret false
         | Some data =>
             ok ← _validate_cache_structure data;
             if negb ok then ret false
             else LOGGER DEBUG (FileValid file_path) ;; ret true
         end)
    (fun e => LOGGER ERROR (FileValidationException e) ;; ret false).

End WithDecoder.

End DataValidator.

(** ** BackupManager *)

Module BackupManager.

Record t := mk { retention_count : Z; enable_backup : bool }.

(** [self.config = backup_config or {}] and the two [config.get] calls. *)
Definition __init__ (backup_config : option (gmap string cfgval)) : t :=
  let config := default ∅ backup_config in
  mk (int_of (default (CInt 3) (config !! "backup_retention_count")))
     (truthy (default (CBool true) (config !! "enable_backup"))).

(** [f"{file_path.stem}_*_backup{file_path.suffix}"] *)
Definition backup_pattern (file_path : string) : string :=
  PurePath.stem file_path +:+ "_*_backup" +:+ PurePath.suffix file_path.

(** [f"{file_path.stem}_{timestamp}_backup{file_path.suffix}"] *)
Definition backup_name (file_path timestamp : string) : string :=
  PurePath.stem file_path +:+ "_" +:+ timestamp +:+ "_backup" +:+ PurePath.suffix file_path.

(** [backup_files.sort(key=lambda x: x.stat().st_mtime, reverse=True)] *)
Definition sort_by_mtime_desc (backup_files : list string) : IO (list string) :=
  keys ← map_io (fun x => st ← path_stat x; ret (st_mtime st)) backup_files;
  ret (sort_desc (zip keys backup_files)).*2.

Definition _cleanup_old_backups (self : t) (file_path : string) : IO unit :=
  try_except
    (backup_files ← path_glob (backup_pattern file_path);
     if Z.of_nat (length backup_files) <=? retention_count self
     then ret tt
     else
       backup_files ← sort_by_mtime_desc backup_files;
       let files_to_delete := slice_from (retention_count self) backup_files in
       for_each files_to_delete (fun backup_file =>
         path_unlink backup_file ;;
         LOGGER DEBUG (BackupDeleted backup_file)))
    (fun e => LOGGER WARNING (BackupCleanupFailed e)).

Definition create_backup (self : t) (file_path : string) : IO (option string) :=
  if negb (enable_backup self) then ret None
  else
    try_except
      (present ← path_exists file_path;
       if negb present
       then LOGGER DEBUG (BackupSkipped file_path) ;; ret None
       else
         now ← datetime_now;
         let timestamp := Datetime.strftime_backup now in
         let backup_path := backup_name file_path timestamp in
         src ← aio_open_rb file_path;
         content ← aio_read src;
         dst ← aio_open_wb backup_path;
         aio_write dst content ;;
         LOGGER DEBUG (BackupCreated backup_path) ;;
         _cleanup_old_backups self file_path ;;
         ret (Some backup_path))
      (fun e => LOGGER ERROR (BackupFailed e) ;; ret None).

Section WithDecoder.

Variable loads : bytes -> option json.

Definition restore_from_backup (self : t) (file_path : string) : IO bool :=
  try_except
    (backup_files ← path_glob (backup_pattern file_path);
     match backup_files with
     | [] => LOGGER WARNING (NoBackupFound file_path) ;; ret false
     | _ :: _ =>
         backup_files ← sort_by_mtime_desc backup_files;
         match backup_files with
         | [] => raise IndexError
         | latest_backup :: _ =>
             valid ← DataValidator.validate_json_file loads latest_backup;
             if negb valid
             then LOGGER ERROR (BackupInvalid latest_backup) ;; ret false
             else
               src ← aio_open_rb latest_backup;
               content ← aio_read src;
               dst ← aio_open_wb file_path;
               aio_write dst content ;;
               LOGGER INFO (Restored file_path latest_backup) ;;
               ret true
         end
     end)
    (fun e => LOGGER ERROR (RestoreFailed e) ;; ret false).

End WithDecoder.

End BackupManager.

(** ** asyncio.Lock, as one task sees it *)

Module Lock.

(** [await lock.acquire()]: waits for ever when nobody can release. *)
Definition acquire : IO unit := fun w =>
  if self_lock w then (Blocked, w) else (Val tt, set_lock true w).

(** [lock.release()] *)
Definition release : IO unit := fun w =>
  if self_lock w then (Val tt, set_lock false w) else (Raise RuntimeError, w).

End Lock.

(** ** AtomicFileWriter *)

Module AtomicFileWriter.

Record t := mk {
  target_path : string;
  backup_manager : option BackupManager.t
}.

(** A validation hook: an awaitable called with the staged path. *)
Definition validator := string -> IO bool.

Definition __init__ (target_path : string) (backup_manager : option BackupManager.t) : IO t :=
  modify (fun w => set_lock false (set_temp_path None w)) ;;
  ret (mk target_path backup_manager).

(** [f".{stem}_{timestamp}_tmp{suffix}"] *)
Definition temp_name (target timestamp : string) : string :=
  "." +:+ PurePath.stem target +:+ "_" +:+ timestamp +:+ "_tmp" +:+ PurePath.suffix target.

(** The glob that describes staged files of a target. *)
Definition staging_pattern (target : string) : string :=
  "." +:+ PurePath.stem target +:+ "_*_tmp" +:+ PurePath.suffix target.

(** Reading [self.temp_path] where a path is needed. *)
Definition the_temp_path : IO string :=
  p ← gets self_temp_path;
  match p with
  | Some p => ret p
  | None => raise TypeError
  end.

Definition __aenter__ (self : t) : IO t :=
  Lock.acquire ;; ret self.

Definition __aexit__ (self : t) : IO unit :=
  try_finally
    (p ← gets self_temp_path;
     match p with
     | None => ret tt
     | Some p =>
         present ← path_exists p;
         if present
         then
           try_except
             (path_unlink p ;; LOGGER DEBUG (TempCleaned p))
             (fun e => LOGGER WARNING (TempCleanupFailed e))
         else ret tt
     end)
    Lock.release.

Definition _create_temp_file (self : t) : IO unit :=
  mkdir_parents ;;
  timestamp ← time_us;
  let temp_name := temp_name (target_path self) (str_of_Z timestamp) in
  modify (set_temp_path (Some temp_name)) ;;
  LOGGER DEBUG (TempCreated temp_name).

Definition _write_to_temp (self : t) (data : bytes) : IO unit :=
  try_except
    (p ← the_temp_path;
     f ← aio_open_wb p;
     aio_write f data ;;
     aio_fsync f ;;
     LOGGER DEBUG (TempWritten (length data)))
    (fun e => LOGGER ERROR (TempWriteFailed e) ;; raise e).

Definition _atomic_replace (self : t) : IO unit :=
  try_except
    (p ← the_temp_path;
     path_replace p (target_path self) ;;
     LOGGER DEBUG (ReplaceDone (target_path self)))
    (fun e => LOGGER ERROR (ReplaceFailed e) ;; raise e).

(** Steps 1 to 5 of [write_atomic], inside its [try]. *)
Definition write_atomic_body (self : t) (data : bytes) (validate_func : option validator) : IO bool :=
  _create_temp_file self ;;
  _write_to_temp self data ;;
  valid ← match validate_func with
          | Some f => p ← the_temp_path; f p
          | None => ret true
          end;
  if negb valid
  then LOGGER ERROR (ValidationFailed (target_path self)) ;; ret false
  else
    match backup_manager self with
    | Some bm =>
        present ← path_exists (target_path self);
        if present
        then BackupManager.create_backup bm (target_path self) ;; ret tt
        else ret tt
    | None => ret tt
    end ;;
    _atomic_replace self ;;
    LOGGER DEBUG (WriteSucceeded (target_path self)) ;;
    ret true.

Definition write_atomic (self : t) (data : bytes) (validate_func : option validator) : IO bool :=
  try_except
    (write_atomic_body self data validate_func)
    (fun e => LOGGER ERROR (WriteFailed (target_path self) e) ;; ret false).

(** [async with writer: body]: [__aexit__] returns [None], so an exception
    of the body is raised again after the exit has run. *)
Definition async_with {A} (self : t) (body : t -> IO A) : IO A :=
  writer ← __aenter__ self;
  try_finally (body writer) (__aexit__ self).

End AtomicFileWriter.
(** ** Concurrent write sessions

    Several asyncio tasks, each running
    [async with writer: await writer.write_atomic(data, validate_func)] on
    a writer instance.  The tasks share the directory, the clock and the
    log; [temp_path] and [_lock] are attributes of an instance, shared by
    the tasks that go through it.  A step of the system is one awaited call
    of one task, run as the code runs it on the world that task sees:
    [__aenter__], then [write_atomic], then [__aexit__].  A call that would
    wait for ever in that world is no step: the task stays where it is.
    The lock of an instance is read and written by [__aenter__] and
    [__aexit__] only, so the points inside [write_atomic] at which tasks
    may be switched add no state of the locks to the ones met here. *)

Module Tasks.

Import AtomicFileWriter.

(** Where a task is: before [__aenter__] has returned, inside the block
    before or after [write_atomic], or after [__aexit__]. *)
Inductive pc := Waiting | Entered | Written | Finished.

(** A writer instance with its mutable attributes. *)
Record instance := mkInstance {
  writer_of : AtomicFileWriter.t;
  temp_path : option string;
  lock : bool
}.

(** A task: the number of the instance it goes through, the arguments of
    its [write_atomic] call, and where it is. *)
Record task := mkTask {
  writer : nat;
  payload : bytes;
  hook : option validator;
  at_pc : pc
}.

Record system := mkSystem {
  env : world;
  instances : list instance;
  tasks : list task
}.

(** The world as the methods of an instance see it. *)
Definition view (s : system) (inst : instance) : world :=
  set_lock (lock inst) (set_temp_path (temp_path inst) (env s)).

(** The system once task [k] has run a call on instance [i] that ended in
    world [w'], and stands at [p]. *)
Definition store (i : nat) (inst : instance) (w' : world) (k : nat) (t : task) (p : pc)
    (s : system) : system :=
  mkSystem w'
    (<[i := mkInstance (writer_of inst) (self_temp_path w') (self_lock w')]> (instances s))
    (<[k := mkTask (writer t) (payload t) (hook t) p]> (tasks s)).

(** A sequence is in flight from the return of [__aenter__] to the return
    of [__aexit__]. *)
Definition in_flight (t : task) : Prop :=
  at_pc t = Entered \/ at_pc t = Written.

Definition target_of (s : system) (t : task) : option string :=
  (fun inst => target_path (writer_of inst)) <$> instances s !! writer t.

(** [AtomicFileWriter(target_path, backup_manager)] *)
Definition construct (w : world) (spec : string * option BackupManager.t) : option instance :=
  match __init__ spec.1 spec.2 w with
  | (Val self, w') => Some (mkInstance self (self_temp_path w') (self_lock w'))
  | _ => None
  end.

(** The instances just constructed and every task yet to start. *)
Definition initial (w : world) (specs : list (string * option BackupManager.t))
    (jobs : list (nat * bytes * option validator)) : system :=
  mkSystem w (omap (construct w) specs)
           ((fun j => mkTask j.1.1 j.1.2 j.2 Waiting) <$> jobs).

Inductive step : system -> system -> Prop :=
  | step_enter s k t inst a w' :
      tasks s !! k = Some t -> at_pc t = Waiting ->
      instances s !! writer t = Some inst ->
      __aenter__ (writer_of inst) (view s inst) = (Val a, w') ->
      step s (store (writer t) inst w' k t Entered s)
  | step_write s k t inst r w' :
      tasks s !! k = Some t -> at_pc t = Entered ->
      instances s !! writer t = Some inst ->
      write_atomic (writer_of inst) (payload t) (hook t) (view s inst) = (r, w') ->
      r <> Blocked ->
      step s (store (writer t) inst w' k t Written s)
  | step_exit s k t inst r w' :
      tasks s !! k = Some t -> at_pc t = Written ->
      instances s !! writer t = Some inst ->
      __aexit__ (writer_of inst) (view s inst) = (r, w') ->
      r <> Blocked ->
      step s (store (writer t) inst w' k t Finished s).

Definition reachable (w : world) (specs : list (string * option BackupManager.t))
    (jobs : list (nat * bytes * option validator)) (s : system) : Prop :=
  rtc step (initial w specs jobs) s.

(** A lock is held whenever a session of its instance is in flight, and
    then by one task only. *)
Definition lock_discipline (s : system) : Prop :=
  forall k t, tasks s !! k = Some t -> in_flight t ->
    (exists inst, instances s !! writer t = Some inst /\ lock inst = true) /\
    forall k' t', tasks s !! k' = Some t' -> in_flight t' ->
      writer t' = writer t -> k' = k.

End Tasks.

(** * Vocabulary of the properties *)

(** Characters a rendered integer can contain. *)
Definition numeric (c : ascii) : bool := Json.is_digit c || Ascii.eqb c "-".

(** What the next filesystem call will meet, and the world once its time
    has passed. *)
Definition next_fault (w : world) : option nat :=
  match tape w with
  | ev :: _ => fault ev
  | [] => None
  end.

Definition advance (w : world) : world :=
  match tape w with
  | ev :: rest => set_env (clock w + elapsed ev) rest w
  | [] => w
  end.

Definition no_faults (t : list event) : Prop := Forall (fun ev => fault ev = None) t.

#[global] Instance no_faults_dec t : Decision (no_faults t).
Proof. unfold no_faults. apply Forall_dec. intros ev. apply _. Defined.

(** ** Relations every run of a computation respects *)

Definition stable (R : relation world) {A} (m : IO A) : Prop :=
  forall w, R w (m w).2.

(** What a computation can return. *)
Definition yields {A} (m : IO A) (P : A -> Prop) : Prop :=
  forall w a w', m w = (Val a, w') -> P a.

(** A computation that never waits for ever. *)
Definition unblocked {A} (m : IO A) : Prop :=
  forall w, (m w).1 <> Blocked.

(** The relations of interest. *)
Definition keeps (p : string) : relation world :=
  fun w w' => fs w' !! p = fs w !! p.
Definition no_new (p : string) : relation world :=
  fun w w' => fs w !! p = None -> fs w' !! p = None.
Definition same_fs : relation world :=
  fun w w' => fs w' = fs w.
Definition same_self : relation world :=
  fun w w' => self_temp_path w' = self_temp_path w /\ self_lock w' = self_lock w.
Definition tape_runs : relation world :=
  fun w w' => tape w' `suffix_of` tape w.

(** Worlds that differ by log lines only. *)
Definition add_logs (l : list (level * msg)) (w : world) : world :=
  mkWorld (fs w) (clock w) (tape w) (log w ++ l) (self_temp_path w) (self_lock w).

(** ** What the validator accepts *)

Definition field_ok (d : gmap string json) (k : string) : bool :=
  match d !! k with
  | Some v => isinstance v [PyStr; PyInt]
  | None => false
  end.

Definition record_ok (item : json) : bool :=
  match item with
  | JDict d => forallb (field_ok d) DataValidator.required_fields
  | _ => false
  end.

Definition structure_ok (data : json) : bool :=
  match data with
  | JList items => forallb record_ok items
  | _ => false
  end.

Definition file_ok (loads : bytes -> option json) (files : gmap string File) (p : string) : bool :=
  match files !! p with
  | Some f =>
      negb (bool_decide (st_size f = 0%nat)) &&
      match loads (content f) with
      | Some data => structure_ok data
      | None => false
      end
  | None => false
  end.

(** The record format in words: which values a required key may hold, what
    a record is, and what a valid file is. *)

Definition str_or_int_typed (v : json) : Prop :=
  (exists s, v = JStr s) \/ (exists z, v = JInt z).

Definition str_int_or_bool_typed (v : json) : Prop :=
  str_or_int_typed v \/ (exists b, v = JBool b).

Definition record_of (typed : json -> Prop) (item : json) : Prop :=
  exists d, item = JDict d /\
    forall k, k ∈ DataValidator.required_fields -> exists v, d !! k = Some v /\ typed v.

Definition valid_file (typed : json -> Prop) (loads : bytes -> option json)
    (files : gmap string File) (p : string) : Prop :=
  exists f, files !! p = Some f /\ content f <> [] /\
    exists items, loads (content f) = Some (JList items) /\ Forall (record_of typed) items.

(** ** Concrete worlds for the examples *)

Definition B (s : string) : bytes := list_byte_of_string s.

(** JSON text written with single quotes where JSON has double quotes. *)
Fixpoint requote (s : string) : string :=
  match s with
  | String c r => String (if Ascii.eqb c "'" then Json.dquote else c) (requote r)
  | EmptyString => EmptyString
  end.

Definition json_text (s : string) : bytes := B (requote s).

(** An event without failure that takes [d] microseconds. *)
Definition quiet (d : Z) : event := mkEvent d None.

(** An event that fails (a failing write leaves [n] bytes behind). *)
Definition failing (d : Z) (n : nat) : event := mkEvent d (Some n).

Definition world_of (files : list (string * File)) (now : Z) (t : list event) : world :=
  mkWorld (list_to_map files) now t [] None false.

(** A cache with one record whose [index] is a boolean. *)
Definition bool_cache : bytes :=
  json_text "[{'index': true, 'name': 'a', 'pre_jp': 'b', 'post_jp': 'c', 'pre_zh': 'd'}]".

Definition bool_record : json :=
  JDict (list_to_map [("index", JBool true); ("name", JBool false);
                      ("pre_jp", JStr "b"); ("post_jp", JInt 3); ("pre_zh", JStr "d")]).

(** ** Validation hooks

    A hook inspects the staged file: it leaves the directory and the
    writer's attributes as they are. *)
Definition read_only (f : AtomicFileWriter.validator) : Prop :=
  forall p w, same_fs w (f p w).2 /\ same_self w (f p w).2.

(** The content of a file of the directory, if it exists. *)
Definition content_of (w : world) (p : string) : option bytes :=
  content <$> fs w !! p.

(** ** The stages of [write_atomic]

    The body of [write_atomic] read as three stages: staging (steps 1 and
    2), the validation hook (step 3) and the commit (steps 4 and 5). *)

Definition staging (self : AtomicFileWriter.t) (data : bytes) : IO unit :=
  AtomicFileWriter._create_temp_file self ;;
  AtomicFileWriter._write_to_temp self data.

Definition validate_step (validate_func : option AtomicFileWriter.validator) : IO bool :=
  match validate_func with
  | Some f => p ← AtomicFileWriter.the_temp_path; f p
  | None => ret true
  end.

Definition backup_step (self : AtomicFileWriter.t) : IO unit :=
  match AtomicFileWriter.backup_manager self with
  | Some bm =>
      present ← path_exists (AtomicFileWriter.target_path self);
      if present
      then BackupManager.create_backup bm (AtomicFileWriter.target_path self) ;; ret tt
      else ret tt
  | None => ret tt
  end.

Definition commit (self : AtomicFileWriter.t) : IO bool :=
  backup_step self ;;
  AtomicFileWriter._atomic_replace self ;;
  LOGGER DEBUG (WriteSucceeded (AtomicFileWriter.target_path self)) ;;
  ret true.

(** A writer with a backup manager that keeps two snapshots, and a
    directory that holds a target called [test.json]. *)
Definition test_writer : AtomicFileWriter.t :=
  AtomicFileWriter.mk "test.json" (Some (BackupManager.mk 2 true)).

Definition old_world (t : list event) : world :=
  world_of [("test.json", mkFile (B "[]") 5)] 1793704210000000 t.

(** A hook that answers without looking. *)
Definition reject_all : AtomicFileWriter.validator := fun _ => ret false.

(** A write attempt under [async with], as the callers make it. *)
Definition write_session (self : AtomicFileWriter.t) (data : bytes)
    (validate_func : option AtomicFileWriter.validator) : IO bool :=
  AtomicFileWriter.async_with self
    (fun writer => AtomicFileWriter.write_atomic writer data validate_func).




(** ** Snapshots of a target *)

Definition snapshots (files : gmap string File) (target : string) : list string :=
  glob_names files (BackupManager.backup_pattern target).

Definition mtime_of (files : gmap string File) (p : string) : Z :=
  from_option mtime 0 (files !! p).

(** The names in the order [sort(key=st_mtime, reverse=True)] gives them. *)
Definition by_mtime_desc (files : gmap string File) (names : list string) : list string :=
  (sort_desc (zip (mtime_of files <$> names) names)).*2.

(** The snapshots a pruning pass sets out to delete, in its order. *)
Definition excess (self : BackupManager.t) (files : gmap string File) (target : string)
    : list string :=
  slice_from (BackupManager.retention_count self) (by_mtime_desc files (snapshots files target)).

(** A snapshot no other snapshot is more recent than. *)
Definition newest (files : gmap string File) (target s : string) : Prop :=
  s ∈ snapshots files target /\
  forall s', s' ∈ snapshots files target -> mtime_of files s' <= mtime_of files s.

(** The world after [n] successful filesystem calls that change no file. *)
Definition advance_n (n : nat) (w : world) : world := Nat.iter n advance w.

(** The deleting loop of a pruning pass. *)
Definition unlink_loop (files : list string) : IO unit :=
  for_each files (fun backup_file =>
    path_unlink backup_file ;; LOGGER DEBUG (BackupDeleted backup_file)).


(** The log lines of the deletions of a pruning pass. *)
Definition deleted_lines (names : list string) : list (level * msg) :=
  map (fun x => (DEBUG, BackupDeleted x)) names.

(** A directory with the target and four snapshots of it, the oldest
    first. *)
Definition snap1 : string := "test_20261101_090000_backup.json".
Definition snap2 : string := "test_20261102_090000_backup.json".
Definition snap3 : string := "test_20261103_090000_backup.json".
Definition snap4 : string := "test_20261103_100000_backup.json".

Definition snapshot_world (t : list event) : world :=
  world_of [("test.json", mkFile (B "[]") 500);
            (snap1, mkFile (B "[]") 100);
            (snap2, mkFile (B "[ ]") 200);
            (snap3, mkFile (B "[  ]") 300);
            (snap4, mkFile bool_cache 400)]
           1793704210000000 t.

(** ** What the validator reports

    The line an offending element of the list is reported with: its
    position, and what is wrong with it (the order in which Python walks
    the set of required keys is not fixed, so a report of a wrongly typed
    value may name any of the offending keys). *)
Definition diagnoses (i : nat) (item : json) (m : msg) : Prop :=
  match item with
  | JDict d =>
      (exists missing, m = ItemMissingFields i missing /\ missing <> [] /\
         forall k, k ∈ missing <-> k ∈ DataValidator.required_fields /\ d !! k = None) \/
      (exists k v, m = ItemFieldType i k /\ k ∈ DataValidator.required_fields /\
         (forall k', k' ∈ DataValidator.required_fields -> is_Some (d !! k')) /\
         d !! k = Some v /\ isinstance v [PyStr; PyInt] = false)
  | _ => m = ItemNotDict i
  end.

(** ** More relations on runs *)

(** A file that is as before, or gone. *)
Definition kept_or_gone (p : string) : relation world :=
  fun w w' => fs w' !! p = fs w !! p \/ fs w' !! p = None.

(** * Properties *)

(** ** File names *)

Section NameFacts.

Local Open Scope nat_scope.
Local Arguments Ascii.eqb : simpl never.

Lemma str_app_cons a s t : String a s +:+ t = String a (s +:+ t).
Proof. reflexivity. Qed.

Lemma str_app_nil_r s : s +:+ "" = s.
Proof. induction s as [|a s IH]; [done | by rewrite str_app_cons, IH]. Qed.

Lemma count_app c s t : Str.count c (s +:+ t) = Str.count c s + Str.count c t.
Proof.
  induction s as [|a s IH]; [done |].
  rewrite str_app_cons. simpl. rewrite IH. lia.
Qed.

Lemma str_take_drop n s : Str.take n s +:+ Str.drop n s = s.
Proof.
  revert s; induction n as [|n IH]; intros [|a s]; simpl; try done.
  by rewrite str_app_cons, IH.
Qed.

(** pathlib splits a name in two: [name = stem + suffix]. *)
Lemma stem_suffix name : PurePath.stem name +:+ PurePath.suffix name = name.
Proof.
  unfold PurePath.stem, PurePath.suffix.
  destruct (Str.rfind "." name) as [i|].
  - destruct (_ && _); [apply str_take_drop | apply str_app_nil_r].
  - apply str_app_nil_r.
Qed.

Lemma count_name c name :
  Str.count c name = Str.count c (PurePath.stem name) + Str.count c (PurePath.suffix name).
Proof. by rewrite <- count_app, stem_suffix. Qed.

(** Every character of a pattern other than the wildcards is used up by
    a character of the matched name. *)
Lemma fnmatch_count pat s c :
  fnmatch s pat = true -> c <> "*"%char -> c <> "?"%char ->
  Str.count c pat <= Str.count c s.
Proof.
  unfold fnmatch. intros H Hs Hq. revert s H.
  induction pat as [|p pat IH]; intros s H; [simpl; lia |].
  simpl in H. destruct (Ascii.eqb p "*") eqn:Ep.
  - apply Ascii.eqb_eq in Ep. subst p. simpl.
    destruct (Ascii.eqb "*" c) eqn:E; [apply Ascii.eqb_eq in E; congruence |].
    simpl. induction s as [|a s IHs].
    + rewrite orb_false_r in H. by apply IH.
    + apply orb_true_iff in H as [H|H]; [by apply IH |].
      specialize (IHs H). simpl. lia.
  - destruct s as [|a s]; [done |].
    apply andb_true_iff in H as [H1 H2]. specialize (IH _ H2). simpl.
    apply orb_true_iff in H1 as [H1|H1]; apply Ascii.eqb_eq in H1; subst p.
    + destruct (Ascii.eqb "?" c) eqn:E; [apply Ascii.eqb_eq in E; congruence | lia].
    + lia.
Qed.


Lemma count_string_of_uint c u :
  numeric c = false -> Str.count c (NilEmpty.string_of_uint u) = 0.
Proof.
  intros Hc. induction u; simpl; try done;
    match goal with
    | |- context [Ascii.eqb ?d c] =>
        destruct (Ascii.eqb d c) eqn:E;
        [apply Ascii.eqb_eq in E; subst c; discriminate | done]
    end.
Qed.

Lemma count_str_of_Z c z : numeric c = false -> Str.count c (str_of_Z z) = 0.
Proof.
  intros Hc. unfold str_of_Z, NilZero.string_of_int.
  assert (Hu : forall u, Str.count c (NilZero.string_of_uint u) = 0).
  { intros u. unfold NilZero.string_of_uint.
    destruct u; try (by apply count_string_of_uint).
    simpl. destruct (Ascii.eqb "0" c) eqn:E; [|done].
    apply Ascii.eqb_eq in E; subst c; discriminate. }
  destruct (Z.to_int z) as [u|u]; [apply Hu |].
  simpl. rewrite Hu.
  destruct (Ascii.eqb "-" c) eqn:E; [|done].
  apply Ascii.eqb_eq in E; subst c; discriminate.
Qed.

Lemma count_zero_pad c n z : numeric c = false -> Str.count c (zero_pad n z) = 0.
Proof.
  intros Hc. unfold zero_pad. rewrite count_app, count_str_of_Z by done.
  induction (n - _) as [|k IH]; simpl; [done |].
  destruct (Ascii.eqb "0" c) eqn:E; [|lia].
  apply Ascii.eqb_eq in E; subst c; discriminate.
Qed.

Lemma count_strftime c d :
  numeric c = false -> c <> "_"%char -> Str.count c (Datetime.strftime_backup d) = 0.
Proof.
  intros Hc Hu. unfold Datetime.strftime_backup.
  rewrite !count_app, !count_zero_pad by done. simpl.
  destruct (Ascii.eqb "_" c) eqn:E; [|done].
  apply Ascii.eqb_eq in E; congruence.
Qed.

(** How often ['b'] and ['m'] occur tells the target, its staged files
    and its snapshots apart. *)

Ltac count_names target :=
  unfold BackupManager.backup_name, BackupManager.backup_pattern,
    AtomicFileWriter.temp_name, AtomicFileWriter.staging_pattern;
  rewrite !count_app, ?count_str_of_Z, ?count_strftime by done;
  rewrite (count_name _ target); simpl; lia.

Lemma count_b_backup_name target d :
  Str.count "b" (BackupManager.backup_name target (Datetime.strftime_backup d))
  = Str.count "b" target + 1.
Proof. count_names target. Qed.

Lemma count_b_backup_pattern target :
  Str.count "b" (BackupManager.backup_pattern target) = Str.count "b" target + 1.
Proof. count_names target. Qed.

Lemma count_b_temp_name target z :
  Str.count "b" (AtomicFileWriter.temp_name target (str_of_Z z)) = Str.count "b" target.
Proof. count_names target. Qed.

Lemma count_m_temp_name target z :
  Str.count "m" (AtomicFileWriter.temp_name target (str_of_Z z)) = Str.count "m" target + 1.
Proof. count_names target. Qed.



Lemma fnmatch_false name pat c :
  c <> "*"%char -> c <> "?"%char -> Str.count c name < Str.count c pat ->
  fnmatch name pat = false.
Proof.
  intros Hs Hq Hlt. destruct (fnmatch name pat) eqn:E; [|done].
  pose proof (fnmatch_count _ _ _ E Hs Hq). lia.
Qed.

Lemma target_not_snapshot target :
  fnmatch target (BackupManager.backup_pattern target) = false.
Proof.
  apply (fnmatch_false _ _ "b"); [done | done |].
  rewrite count_b_backup_pattern. lia.
Qed.

Lemma temp_not_snapshot target z :
  fnmatch (AtomicFileWriter.temp_name target (str_of_Z z))
          (BackupManager.backup_pattern target) = false.
Proof.
  apply (fnmatch_false _ _ "b"); [done | done |].
  rewrite count_b_backup_pattern, count_b_temp_name. lia.
Qed.



Lemma temp_ne_target target z :
  AtomicFileWriter.temp_name target (str_of_Z z) <> target.
Proof.
  intros E. pose proof (count_m_temp_name target z) as H. rewrite E in H. lia.
Qed.

Lemma backup_ne_target target d :
  BackupManager.backup_name target (Datetime.strftime_backup d) <> target.
Proof.
  intros E. pose proof (count_b_backup_name target d) as H. rewrite E in H. lia.
Qed.

Lemma backup_ne_temp target d z :
  BackupManager.backup_name target (Datetime.strftime_backup d)
  <> AtomicFileWriter.temp_name target (str_of_Z z).
Proof.
  intros E. pose proof (count_b_backup_name target d) as H.
  rewrite E, count_b_temp_name in H. lia.
Qed.

End NameFacts.

(** ** Running the monad *)

Section Run.

Context {A B : Type}.

Lemma run_bind (m : IO A) (k : A -> IO B) w :
  bind m k w =
  match m w with
  | (Val a, w') => k a w'
  | (Raise e, w') => (Raise e, w')
  | (Blocked, w') => (Blocked, w')
  end.
Proof. reflexivity. Qed.

Lemma run_try_except (body : IO A) handler w :
  try_except body handler w =
  match body w with
  | (Raise e, w') => handler e w'
  | r => r
  end.
Proof. reflexivity. Qed.

End Run.


Lemma run_syscall w :
  syscall w =
  (match next_fault w with Some _ => Raise OSError | None => Val tt end, advance w).
Proof.
  unfold syscall, next_event, next_fault, advance, bind.
  destruct (tape w) as [|[d [n|]] rest]; reflexivity.
Qed.

Lemma advance_fs w : fs (advance w) = fs w.
Proof. unfold advance. by destruct (tape w). Qed.

Lemma advance_self w :
  self_temp_path (advance w) = self_temp_path w /\ self_lock (advance w) = self_lock w.
Proof. unfold advance. by destruct (tape w). Qed.

Lemma advance_log w : log (advance w) = log w.
Proof. unfold advance. by destruct (tape w). Qed.

Lemma advance_tape w : tape (advance w) = tail (tape w).
Proof. unfold advance. by destruct (tape w) eqn:E. Qed.

Lemma no_faults_next w : no_faults (tape w) -> next_fault w = None.
Proof.
  unfold no_faults, next_fault. destruct (tape w); [done |].
  by inversion 1.
Qed.

Lemma no_faults_advance w : no_faults (tape w) -> no_faults (tape (advance w)).
Proof.
  rewrite advance_tape. unfold no_faults. destruct (tape w); [done |].
  by inversion 1.
Qed.

Lemma no_faults_suffix t t' : t' `suffix_of` t -> no_faults t -> no_faults t'.
Proof. intros [k ->] H. by apply Forall_app in H as [_ H]. Qed.

(** ** Relations every run of a computation respects *)


Section Stable.

Context (R : relation world) `{!PreOrder R}.

Lemma stable_ret {A} (a : A) : stable R (ret a).
Proof. intros w. simpl. reflexivity. Qed.

Lemma stable_raise {A} e : stable R (@raise A e).
Proof. intros w. simpl. reflexivity. Qed.

Lemma stable_gets {A} (f : world -> A) : stable R (gets f).
Proof. intros w. simpl. reflexivity. Qed.

Lemma stable_bind_yields {A B} (m : IO A) (k : A -> IO B) (P : A -> Prop) :
  stable R m -> yields m P -> (forall a, P a -> stable R (k a)) -> stable R (bind m k).
Proof.
  intros Hm Hy Hk w. rewrite run_bind. specialize (Hm w).
  destruct (m w) as [[a|e|] w1] eqn:E; simpl in *; try done.
  etrans; [exact Hm |]. apply Hk. by eapply Hy.
Qed.

Lemma stable_bind {A B} (m : IO A) (k : A -> IO B) :
  stable R m -> (forall a, stable R (k a)) -> stable R (bind m k).
Proof.
  intros Hm Hk. apply (stable_bind_yields m k (fun _ => True)); [done | done |].
  intros a _. apply Hk.
Qed.

Lemma stable_try_except {A} (body : IO A) handler :
  stable R body -> (forall e, stable R (handler e)) -> stable R (try_except body handler).
Proof.
  intros Hb Hh w. rewrite run_try_except. specialize (Hb w).
  destruct (body w) as [[a|e|] w1]; simpl in *; try done.
  etrans; [exact Hb |]. apply Hh.
Qed.

Lemma stable_try_finally {A} (body : IO A) final :
  stable R body -> stable R final -> stable R (try_finally body final).
Proof.
  intros Hb Hf w. unfold try_finally. specialize (Hb w).
  destruct (body w) as [[a|e|] w1]; simpl in *; try done;
    specialize (Hf w1); destruct (final w1) as [[?|?|] w2]; simpl in *;
    by etrans.
Qed.

Lemma stable_for_each {A} (xs : list A) body :
  (forall x, x ∈ xs -> stable R (body x)) -> stable R (for_each xs body).
Proof.
  induction xs as [|x xs IH]; intros H; simpl; [apply stable_ret |].
  apply stable_bind; [apply H; left | intros _].
  apply IH. intros y Hy. apply H. by right.
Qed.

Lemma stable_map_io {A B} (f : A -> IO B) (xs : list A) :
  (forall x, x ∈ xs -> stable R (f x)) -> stable R (map_io f xs).
Proof.
  induction xs as [|x xs IH]; intros H; simpl; [apply stable_ret |].
  apply stable_bind; [apply H; left | intros y].
  apply stable_bind; [| intros ys; apply stable_ret].
  apply IH. intros z Hz. apply H. by right.
Qed.

End Stable.


#[global] Instance keeps_po p : PreOrder (keeps p).
Proof. split; [by intros w | intros w1 w2 w3; unfold keeps; congruence]. Qed.
#[global] Instance no_new_po p : PreOrder (no_new p).
Proof. split; [intros w; by unfold no_new | intros w1 w2 w3; unfold no_new; auto]. Qed.
#[global] Instance same_fs_po : PreOrder same_fs.
Proof. split; [by intros w | intros w1 w2 w3; unfold same_fs; congruence]. Qed.
#[global] Instance same_self_po : PreOrder same_self.
Proof.
  split; [intros w; by unfold same_self | intros w1 w2 w3; unfold same_self; intuition congruence].
Qed.
#[global] Instance tape_runs_po : PreOrder tape_runs.
Proof.
  split; [intros w; by unfold tape_runs | intros w1 w2 w3 H1 H2; unfold tape_runs in *; by etrans].
Qed.

Lemma tape_runs_advance w : tape_runs w (advance w).
Proof.
  unfold tape_runs. rewrite advance_tape. destruct (tape w); [done |].
  simpl. by apply suffix_cons_r.
Qed.

Create HintDb stable.

(** The primitives, one relation after the other.  Calls that only read
    the directory respect all of them; calls that write respect [keeps p]
    and [no_new p] for every other name [p]. *)

Ltac prim_unfold :=
  unfold mkdir_parents, path_exists, path_stat, path_unlink, path_replace,
    path_glob, aio_open_rb, aio_read, aio_open_wb, aio_write, aio_fsync,
    time_us, datetime_now, LOGGER, syscall, next_event, modify, gets, raise,
    ret, bind, Lock.acquire, Lock.release.

Ltac prim_cases w :=
  intros w; unfold keeps, no_new, same_fs, same_self, tape_runs;
  prim_unfold; simpl;
  repeat match goal with
         | |- context [match tape ?w with _ => _ end] =>
             let E := fresh "Etape" in
             destruct (tape w) as [|[? [?|]] ?] eqn:E; simpl; rewrite ?E
         | |- context [match fs ?w !! ?p with _ => _ end] =>
             destruct (fs w !! p) eqn:?; simpl
         | |- context [match ?f !! ?p with _ => _ end] =>
             destruct (f !! p) eqn:?; simpl
         | |- context [if self_lock ?w then _ else _] => destruct (self_lock w); simpl
         end.

Ltac prim_stable :=
  let w := fresh "w" in
  prim_cases w;
  repeat match goal with
         | H : tape ?w = _ |- context [tape ?w] => rewrite H
         end;
  first
    [ done
    | by rewrite ?lookup_insert_ne, ?lookup_delete_ne by first [congruence | auto]
    | by intros ?; rewrite ?lookup_insert_ne, ?lookup_delete_ne by first [congruence | auto];
        rewrite ?lookup_delete_None; auto
    | by apply suffix_cons_r ].

Lemma yields_aio_open_wb p : yields (aio_open_wb p) (fun h => h = p).
Proof.
  intros w h w'. unfold aio_open_wb, syscall, next_event, bind, modify, ret, raise.
  destruct (tape w) as [|[d [n|]] rest]; simpl; congruence.
Qed.

Ltac stable_step :=
  lazymatch goal with
  | |- stable _ (bind (aio_open_wb _) _) =>
      eapply stable_bind_yields; [apply _ | | apply yields_aio_open_wb | intros ? ->]
  | |- stable _ (bind _ _) => apply stable_bind; [apply _ | | intros ?]
  | |- stable _ (ret _) => apply stable_ret; apply _
  | |- stable _ (raise _) => apply stable_raise; apply _
  | |- stable _ (gets _) => apply stable_gets; apply _
  | |- stable _ (try_except _ _) => apply stable_try_except; [apply _ | | intros ?]
  | |- stable _ (try_finally _ _) => apply stable_try_finally; [apply _ | |]
  | |- stable _ (for_each _ _) => apply stable_for_each; [apply _ | intros ? ?]
  | |- stable _ (map_io _ _) => apply stable_map_io; [apply _ | intros ? ?]
  | |- stable _ (if ?b then _ else _) => destruct b
  | |- stable _ (match ?x with _ => _ end) => destruct x
  | |- stable _ _ => first [ eassumption | solve [eauto with stable] | solve [prim_stable] ]
  end.

Ltac stable_auto := repeat stable_step.



Lemma add_logs_nil w : add_logs [] w = w.
Proof. destruct w. unfold add_logs. simpl. by rewrite app_nil_r. Qed.

Lemma add_logs_app l1 l2 w : add_logs l2 (add_logs l1 w) = add_logs (l1 ++ l2) w.
Proof. unfold add_logs. simpl. by rewrite app_assoc. Qed.

Lemma run_LOGGER l m w : LOGGER l m w = (Val tt, add_logs [(l, m)] w).
Proof. reflexivity. Qed.

(** The reading calls in terms of [next_fault] and [advance]. *)

Lemma run_path_exists p w :
  path_exists p w =
  (match next_fault w with
   | Some _ => Raise OSError
   | None => Val (bool_decide (is_Some (fs w !! p)))
   end, advance w).
Proof.
  unfold path_exists. rewrite run_bind, run_syscall.
  destruct (next_fault w); [done |]. unfold gets. by rewrite advance_fs.
Qed.

Lemma run_path_stat p w :
  path_stat p w =
  (match next_fault w with
   | Some _ => Raise OSError
   | None => match fs w !! p with Some f => Val f | None => Raise FileNotFoundError end
   end, advance w).
Proof.
  unfold path_stat. rewrite run_bind, run_syscall.
  destruct (next_fault w); [done |]. unfold gets, bind; cbn beta. rewrite ?advance_fs.
  by destruct (fs w !! p).
Qed.

Lemma run_aio_open_rb p w :
  aio_open_rb p w =
  (match next_fault w with
   | Some _ => Raise OSError
   | None => match fs w !! p with Some _ => Val p | None => Raise FileNotFoundError end
   end, advance w).
Proof.
  unfold aio_open_rb. rewrite run_bind, run_syscall.
  destruct (next_fault w); [done |]. unfold gets, bind; cbn beta. rewrite ?advance_fs.
  by destruct (fs w !! p).
Qed.

Lemma run_aio_read p w :
  aio_read p w =
  (match next_fault w with
   | Some _ => Raise OSError
   | None => match fs w !! p with Some f => Val (content f) | None => Raise OSError end
   end, advance w).
Proof.
  unfold aio_read. rewrite run_bind, run_syscall.
  destruct (next_fault w); [done |]. unfold gets, bind; cbn beta. rewrite ?advance_fs.
  by destruct (fs w !! p).
Qed.

Lemma run_path_glob pat w :
  path_glob pat w =
  (match next_fault w with
   | Some _ => Raise OSError
   | None => Val (glob_names (fs w) pat)
   end, advance w).
Proof.
  unfold path_glob. rewrite run_bind, run_syscall.
  destruct (next_fault w); [done |]. unfold gets. by rewrite advance_fs.
Qed.

Lemma run_path_unlink p w :
  path_unlink p w =
  match next_fault w with
  | Some _ => (Raise OSError, advance w)
  | None =>
      match fs w !! p with
      | Some _ => (Val tt, set_fs (delete p (fs w)) (advance w))
      | None => (Raise FileNotFoundError, advance w)
      end
  end.
Proof.
  unfold path_unlink. rewrite run_bind, run_syscall.
  destruct (next_fault w); [done |]. unfold gets, bind, modify; cbn beta. rewrite ?advance_fs.
  destruct (fs w !! p); simpl; by rewrite ?advance_fs.
Qed.

Lemma run_path_replace src dst w :
  path_replace src dst w =
  match next_fault w with
  | Some _ => (Raise OSError, advance w)
  | None =>
      match fs w !! src with
      | Some f => (Val tt, set_fs (<[dst := f]> (delete src (fs w))) (advance w))
      | None => (Raise FileNotFoundError, advance w)
      end
  end.
Proof.
  unfold path_replace. rewrite run_bind, run_syscall.
  destruct (next_fault w); [done |]. unfold gets, bind, modify; cbn beta. rewrite ?advance_fs.
  destruct (fs w !! src); simpl; by rewrite ?advance_fs.
Qed.

Lemma run_aio_open_wb p w :
  aio_open_wb p w =
  match next_fault w with
  | Some _ => (Raise OSError, advance w)
  | None => (Val p, set_fs (<[p := mkFile [] (clock (advance w))]> (fs w)) (advance w))
  end.
Proof.
  unfold aio_open_wb. rewrite run_bind, run_syscall.
  destruct (next_fault w); [done |]. unfold bind, modify, ret; cbn beta. by rewrite ?advance_fs.
Qed.

Lemma run_aio_write h data w :
  aio_write h data w =
  let old := default [] (content <$> fs w !! h) in
  match next_fault w with
  | Some n =>
      (Raise OSError,
       set_fs (<[h := mkFile (old ++ take n data) (clock (advance w))]> (fs w)) (advance w))
  | None =>
      (Val tt, set_fs (<[h := mkFile (old ++ data) (clock (advance w))]> (fs w)) (advance w))
  end.
Proof.
  unfold aio_write, next_event, next_fault, advance, bind, gets, modify, raise.
  destruct (tape w) as [|[d [n|]] rest] eqn:E; simpl; done.
Qed.

(** Projections of an updated world. *)
Ltac wsimpl := unfold add_logs, add_log, set_fs, set_temp_path, set_lock, set_env; simpl.

(** ** Computations that cannot block *)

Section Unblocked.

Lemma unblocked_ret {A} (a : A) : unblocked (ret a).
Proof. by intros w. Qed.

Lemma unblocked_raise {A} e : unblocked (@raise A e).
Proof. by intros w. Qed.

Lemma unblocked_gets {A} (f : world -> A) : unblocked (gets f).
Proof. by intros w. Qed.

Lemma unblocked_bind {A B} (m : IO A) (k : A -> IO B) :
  unblocked m -> (forall a, unblocked (k a)) -> unblocked (bind m k).
Proof.
  intros Hm Hk w. rewrite run_bind. specialize (Hm w).
  destruct (m w) as [[a|e|] w1]; simpl in *; try done. apply Hk.
Qed.

Lemma unblocked_try_except {A} (body : IO A) handler :
  unblocked body -> (forall e, unblocked (handler e)) -> unblocked (try_except body handler).
Proof.
  intros Hb Hh w. rewrite run_try_except. specialize (Hb w).
  destruct (body w) as [[a|e|] w1]; simpl in *; try done. apply Hh.
Qed.

Lemma unblocked_for_each {A} (xs : list A) body :
  (forall x, unblocked (body x)) -> unblocked (for_each xs body).
Proof.
  intros H. induction xs as [|x xs IH]; simpl; [apply unblocked_ret |].
  by apply unblocked_bind.
Qed.

Lemma unblocked_map_io {A B} (f : A -> IO B) (xs : list A) :
  (forall x, unblocked (f x)) -> unblocked (map_io f xs).
Proof.
  intros H. induction xs as [|x xs IH]; simpl; [apply unblocked_ret |].
  apply unblocked_bind; [done | intros y].
  apply unblocked_bind; [done | intros ys; apply unblocked_ret].
Qed.

(** A [try] whose handler returns always returns. *)
Lemma try_except_returns {A} (body : IO A) handler w :
  unblocked body ->
  (forall e w1, exists a, (handler e w1).1 = Val a) ->
  exists a, (try_except body handler w).1 = Val a.
Proof.
  intros Hb Hh. rewrite run_try_except. specialize (Hb w).
  destruct (body w) as [[a|e|] w1]; simpl in *; [by eexists | apply Hh | done].
Qed.

End Unblocked.

Ltac prim_unblocked :=
  let w := fresh "w" in
  intros w; prim_unfold; simpl;
  repeat match goal with
         | |- context [match tape ?w with _ => _ end] =>
             destruct (tape w) as [|[? [?|]] ?]; simpl
         | |- context [match ?f !! ?p with _ => _ end] =>
             destruct (f !! p); simpl
         end;
  done.

Ltac unblocked_step :=
  lazymatch goal with
  | |- unblocked (bind _ _) => apply unblocked_bind; [| intros ?]
  | |- unblocked (ret _) => apply unblocked_ret
  | |- unblocked (raise _) => apply unblocked_raise
  | |- unblocked (gets _) => apply unblocked_gets
  | |- unblocked (try_except _ _) => apply unblocked_try_except; [| intros ?]
  | |- unblocked (for_each _ _) => apply unblocked_for_each; intros ?
  | |- unblocked (map_io _ _) => apply unblocked_map_io; intros ?
  | |- unblocked (if ?b then _ else _) => destruct b
  | |- unblocked (match ?x with _ => _ end) => destruct x
  | |- unblocked _ => first [ eassumption | solve [eauto with stable] | solve [prim_unblocked] ]
  end.

Ltac unblocked_auto := repeat unblocked_step.

(** ** DataValidator *)

Section Validator.

Lemma isinstance_str_int v :
  isinstance v [PyStr; PyInt] = true <-> str_int_or_bool_typed v.
Proof.
  unfold str_int_or_bool_typed, str_or_int_typed. split.
  - destruct v; try discriminate; eauto.
  - intros [[[s ->]|[z ->]]|[b ->]]; reflexivity.
Qed.

Lemma record_ok_spec item : record_ok item = true <-> record_of str_int_or_bool_typed item.
Proof.
  unfold record_of. split.
  - destruct item as [| | | | | |d]; try discriminate. cbn [record_ok]. intros H.
    exists d. split; [done |]. intros k Hk.
    rewrite forallb_forall in H. specialize (H k). rewrite <- list_elem_of_In in H.
    specialize (H Hk). unfold field_ok in H.
    destruct (d !! k) as [v|]; [| done]. exists v. by rewrite <- isinstance_str_int.
  - intros (d & -> & H). cbn [record_ok]. apply forallb_forall. intros k Hk.
    apply list_elem_of_In in Hk. destruct (H k Hk) as (v & Hv & Ht).
    unfold field_ok. rewrite Hv. by apply isinstance_str_int.
Qed.

Lemma structure_ok_spec data :
  structure_ok data = true <->
  exists items, data = JList items /\ Forall (record_of str_int_or_bool_typed) items.
Proof.
  split.
  - destruct data as [| | | | |items|]; try discriminate. simpl. intros H.
    exists items. split; [done |]. apply Forall_forall. intros x Hx.
    apply record_ok_spec. rewrite forallb_forall in H. apply H. by apply list_elem_of_In.
  - intros (items & -> & H). simpl. apply forallb_forall. intros x Hx.
    apply record_ok_spec. rewrite Forall_forall in H. apply H. by apply list_elem_of_In.
Qed.

Lemma file_ok_spec loads files p :
  file_ok loads files p = true <-> valid_file str_int_or_bool_typed loads files p.
Proof.
  unfold file_ok, valid_file. split.
  - destruct (files !! p) as [f|]; [| done]. intros [H1 H2]%andb_true_iff.
    exists f. split; [done |]. split.
    + apply negb_true_iff, bool_decide_eq_false in H1. unfold st_size in H1.
      by destruct (content f).
    + destruct (loads (content f)) as [data|]; [| done].
      apply structure_ok_spec in H2 as (items & -> & H). eauto.
  - intros (f & -> & Hne & items & -> & H). apply andb_true_iff. split.
    + apply negb_true_iff, bool_decide_eq_false. unfold st_size.
      by destruct (content f).
    + apply structure_ok_spec. eauto.
Qed.

(** The loops of [_validate_cache_structure] only write log lines. *)

Lemma check_fields_run i d fields w :
  (forall k, k ∈ fields -> is_Some (d !! k)) ->
  exists l, DataValidator.check_fields i d fields w
            = (Val (forallb (field_ok d) fields), add_logs l w).
Proof.
  revert w. induction fields as [|k fields IH]; intros w Hall.
  - exists []. by rewrite add_logs_nil.
  - destruct (Hall k) as [v Hv]; [left |].
    cbn [DataValidator.check_fields forallb]. unfold field_ok at 1. rewrite Hv.
    destruct (isinstance v [PyStr; PyInt]); cbn [negb andb].
    + apply IH. intros k' Hk'. apply Hall. by right.
    + by eexists.
Qed.

Lemma check_item_run i item w :
  exists l, DataValidator.check_item i item w = (Val (record_ok item), add_logs l w).
Proof.
  destruct item as [| | | | | |d]; try by eexists.
  cbn [DataValidator.check_item record_ok].
  destruct (bool_decide _) eqn:E; cbn [negb].
  - apply bool_decide_eq_true in E. apply check_fields_run.
    intros k Hk. destruct (d !! k) eqn:Hd; [done |].
    assert (k ∈ filter (fun k => d !! k = None) DataValidator.required_fields) as Hin
      by by apply list_elem_of_filter.
    rewrite E in Hin. by apply not_elem_of_nil in Hin.
  - apply bool_decide_eq_false in E.
    assert (forallb (field_ok d) DataValidator.required_fields = false) as ->; [| by eexists].
    apply not_true_iff_false. intros H. apply E.
    destruct (filter _ _) as [|k rest] eqn:F; [done |].
    assert (k ∈ filter (fun k => d !! k = None) DataValidator.required_fields) as Hin
      by (rewrite F; left).
    apply list_elem_of_filter in Hin as [Hnone Hk].
    rewrite forallb_forall in H. apply list_elem_of_In in Hk. specialize (H k Hk).
    unfold field_ok in H. by rewrite Hnone in H.
Qed.

Lemma check_items_run i items w :
  exists l, DataValidator.check_items i items w
            = (Val (forallb record_ok items), add_logs l w).
Proof.
  revert i w. induction items as [|item items IH]; intros i w.
  - exists []. by rewrite add_logs_nil.
  - cbn [DataValidator.check_items forallb]. rewrite run_bind.
    destruct (check_item_run i item w) as [l1 ->].
    destruct (record_ok item); cbn [andb].
    + destruct (IH (S i) (add_logs l1 w)) as [l2 ->].
      rewrite add_logs_app. by eexists.
    + by eexists.
Qed.

Lemma validate_cache_structure_run data w :
  exists l, DataValidator._validate_cache_structure data w
            = (Val (structure_ok data), add_logs l w).
Proof.
  unfold DataValidator._validate_cache_structure. rewrite run_try_except.
  destruct data as [| | | | |items|]; try by eexists.
  rewrite run_bind. destruct (check_items_run 0 items w) as [l ->].
  cbn [structure_ok]. destruct (forallb record_ok items).
  - rewrite run_bind, run_LOGGER, add_logs_app. by eexists.
  - by eexists.
Qed.

Lemma stable_validate_cache_structure (R : relation world) data :
  (forall l w, R w (add_logs l w)) -> stable R (DataValidator._validate_cache_structure data).
Proof.
  intros H w. destruct (validate_cache_structure_run data w) as [l ->]. apply H.
Qed.

Variable loads : bytes -> option json.

(** [validate_json_file] only reads: the directory and the writer's
    attributes are as before, and the tape has only moved on. *)

Lemma validate_json_file_same_fs p : stable same_fs (DataValidator.validate_json_file loads p).
Proof.
  unfold DataValidator.validate_json_file. stable_auto.
  apply stable_validate_cache_structure; intros; unfold same_fs, same_self, tape_runs; done.
Qed.

Lemma validate_json_file_same_self p : stable same_self (DataValidator.validate_json_file loads p).
Proof.
  unfold DataValidator.validate_json_file. stable_auto.
  apply stable_validate_cache_structure; intros; unfold same_fs, same_self, tape_runs; done.
Qed.

Lemma validate_json_file_tape_runs p : stable tape_runs (DataValidator.validate_json_file loads p).
Proof.
  unfold DataValidator.validate_json_file. stable_auto.
  apply stable_validate_cache_structure; intros; unfold same_fs, same_self, tape_runs; done.
Qed.

(** It never raises, and says [True] only for a file that passes. *)
Lemma validate_json_file_sound p w :
  exists b w', DataValidator.validate_json_file loads p w = (Val b, w') /\
    (b = true -> file_ok loads (fs w) p = true).
Proof.
  unfold DataValidator.validate_json_file, file_ok.
  rewrite run_try_except, run_bind, run_path_exists.
  destruct (next_fault w); [by eexists _, _ |].
  destruct (fs w !! p) as [f|] eqn:Hf; cbn [bool_decide negb];
    [rewrite bool_decide_eq_true_2 by done | rewrite bool_decide_eq_false_2 by by intros [??]];
    cbn [negb]; [| by eexists _, _].
  rewrite run_bind, run_path_stat. destruct (next_fault (advance w)); [by eexists _, _ |].
  rewrite advance_fs, Hf. case_bool_decide; cbn [negb andb]; [by eexists _, _ |].
  rewrite run_bind, run_aio_open_rb. destruct (next_fault _); [by eexists _, _ |].
  rewrite !advance_fs, Hf.
  rewrite run_bind, run_aio_read. destruct (next_fault _); [by eexists _, _ |].
  rewrite !advance_fs, Hf.
  destruct (loads (content f)) as [data|]; [| by eexists _, _].
  rewrite run_bind.
  destruct (validate_cache_structure_run data (advance (advance (advance (advance w)))))
    as [l ->].
  destruct (structure_ok data); by eexists _, _.
Qed.

(** With no failing call the checks run in their order and stop at the
    first that fails: one call for a missing file, two for an empty one,
    four once the content has been read. *)
Lemma validate_json_file_steps p w :
  no_faults (tape w) ->
  DataValidator.validate_json_file loads p w =
  match fs w !! p with
  | None => (Val false, add_logs [(ERROR, FileMissing p)] (advance w))
  | Some f =>
      if bool_decide (st_size f = 0%nat)
      then (Val false, add_logs [(ERROR, FileEmpty p)] (advance (advance w)))
      else
        let w4 := advance (advance (advance (advance w))) in
        match loads (content f) with
        | None => (Val false, add_logs [(ERROR, JsonFormatError)] w4)
        | Some data =>
            let w5 := (DataValidator._validate_cache_structure data w4).2 in
            (Val (structure_ok data),
             if structure_ok data then add_logs [(DEBUG, FileValid p)] w5 else w5)
        end
  end.
Proof.
  intros Hnf.
  pose proof (no_faults_advance _ Hnf) as Hnf1.
  pose proof (no_faults_advance _ Hnf1) as Hnf2.
  pose proof (no_faults_advance _ Hnf2) as Hnf3.
  unfold DataValidator.validate_json_file.
  rewrite run_try_except, run_bind, run_path_exists, (no_faults_next w) by done.
  destruct (fs w !! p) as [f|] eqn:Hf;
    [rewrite bool_decide_eq_true_2 by done | rewrite bool_decide_eq_false_2 by by intros [??]];
    cbn [negb]; [| done].
  rewrite run_bind, run_path_stat, (no_faults_next (advance w)) by done.
  rewrite advance_fs, Hf. case_bool_decide; cbn [negb]; [done |].
  rewrite run_bind, run_aio_open_rb, no_faults_next by done.
  rewrite !advance_fs, Hf.
  rewrite run_bind, run_aio_read, no_faults_next by done.
  rewrite !advance_fs, Hf. cbn zeta.
  destruct (loads (content f)) as [data|]; [| done].
  rewrite run_bind.
  destruct (validate_cache_structure_run data (advance (advance (advance (advance w)))))
    as [l ->].
  by destruct (structure_ok data).
Qed.

Lemma validate_json_file_complete p w :
  no_faults (tape w) ->
  (DataValidator.validate_json_file loads p w).1 = Val (file_ok loads (fs w) p).
Proof.
  intros Hnf. rewrite validate_json_file_steps by done. unfold file_ok.
  destruct (fs w !! p) as [f|]; [| done].
  case_bool_decide; [done |]. cbn [negb andb].
  by destruct (loads (content f)).
Qed.

End Validator.

(** ** BackupManager: what a backup leaves alone *)

Section BackupFrame.

Lemma insert_desc_perm x l : insert_desc x l ≡ₚ x :: l.
Proof.
  induction l as [|y l IH]; simpl; [done |].
  destruct (x.1 <? y.1); [| done].
  rewrite IH. apply Permutation_swap.
Qed.

Lemma sort_desc_perm l : sort_desc l ≡ₚ l.
Proof.
  induction l as [|x l IH]; [done |].
  unfold sort_desc in *. simpl. by rewrite insert_desc_perm, IH.
Qed.

Lemma elem_of_slice_from {A} n (xs : list A) x : x ∈ slice_from n xs -> x ∈ xs.
Proof.
  unfold slice_from. destruct (0 <=? n); intros H; by eapply subseteq_drop.
Qed.

Lemma elem_of_sorted_names keys (names : list string) x :
  x ∈ (sort_desc (zip keys names)).*2 -> x ∈ names.
Proof.
  intros H. apply list_elem_of_fmap in H as ([k y] & -> & H).
  rewrite sort_desc_perm in H. by apply elem_of_zip_r in H.
Qed.

Lemma yields_path_glob pat :
  yields (path_glob pat) (fun names => forall x, x ∈ names -> fnmatch x pat = true).
Proof.
  intros w names w'. rewrite run_path_glob.
  destruct (next_fault w); [done |]. intros [= <- _] x Hx.
  unfold glob_names in Hx. by apply list_elem_of_filter in Hx as [Hx _].
Qed.

Lemma yields_sort_by_mtime_desc names :
  yields (BackupManager.sort_by_mtime_desc names) (fun sorted => forall x, x ∈ sorted -> x ∈ names).
Proof.
  intros w sorted w'. unfold BackupManager.sort_by_mtime_desc. rewrite run_bind.
  destruct (map_io _ names w) as [[keys|e|] w1]; try done.
  intros [= <- _] x Hx. by eapply elem_of_sorted_names.
Qed.

Variables (self : BackupManager.t) (target : string).

(** Pruning removes snapshots only. *)
Lemma cleanup_keeps q :
  fnmatch q (BackupManager.backup_pattern target) = false ->
  stable (keeps q) (BackupManager._cleanup_old_backups self target).
Proof.
  intros Hq. unfold BackupManager._cleanup_old_backups.
  apply stable_try_except; [apply _ | | intros e; stable_auto].
  eapply stable_bind_yields; [apply _ | stable_auto | apply yields_path_glob |].
  intros names Hnames. cbn beta. destruct (_ <=? _); [stable_auto |].
  eapply stable_bind_yields;
    [apply _ | unfold BackupManager.sort_by_mtime_desc; stable_auto
    | apply yields_sort_by_mtime_desc |].
  intros sorted Hsorted. cbn beta zeta.
  apply stable_for_each; [apply _ |]. intros x Hx.
  assert (x <> q).
  { intros ->. apply elem_of_slice_from, Hsorted, Hnames in Hx. congruence. }
  stable_auto.
Qed.

Lemma cleanup_no_new q : stable (no_new q) (BackupManager._cleanup_old_backups self target).
Proof.
  unfold BackupManager._cleanup_old_backups, BackupManager.sort_by_mtime_desc. stable_auto.
Qed.

Lemma cleanup_same_self : stable same_self (BackupManager._cleanup_old_backups self target).
Proof.
  unfold BackupManager._cleanup_old_backups, BackupManager.sort_by_mtime_desc. stable_auto.
Qed.

Lemma cleanup_tape_runs : stable tape_runs (BackupManager._cleanup_old_backups self target).
Proof.
  unfold BackupManager._cleanup_old_backups, BackupManager.sort_by_mtime_desc. stable_auto.
Qed.

Lemma cleanup_unblocked : unblocked (BackupManager._cleanup_old_backups self target).
Proof.
  unfold BackupManager._cleanup_old_backups, BackupManager.sort_by_mtime_desc. unblocked_auto.
Qed.

(** A backup writes its snapshot and prunes snapshots: every other file
    is as before. *)
Lemma create_backup_keeps q :
  fnmatch q (BackupManager.backup_pattern target) = false ->
  (forall d, BackupManager.backup_name target (Datetime.strftime_backup d) <> q) ->
  stable (keeps q) (BackupManager.create_backup self target).
Proof.
  intros Hq Hne. pose proof (cleanup_keeps q Hq).
  unfold BackupManager.create_backup. stable_auto.
Qed.

Lemma create_backup_no_new q :
  (forall d, BackupManager.backup_name target (Datetime.strftime_backup d) <> q) ->
  stable (no_new q) (BackupManager.create_backup self target).
Proof.
  intros Hne. pose proof (cleanup_no_new q).
  unfold BackupManager.create_backup. stable_auto.
Qed.

Lemma create_backup_same_self : stable same_self (BackupManager.create_backup self target).
Proof.
  pose proof cleanup_same_self. unfold BackupManager.create_backup. stable_auto.
Qed.

Lemma create_backup_tape_runs : stable tape_runs (BackupManager.create_backup self target).
Proof.
  pose proof cleanup_tape_runs. unfold BackupManager.create_backup. stable_auto.
Qed.

(** [create_backup] never raises to its caller. *)
Lemma create_backup_returns w :
  exists o, (BackupManager.create_backup self target w).1 = Val o.
Proof.
  unfold BackupManager.create_backup. destruct (BackupManager.enable_backup self); simpl; [| by eexists].
  apply try_except_returns; [| by eexists].
  pose proof cleanup_unblocked. unblocked_auto.
Qed.

End BackupFrame.

(** ** AtomicFileWriter: the steps of a write *)

Section WriterSteps.

Import AtomicFileWriter.

Variable self : AtomicFileWriter.t.

Lemma create_temp_file_run w :
  _create_temp_file self w =
  match next_fault w with
  | Some _ => (Raise OSError, advance w)
  | None =>
      let tmp := temp_name (target_path self) (str_of_Z (clock (advance w))) in
      (Val tt, add_logs [(DEBUG, TempCreated tmp)] (set_temp_path (Some tmp) (advance w)))
  end.
Proof.
  unfold _create_temp_file, mkdir_parents. rewrite run_bind, run_syscall.
  by destruct (next_fault w).
Qed.

Lemma run_the_temp_path w p :
  self_temp_path w = Some p -> the_temp_path w = (Val p, w).
Proof. intros H. unfold the_temp_path, bind, gets. by rewrite H. Qed.

Lemma write_to_temp_same_self data : stable same_self (_write_to_temp self data).
Proof. unfold _write_to_temp, the_temp_path. stable_auto. Qed.

Lemma write_to_temp_tape_runs data : stable tape_runs (_write_to_temp self data).
Proof. unfold _write_to_temp, the_temp_path. stable_auto. Qed.

(** Staging touches the staged file only; when it returns, the staged
    file holds exactly the data. *)
Lemma write_to_temp_run data w p :
  self_temp_path w = Some p ->
  exists r w', _write_to_temp self data w = (r, w') /\
    (forall q, q <> p -> fs w' !! q = fs w !! q) /\
    same_self w w' /\ tape_runs w w' /\
    match r with
    | Val _ => exists t, fs w' !! p = Some (mkFile data t)
    | Raise _ => True
    | Blocked => False
    end /\
    (no_faults (tape w) ->
     r = Raise AttributeError /\ exists t, fs w' !! p = Some (mkFile data t)).
Proof.
  intros Hp.
  pose proof (write_to_temp_same_self data w) as HS.
  pose proof (write_to_temp_tape_runs data w) as HT.
  destruct (_write_to_temp self data w) as [r w'] eqn:E. simpl in HS, HT.
  exists r, w'. split; [done |].
  cut ((forall q, q <> p -> fs w' !! q = fs w !! q) /\
       match r with
       | Val _ => exists t, fs w' !! p = Some (mkFile data t)
       | Raise _ => True
       | Blocked => False
       end /\ (no_faults (tape w) ->
              r = Raise AttributeError /\ exists t, fs w' !! p = Some (mkFile data t)));
    [tauto |].
  clear HS HT. revert E. unfold _write_to_temp.
  rewrite run_try_except, run_bind, (run_the_temp_path _ _ Hp).
  rewrite run_bind, run_aio_open_wb.
  destruct (next_fault w) eqn:F1.
  { intros [= <- <-]. wsimpl. rewrite advance_fs.
    split; [done |]. split; [done |]. intros Hnf. by rewrite no_faults_next in F1. }
  set (w1 := set_fs _ (advance w)).
  assert (tape w1 = tape (advance w)) as Ht1 by done.
  assert (Hfs1 : forall q, q <> p -> fs w1 !! q = fs w !! q).
  { intros q Hq. subst w1. wsimpl. by rewrite lookup_insert_ne by done. }
  assert (Hold : default [] (content <$> fs w1 !! p) = []).
  { subst w1. wsimpl. by rewrite lookup_insert_eq. }
  rewrite run_bind, run_aio_write. cbn zeta. rewrite Hold. cbn [app].
  destruct (next_fault w1) eqn:F2.
  { intros [= <- <-]. wsimpl. split; [| split; [done |]].
    - intros q Hq. rewrite lookup_insert_ne by done. by apply Hfs1.
    - intros Hnf. apply no_faults_advance in Hnf. rewrite <- Ht1 in Hnf.
      by rewrite no_faults_next in F2. }
  set (w2 := set_fs _ (advance w1)).
  assert (tape w2 = tape (advance w1)) as Ht2 by done.
  assert (Hfs2 : forall q, q <> p -> fs w2 !! q = fs w !! q).
  { intros q Hq. subst w2. wsimpl. rewrite lookup_insert_ne by done. by apply Hfs1. }
  assert (Hp2 : fs w2 !! p = Some (mkFile data (clock (advance w1)))).
  { subst w2. wsimpl. by rewrite lookup_insert_eq. }
  unfold aio_fsync. rewrite run_bind. unfold raise at 1. rewrite run_bind, run_LOGGER.
  intros [= <- <-]. wsimpl. split; [done |]. split; [done |].
  intros _. split; [done |]. by eexists.
Qed.

(** The staged file is written, and then the missing [fsync] raises:
    [_write_to_temp] never returns. *)
Lemma write_to_temp_raises data w :
  exists e w', _write_to_temp self data w = (Raise e, w').
Proof.
  unfold _write_to_temp. rewrite run_try_except, run_bind.
  unfold the_temp_path at 1. rewrite run_bind. unfold gets at 1.
  destruct (self_temp_path w) as [p|].
  - unfold ret at 1. rewrite run_bind, run_aio_open_wb.
    destruct (next_fault w); [rewrite run_bind, run_LOGGER; by eexists _, _ |].
    rewrite run_bind, run_aio_write. cbv zeta.
    destruct (next_fault _); [rewrite run_bind, run_LOGGER; by eexists _, _ |].
    unfold aio_fsync. rewrite run_bind. unfold raise at 1.
    rewrite run_bind, run_LOGGER. by eexists _, _.
  - unfold raise at 1. rewrite run_bind, run_LOGGER. by eexists _, _.
Qed.

Lemma atomic_replace_same_self : stable same_self (_atomic_replace self).
Proof. unfold _atomic_replace, the_temp_path. stable_auto. Qed.

Lemma atomic_replace_tape_runs : stable tape_runs (_atomic_replace self).
Proof. unfold _atomic_replace, the_temp_path. stable_auto. Qed.

(** The replace either renames the staged file onto the target or
    changes nothing. *)
Lemma atomic_replace_run w p :
  self_temp_path w = Some p ->
  exists r w', _atomic_replace self w = (r, w') /\
    same_self w w' /\ tape_runs w w' /\
    match r with
    | Val _ => exists f, fs w !! p = Some f /\
                 fs w' = <[target_path self := f]> (delete p (fs w))
    | Raise _ => fs w' = fs w
    | Blocked => False
    end /\
    (no_faults (tape w) -> is_Some (fs w !! p) -> r = Val tt).
Proof.
  intros Hp.
  pose proof (atomic_replace_same_self w) as HS.
  pose proof (atomic_replace_tape_runs w) as HT.
  destruct (_atomic_replace self w) as [r w'] eqn:E. simpl in HS, HT.
  exists r, w'. do 3 (split; [done |]).
  clear HS HT. revert E. unfold _atomic_replace.
  rewrite run_try_except, run_bind, (run_the_temp_path _ _ Hp).
  rewrite run_bind, run_path_replace.
  destruct (next_fault w) eqn:F1.
  { intros [= <- <-]. wsimpl. rewrite advance_fs.
    split; [done |]. intros Hnf. by rewrite no_faults_next in F1. }
  destruct (fs w !! p) as [f|] eqn:Hf.
  - intros [= <- <-]. wsimpl. split; [| done]. by exists f.
  - intros [= <- <-]. wsimpl. rewrite advance_fs. split; [done |]. by intros _ [??].
Qed.

(** The body of [write_atomic] is its three stages in sequence. *)
Lemma write_atomic_body_stages data v w :
  write_atomic_body self data v w =
  bind (staging self data) (fun _ =>
    valid ← validate_step v;
    if negb valid
    then LOGGER ERROR (ValidationFailed (target_path self)) ;; ret false
    else commit self) w.
Proof.
  unfold write_atomic_body, staging, validate_step, commit, backup_step.
  rewrite !run_bind. destruct (_create_temp_file self w) as [[[]|e|] w1]; [| done | done].
  rewrite !run_bind. destruct (_write_to_temp self data w1) as [[[]|e|] w2]; [| done | done].
  rewrite !run_bind.
  destruct v as [f|].
  - destruct (bind the_temp_path (fun p => f p) w2) as [[[|]|e|] w3]; try done.
  - done.
Qed.

(** Staging: either the directory could not be prepared and nothing has
    changed, or a staged name has been chosen and only the file of that
    name has been written. *)
Lemma staging_run data w :
  exists r w1, staging self data w = (r, w1) /\
    self_lock w1 = self_lock w /\
    ((r = Raise OSError /\ is_Some (next_fault w) /\
      self_temp_path w1 = self_temp_path w /\ fs w1 = fs w) \/
     (exists z, let tmp := temp_name (target_path self) (str_of_Z z) in
        self_temp_path w1 = Some tmp /\
        (forall q, q <> tmp -> fs w1 !! q = fs w !! q) /\
        match r with
        | Val _ => exists t, fs w1 !! tmp = Some (mkFile data t)
        | Raise _ => True
        | Blocked => False
        end /\
        (no_faults (tape w) ->
         r = Raise AttributeError /\ (exists t, fs w1 !! tmp = Some (mkFile data t)) /\
         no_faults (tape w1)))).
Proof.
  unfold staging. rewrite run_bind, create_temp_file_run.
  destruct (next_fault w) eqn:F.
  { eexists _, _. split; [done |]. pose proof (advance_self w) as [??].
    split; [done |]. left. by rewrite advance_fs. }
  cbn zeta. set (tmp := temp_name _ _). set (w0 := add_logs _ _).
  assert (Hp : self_temp_path w0 = Some tmp) by done.
  destruct (write_to_temp_run data w0 tmp Hp) as (r & w1 & E & Hfs & [HS1 HS2] & HT & Hr & Hnf).
  exists r, w1. split; [done |]. pose proof (advance_self w) as [??].
  split; [by rewrite HS2 |]. right. exists (clock (advance w)). cbn zeta. fold tmp.
  split; [by rewrite HS1 |]. split.
  { intros q Hq. rewrite Hfs by done. subst w0. wsimpl. by rewrite advance_fs. }
  split; [done |]. intros Hnf0.
  assert (no_faults (tape w0)) as Hnf1 by (by apply no_faults_advance in Hnf0).
  destruct (Hnf Hnf1) as [-> Hstaged].
  split; [done |]. split; [done |]. by eapply no_faults_suffix.
Qed.

(** Staging never returns: the directory cannot be prepared, or
    [_write_to_temp] raises. *)
Lemma staging_raises data w :
  exists e w1, staging self data w = (Raise e, w1).
Proof.
  unfold staging. rewrite run_bind, create_temp_file_run.
  destruct (next_fault w); [by eexists _, _ |]. cbn zeta. apply write_to_temp_raises.
Qed.

Lemma backup_step_unblocked_returns w :
  no_faults (tape w) -> exists w', backup_step self w = (Val tt, w').
Proof.
  intros Hnf. unfold backup_step. destruct (backup_manager self) as [bm|]; [| by eexists].
  rewrite run_bind, run_path_exists, no_faults_next by done.
  destruct (bool_decide _); [| by eexists].
  rewrite run_bind.
  destruct (create_backup_returns bm (target_path self) (advance w)) as [o Ho].
  destruct (BackupManager.create_backup _ _ _) as [r w']. simpl in Ho. subst r. by eexists.
Qed.

(** The commit: whatever the backup does, the target changes only when
    the replace succeeds, and then it is the staged file. *)
Lemma commit_run w z :
  let tmp := temp_name (target_path self) (str_of_Z z) in
  self_temp_path w = Some tmp ->
  exists r w', commit self w = (r, w') /\
    same_self w w' /\
    (forall q, q <> target_path self -> q <> tmp ->
       (forall d, BackupManager.backup_name (target_path self) (Datetime.strftime_backup d) <> q) ->
       no_new q w w') /\
    match r with
    | Val b => b = true /\ exists f, fs w !! tmp = Some f /\ fs w' !! target_path self = Some f
    | _ => fs w' !! target_path self = fs w !! target_path self
    end /\
    (no_faults (tape w) -> is_Some (fs w !! tmp) -> r = Val true).
Proof.
  intros tmp Hp.
  assert (Hk1 : stable (keeps (target_path self)) (backup_step self)).
  { unfold backup_step. destruct (backup_manager self) as [bm|]; [| stable_auto].
    pose proof (create_backup_keeps bm (target_path self) (target_path self)
                  (target_not_snapshot _) (backup_ne_target _)).
    stable_auto. }
  assert (Hk2 : stable (keeps tmp) (backup_step self)).
  { unfold backup_step. destruct (backup_manager self) as [bm|]; [| stable_auto].
    pose proof (create_backup_keeps bm (target_path self) tmp
                  (temp_not_snapshot _ _) (fun d => backup_ne_temp _ d z)).
    stable_auto. }
  assert (Hk3 : stable same_self (backup_step self)).
  { unfold backup_step. destruct (backup_manager self) as [bm|]; [| stable_auto].
    pose proof (create_backup_same_self bm (target_path self)). stable_auto. }
  assert (Hk4 : stable tape_runs (backup_step self)).
  { unfold backup_step. destruct (backup_manager self) as [bm|]; [| stable_auto].
    pose proof (create_backup_tape_runs bm (target_path self)). stable_auto. }
  assert (Hk5 : forall q,
    (forall d, BackupManager.backup_name (target_path self) (Datetime.strftime_backup d) <> q) ->
    stable (no_new q) (backup_step self)).
  { intros q Hq. unfold backup_step. destruct (backup_manager self) as [bm|]; [| stable_auto].
    pose proof (create_backup_no_new bm (target_path self) q Hq). stable_auto. }
  unfold commit. rewrite run_bind.
  specialize (Hk1 w). specialize (Hk2 w). specialize (Hk3 w). specialize (Hk4 w).
  pose proof (backup_step_unblocked_returns w) as Hret.
  destruct (backup_step self w) as [r4 w4] eqn:E4. simpl in Hk1, Hk2, Hk3, Hk4.
  assert (Hnew4 : forall q,
    (forall d, BackupManager.backup_name (target_path self) (Datetime.strftime_backup d) <> q) ->
    no_new q w w4).
  { intros q Hq. specialize (Hk5 q Hq w). by rewrite E4 in Hk5. }
  destruct r4 as [[]|e|];
    [| eexists _, _; split; [done |]; split; [done |];
       (split; [intros q ? ? Hq; by apply Hnew4 |]); (split; [done |]);
       intros Hnf _; by destruct (Hret Hnf) as [? [=]] ..].
  destruct Hk3 as [Hs1 Hs2].
  assert (Hp4 : self_temp_path w4 = Some tmp) by congruence.
  destruct (atomic_replace_run w4 tmp Hp4) as (r5 & w5 & E5 & [Hs3 Hs4] & HT5 & Hr5 & Hnf5).
  rewrite run_bind, E5.
  assert (Hself : same_self w w5) by (split; congruence).
  destruct r5 as [[]|e|]; [| | done].
  - rewrite run_bind, run_LOGGER. eexists _, _. split; [done |].
    destruct Hr5 as (f & Hf & Hfs5). wsimpl.
    split; [done |]. split; [| split].
    + intros q Hq1 Hq2 Hq3. unfold no_new. simpl. intros Hnone. rewrite Hfs5.
      rewrite lookup_insert_ne, lookup_delete_ne by done. by apply Hnew4.
    + split; [done |]. exists f. split; [congruence |].
      rewrite Hfs5. by rewrite lookup_insert_eq.
    + done.
  - eexists _, _. split; [done |]. split; [done |]. split; [| split].
    + intros q Hq1 Hq2 Hq3. unfold no_new. intros Hnone. rewrite Hr5. by apply Hnew4.
    + rewrite Hr5. congruence.
    + intros Hnf Htmp. exfalso.
      destruct (Hret Hnf) as [w4' [= <-]].
      assert (Raise e = Val tt) as Hbad; [| done].
      apply Hnf5; [by eapply no_faults_suffix | by rewrite Hk2].
Qed.

Lemma validate_step_run v w tmp :
  (forall f, v = Some f -> read_only f) ->
  self_temp_path w = Some tmp ->
  exists r w', validate_step v w = (r, w') /\
    fs w' = fs w /\ same_self w w' /\
    (v = None -> r = Val true /\ w' = w) /\
    (forall f, v = Some f -> f tmp w = (r, w')).
Proof.
  intros Hro Hp. unfold validate_step. destruct v as [f|].
  - rewrite run_bind, (run_the_temp_path _ _ Hp).
    destruct (Hro f eq_refl tmp w) as [H1 H2].
    destruct (f tmp w) as [r w'] eqn:E. exists r, w'. simpl in H1, H2.
    do 4 (split; [done |]). by intros g [= <-].
  - eexists _, _. repeat split; done.
Qed.

(** The body of [write_atomic], all outcomes at once. *)
Lemma write_atomic_body_spec data v w :
  (forall f, v = Some f -> read_only f) ->
  exists r w', write_atomic_body self data v w = (r, w') /\
    self_lock w' = self_lock w /\
    match r with
    | Val true => exists t, fs w' !! target_path self = Some (mkFile data t)
    | _ => fs w' !! target_path self = fs w !! target_path self
    end /\
    ((r = Raise OSError /\ self_temp_path w' = self_temp_path w /\ fs w' = fs w) \/
     (exists z, let tmp := temp_name (target_path self) (str_of_Z z) in
        self_temp_path w' = Some tmp /\
        forall q, q <> target_path self -> q <> tmp ->
          (forall d, BackupManager.backup_name (target_path self)
                       (Datetime.strftime_backup d) <> q) ->
          no_new q w w')) /\
    (no_faults (tape w) ->
     r = Raise AttributeError /\
     exists tmp t, self_temp_path w' = Some tmp /\ fs w' !! tmp = Some (mkFile data t)).
Proof.
  intros _. rewrite write_atomic_body_stages, run_bind.
  destruct (staging_run data w) as (r1 & w1 & E1 & Hl1 & [(-> & Hf1 & Ht1 & Hfs1)|(z & Hz)]).
  { rewrite E1. eexists _, _. split; [done |]. split; [done |].
    split; [by rewrite Hfs1 |]. split; [by left |].
    intros Hnf. rewrite no_faults_next in Hf1 by done. by destruct Hf1. }
  cbn zeta in Hz. set (tmp := temp_name _ _) in *.
  destruct Hz as (Hp1 & Hfs1 & _ & Hnf1).
  destruct (staging_raises data w) as (e & w1' & E1'). rewrite E1 in E1'.
  injection E1' as -> <-. rewrite E1.
  assert (Hne : tmp <> target_path self) by apply temp_ne_target.
  eexists _, _. split; [done |]. split; [done |]. split; [by apply Hfs1 |]. split.
  - right. exists z. split; [done |]. intros q _ Hq _. unfold no_new. by rewrite Hfs1.
  - intros Hnf. destruct (Hnf1 Hnf) as ([= ->] & [t Ht] & _). split; [done |]. by exists tmp, t.
Qed.

(** [write_atomic] itself: what the call leaves in the directory besides
    the target. *)
Lemma write_atomic_footprint data v w :
  (forall f, v = Some f -> read_only f) ->
  exists r w', write_atomic self data v w = (r, w') /\
    (forall e, r <> Raise e) /\
    self_lock w' = self_lock w /\
    ((self_temp_path w' = self_temp_path w /\ fs w' = fs w) \/
     (exists z, let tmp := temp_name (target_path self) (str_of_Z z) in
        self_temp_path w' = Some tmp /\
        forall q, q <> target_path self -> q <> tmp ->
          (forall d, BackupManager.backup_name (target_path self)
                       (Datetime.strftime_backup d) <> q) ->
          no_new q w w')) /\
    (no_faults (tape w) ->
     r = Val false /\
     exists tmp t, self_temp_path w' = Some tmp /\ fs w' !! tmp = Some (mkFile data t)).
Proof.
  intros Hro. unfold write_atomic. rewrite run_try_except.
  destruct (write_atomic_body_spec data v w Hro) as (r & w' & -> & Hl & Hr & Hp & Hnf).
  destruct r as [b|e|].
  - eexists _, _. split; [done |]. split; [done |]. split; [done |]. split.
    + destruct Hp as [(? & _)|Hp]; [done | by right].
    + intros H0. by destruct (Hnf H0) as [[=] _].
  - rewrite run_bind, run_LOGGER. eexists _, _. split; [done |]. wsimpl.
    split; [done |]. split; [done |]. split.
    + destruct Hp as [(_ & ? & ?)|(z & ? & Hq)]; [by left |].
      right. exists z. split; [done |]. intros q H1 H2 H3. by apply Hq.
    + intros H0. destruct (Hnf H0) as [_ Hstaged]. done.
  - eexists _, _. split; [done |]. split; [done |]. split; [done |]. split.
    + destruct Hp as [(? & _)|Hp]; [done | by right].
    + intros H0. by destruct (Hnf H0) as [[=] _].
Qed.

(** The hook and the backup manager play no part in a write: staging
    never returns, so neither is reached. *)
Lemma write_atomic_ignores_hook data v w :
  write_atomic self data v w = write_atomic self data None w.
Proof.
  unfold write_atomic. rewrite !run_try_except, !write_atomic_body_stages, !run_bind.
  by destruct (staging_raises data w) as (e & w1 & ->).
Qed.


End WriterSteps.




(** ** Sorting by modification time and deleting *)

Section Prune.

Lemma advance_n_fs n w : fs (advance_n n w) = fs w.
Proof. induction n as [|n IH]; [done |]. simpl. by rewrite advance_fs. Qed.

Lemma advance_n_S n w : advance_n n (advance w) = advance_n (S n) w.
Proof. induction n as [|n IH]; [done |]. simpl in *. by rewrite IH. Qed.

Lemma advance_n_tape n w : tape (advance_n n w) = drop n (tape w).
Proof.
  revert w. induction n as [|n IH]; intros w; [done |].
  rewrite <- advance_n_S, IH, advance_tape.
  destruct (tape w); simpl; by rewrite ?drop_nil.
Qed.

Lemma advance_n_no_faults n w : no_faults (tape w) -> no_faults (tape (advance_n n w)).
Proof.
  intros H. rewrite advance_n_tape. eapply no_faults_suffix; [| done]. apply suffix_drop.
Qed.

Lemma advance_n_log n w : log (advance_n n w) = log w.
Proof. induction n as [|n IH]; [done |]. simpl. by rewrite advance_log. Qed.

Lemma no_faults_take_S n w :
  no_faults (take (S n) (tape w)) ->
  next_fault w = None /\ no_faults (take n (tape (advance w))).
Proof.
  unfold next_fault. rewrite advance_tape. destruct (tape w) as [|ev t]; simpl.
  - intros _. split; [done |]. rewrite take_nil. constructor.
  - by inversion 1.
Qed.

Lemma no_faults_take n t : no_faults t -> no_faults (take n t).
Proof. intros H. eapply Forall_take, H. Qed.

Lemma elem_of_glob_names files pat q :
  q ∈ glob_names files pat <-> fnmatch q pat = true /\ is_Some (files !! q).
Proof.
  unfold glob_names. rewrite list_elem_of_filter, list_elem_of_fmap. split.
  - intros [Hm ([q' f] & -> & Hin)]. apply elem_of_map_to_list in Hin. by eauto.
  - intros [Hm [f Hf]]. split; [done |]. exists (q, f). split; [done |].
    by apply elem_of_map_to_list.
Qed.

Lemma NoDup_glob_names files pat : NoDup (glob_names files pat).
Proof. unfold glob_names. apply NoDup_filter, NoDup_fst_map_to_list. Qed.

Lemma run_stat_key x w :
  bind (path_stat x) (fun st => ret (st_mtime st)) w =
  (match next_fault w with
   | Some _ => Raise OSError
   | None => match fs w !! x with
             | Some f => Val (mtime f)
             | None => Raise FileNotFoundError
             end
   end, advance w).
Proof.
  rewrite run_bind, run_path_stat. destruct (next_fault w); [done |].
  by destruct (fs w !! x).
Qed.

(** The keys of the sort: one [stat] per name, in order. A run that
    returns has read the modification times of the directory. *)
Lemma stat_keys_run names w :
  let stat_all := map_io (fun x => st ← path_stat x; ret (st_mtime st)) names in
  fs (stat_all w).2 = fs w /\
  (forall keys, (stat_all w).1 = Val keys -> keys = mtime_of (fs w) <$> names) /\
  (no_faults (take (length names) (tape w)) ->
   (forall x, x ∈ names -> is_Some (fs w !! x)) ->
   stat_all w = (Val (mtime_of (fs w) <$> names), advance_n (length names) w)).
Proof.
  cbn zeta. revert w. induction names as [|x names IH]; intros w.
  { split; [done |]. split; [by intros keys [= <-] | done]. }
  cbn [map_io]. rewrite run_bind, run_stat_key.
  destruct (IH (advance w)) as (IH1 & IH2 & IH3).
  destruct (next_fault w) eqn:F.
  { simpl. rewrite advance_fs. split; [done |]. split; [done |].
    intros Hnf. apply no_faults_take_S in Hnf as [Hnf _]. congruence. }
  destruct (fs w !! x) as [f|] eqn:Hf.
  2: { simpl. rewrite advance_fs. split; [done |]. split; [done |].
       intros _ H. destruct (H x) as [? ?]; [left | congruence]. }
  rewrite run_bind.
  assert (Hm : forall y, mtime_of (fs (advance w)) y = mtime_of (fs w) y).
  { intros y. unfold mtime_of. by rewrite advance_fs. }
  assert (Hms : mtime_of (fs (advance w)) <$> names = mtime_of (fs w) <$> names).
  { apply list_fmap_ext. intros ???. apply Hm. }
  assert (Hx : mtime f = mtime_of (fs w) x) by (unfold mtime_of; by rewrite Hf).
  rewrite Hms in IH2, IH3.
  destruct (map_io _ names (advance w)) as [[ks|e|] w1]; unfold ret; cbn [fst snd] in *.
  - split; [by rewrite IH1, advance_fs |]. split.
    + intros keys [= <-]. by rewrite (IH2 ks eq_refl), Hx.
    + intros Hnf Hall. rewrite Hx. cbn [length]. rewrite <- advance_n_S.
      assert ((Val ks, w1) = (Val (mtime_of (fs w) <$> names), advance_n (length names) (advance w)))
        as [= -> ->]; [| done].
      apply IH3; [by apply no_faults_take_S in Hnf as [_ ?] |].
      intros y Hy. rewrite advance_fs. apply Hall. by right.
  - split; [by rewrite IH1, advance_fs |]. split; [done |].
    intros Hnf Hall. exfalso.
    assert ((Raise e, w1) = (Val (mtime_of (fs w) <$> names), advance_n (length names) (advance w)))
      as [=].
    apply IH3; [by apply no_faults_take_S in Hnf as [_ ?] |].
    intros y Hy. rewrite advance_fs. apply Hall. by right.
  - split; [by rewrite IH1, advance_fs |]. split; [done |].
    intros Hnf Hall. exfalso.
    assert ((Blocked, w1) = (Val (mtime_of (fs w) <$> names), advance_n (length names) (advance w)))
      as [=].
    apply IH3; [by apply no_faults_take_S in Hnf as [_ ?] |].
    intros y Hy. rewrite advance_fs. apply Hall. by right.
Qed.

Lemma sort_by_mtime_desc_run names w :
  fs (BackupManager.sort_by_mtime_desc names w).2 = fs w /\
  (forall sorted, (BackupManager.sort_by_mtime_desc names w).1 = Val sorted ->
     sorted = by_mtime_desc (fs w) names) /\
  (no_faults (take (length names) (tape w)) ->
   (forall x, x ∈ names -> is_Some (fs w !! x)) ->
   BackupManager.sort_by_mtime_desc names w
   = (Val (by_mtime_desc (fs w) names), advance_n (length names) w)).
Proof.
  unfold BackupManager.sort_by_mtime_desc, by_mtime_desc. rewrite run_bind.
  destruct (stat_keys_run names w) as (H1 & H2 & H3). cbn zeta in *.
  split; [| split].
  - destruct (map_io _ names w) as [[keys|e|] w1]; by simpl in *.
  - destruct (map_io _ names w) as [[keys|e|] w1]; simpl in *; try done.
    intros sorted [= <-]. by rewrite (H2 keys eq_refl).
  - intros Hnf Hall. by rewrite H3.
Qed.

(** The sorted list: a rearrangement, most recent first. *)

Lemma by_mtime_desc_perm files names : by_mtime_desc files names ≡ₚ names.
Proof.
  unfold by_mtime_desc. rewrite sort_desc_perm.
  rewrite snd_zip; [done |]. by rewrite length_fmap.
Qed.

Lemma insert_desc_sorted x l :
  StronglySorted (fun a b : Z * string => b.1 <= a.1) l ->
  StronglySorted (fun a b : Z * string => b.1 <= a.1) (insert_desc x l).
Proof.
  induction 1 as [|y l Hl IH Hy]; simpl; [by repeat constructor |].
  destruct (x.1 <? y.1) eqn:E.
  - apply Z.ltb_lt in E. constructor; [done |].
    rewrite insert_desc_perm. constructor; [lia | done].
  - apply Z.ltb_ge in E. constructor; [by constructor |].
    constructor; [done |]. eapply Forall_impl; [exact Hy |]. simpl. lia.
Qed.

Lemma sort_desc_sorted l :
  StronglySorted (fun a b : Z * string => b.1 <= a.1) (sort_desc l).
Proof.
  induction l as [|x l IH]; [constructor |]. by apply insert_desc_sorted.
Qed.

Lemma elem_of_zip_keys (f : string -> Z) names k x :
  (k, x) ∈ zip (f <$> names) names -> k = f x /\ x ∈ names.
Proof.
  induction names as [|y names IH]; simpl; [by intros ?%elem_of_nil |].
  intros [[= -> ->]|H]%elem_of_cons; [split; [done | left] |].
  destruct (IH H). split; [done | by right].
Qed.

(** Whatever is kept is at least as recent as whatever is cut off. *)
Lemma by_mtime_desc_split files names n s d :
  s ∈ take n (by_mtime_desc files names) ->
  d ∈ drop n (by_mtime_desc files names) ->
  mtime_of files d <= mtime_of files s.
Proof.
  unfold by_mtime_desc. rewrite <- fmap_take, <- fmap_drop.
  intros ([ks s'] & -> & Hs)%list_elem_of_fmap ([kd d'] & -> & Hd)%list_elem_of_fmap.
  pose proof (sort_desc_sorted (zip (mtime_of files <$> names) names)) as Hsorted.
  assert ((ks, s') ∈ sort_desc (zip (mtime_of files <$> names) names)) as Hs1
    by (by eapply subseteq_take).
  assert ((kd, d') ∈ sort_desc (zip (mtime_of files <$> names) names)) as Hd1
    by (by eapply subseteq_drop).
  rewrite sort_desc_perm in Hs1, Hd1.
  apply elem_of_zip_keys in Hs1 as [-> _]. apply elem_of_zip_keys in Hd1 as [-> _].
  rewrite <- (take_drop n (sort_desc _)) in Hsorted.
  by apply (StronglySorted_app_1_elem_of _ _ _ _ _ Hsorted Hs Hd).
Qed.

Lemma run_unlink_step x rest w :
  unlink_loop (x :: rest) w =
  match next_fault w with
  | Some _ => (Raise OSError, advance w)
  | None =>
      match fs w !! x with
      | Some _ =>
          unlink_loop rest
            (add_logs [(DEBUG, BackupDeleted x)] (set_fs (delete x (fs w)) (advance w)))
      | None => (Raise FileNotFoundError, advance w)
      end
  end.
Proof.
  unfold unlink_loop. cbn [for_each]. rewrite !run_bind, run_path_unlink.
  destruct (next_fault w); [done |]. by destruct (fs w !! x).
Qed.

(** With no failing call it removes every file of its list. *)
Lemma unlink_loop_ok files w :
  NoDup files ->
  (forall x, x ∈ files -> is_Some (fs w !! x)) ->
  no_faults (take (length files) (tape w)) ->
  exists w', unlink_loop files w = (Val tt, w') /\
    (forall q, fs w' !! q = if decide (q ∈ files) then None else fs w !! q) /\
    tape w' = drop (length files) (tape w) /\
    same_self w w'.
Proof.
  revert w. induction files as [|x rest IH]; intros w Hnd Hall Hnf.
  { exists w. split; [done |]. split; [| done]. intros q.
    by rewrite decide_False by apply not_elem_of_nil. }
  apply NoDup_cons in Hnd as [Hx Hnd].
  apply no_faults_take_S in Hnf as [Hnext Hnf].
  rewrite run_unlink_step, Hnext.
  destruct (Hall x) as [f Hf]; [left |]. rewrite Hf.
  set (w1 := add_logs _ _).
  destruct (IH w1) as (w' & -> & Hfs & Ht & [Hs1 Hs2]); [done | |done |].
  { intros y Hy. subst w1. wsimpl. rewrite lookup_delete_ne by (by intros ->).
    rewrite ?advance_fs. apply Hall. by right. }
  exists w'. split; [done |]. pose proof (advance_self w) as [? ?].
  split; [| split; [| split]].
  - intros q. rewrite Hfs. subst w1. wsimpl.
    destruct (decide (q ∈ rest)) as [Hq|Hq].
    + rewrite decide_True; [done | by right].
    + destruct (decide (q = x)) as [->|Hqx].
      * rewrite decide_True by left. by rewrite lookup_delete_eq.
      * rewrite decide_False by (by intros [?|?]%elem_of_cons).
        by rewrite lookup_delete_ne, ?advance_fs.
  - rewrite Ht. subst w1. wsimpl. rewrite advance_tape.
    destruct (tape w); simpl; by rewrite ?drop_nil.
  - rewrite Hs1. by subst w1.
  - rewrite Hs2. by subst w1.
Qed.

(** When the call for the file at position [k] fails, the files before it
    are gone, the loop ends with the exception, and every other file is as
    it was. *)
Lemma unlink_loop_stops files w k ev :
  NoDup files ->
  (forall x, x ∈ files -> is_Some (fs w !! x)) ->
  no_faults (take k (tape w)) ->
  tape w !! k = Some ev -> is_Some (fault ev) ->
  (k < length files)%nat ->
  exists w', unlink_loop files w = (Raise OSError, w') /\
    (forall q, fs w' !! q = if decide (q ∈ take k files) then None else fs w !! q) /\
    log w' = log w ++ deleted_lines (take k files).
Proof.
  unfold deleted_lines. revert w k. induction files as [|x rest IH]; intros w k Hnd Hall Hnf Hev Hfault Hk.
  { simpl in Hk. lia. }
  apply NoDup_cons in Hnd as [Hx Hnd]. rewrite run_unlink_step.
  destruct k as [|k].
  { assert (next_fault w = fault ev) as ->.
    { unfold next_fault. destruct (tape w); [done |]. by injection Hev as ->. }
    destruct Hfault as [n ->]. exists (advance w). split; [done |].
    rewrite advance_log, advance_fs. change (take 0 (x :: rest)) with (@nil string).
    split; [| by rewrite app_nil_r].
    intros q. by rewrite decide_False by apply not_elem_of_nil. }
  apply no_faults_take_S in Hnf as [Hnext Hnf]. rewrite Hnext.
  destruct (Hall x) as [f Hf]; [left |]. rewrite Hf.
  set (w1 := add_logs _ _).
  destruct (IH w1 k) as (w' & -> & Hfs & Hlog); [done | | done | | done | |].
  { intros y Hy. subst w1. wsimpl. rewrite lookup_delete_ne by (by intros ->).
    rewrite ?advance_fs. apply Hall. by right. }
  { subst w1. wsimpl. rewrite advance_tape. by destruct (tape w). }
  { simpl in Hk. lia. }
  exists w'. split; [done |]. split.
  - intros q. rewrite Hfs. subst w1. wsimpl. rewrite ?firstn_cons.
    destruct (decide (q ∈ take k rest)) as [Hq|Hq].
    + rewrite decide_True; [done | by right].
    + destruct (decide (q = x)) as [->|Hqx].
      * rewrite decide_True by left. by rewrite lookup_delete_eq.
      * rewrite decide_False by (by intros [?|?]%elem_of_cons).
        by rewrite lookup_delete_ne, ?advance_fs.
  - rewrite Hlog. subst w1. wsimpl. rewrite advance_log.
    by rewrite <- app_assoc.
Qed.

(** The list a pruning pass deletes from. *)

Lemma elem_of_excess self files target x :
  x ∈ excess self files target -> x ∈ snapshots files target.
Proof.
  intros H%elem_of_slice_from. by rewrite by_mtime_desc_perm in H.
Qed.

Lemma NoDup_slice_from {A} n (l : list A) : NoDup l -> NoDup (slice_from n l).
Proof.
  intros H. unfold slice_from. destruct (0 <=? n); eapply sublist_NoDup; try done;
    apply sublist_drop.
Qed.

Lemma NoDup_excess self files target : NoDup (excess self files target).
Proof.
  apply NoDup_slice_from. rewrite by_mtime_desc_perm. apply NoDup_glob_names.
Qed.

Lemma excess_nil self files target :
  Z.of_nat (length (snapshots files target)) <= BackupManager.retention_count self ->
  excess self files target = [].
Proof.
  intros H. unfold excess, slice_from.
  assert (0 <= BackupManager.retention_count self) as ->%Z.leb_le by lia.
  apply drop_ge. rewrite by_mtime_desc_perm. lia.
Qed.

Section Cleanup.

Variables (self : BackupManager.t) (target : string).

(** A pruning pass whose calls do not fail deletes exactly the excess. *)
Lemma cleanup_run_ok w :
  no_faults (tape w) ->
  exists w', BackupManager._cleanup_old_backups self target w = (Val tt, w') /\
    (forall q, fs w' !! q
               = if decide (q ∈ excess self (fs w) target) then None else fs w !! q) /\
    same_self w w'.
Proof.
  intros Hnf. unfold BackupManager._cleanup_old_backups.
  rewrite run_try_except, run_bind, run_path_glob, no_faults_next by done.
  fold (snapshots (fs w) target). pose proof (advance_self w) as [S1 S2].
  destruct (_ <=? _) eqn:E.
  - apply Z.leb_le in E. exists (advance w). split; [done |].
    rewrite excess_nil by done. split; [| done]. intros q.
    by rewrite decide_False, advance_fs by apply not_elem_of_nil.
  - rewrite run_bind.
    destruct (sort_by_mtime_desc_run (snapshots (fs w) target) (advance w)) as (_ & _ & ->).
    + rewrite advance_fs. fold (excess self (fs w) target).
      fold (unlink_loop (excess self (fs w) target)).
      destruct (unlink_loop_ok (excess self (fs w) target)
                  (advance_n (length (snapshots (fs w) target)) (advance w)))
        as (w' & -> & Hfs & _ & [S3 S4]).
      * apply NoDup_excess.
      * intros x Hx%elem_of_excess. rewrite advance_n_fs, advance_fs.
        by apply elem_of_glob_names in Hx as [_ ?].
      * apply no_faults_take, advance_n_no_faults. by apply no_faults_advance.
      * exists w'. split; [done |]. split.
        -- intros q. by rewrite Hfs, advance_n_fs, advance_fs.
        -- assert (forall n w0, same_self w0 (advance_n n w0)) as Hn.
           { intros n w0. induction n as [|n IH]; [done |]. simpl.
             destruct IH, (advance_self (advance_n n w0)). split; congruence. }
           destruct (Hn (length (snapshots (fs w) target)) (advance w)).
           split; congruence.
    + apply no_faults_take. by apply no_faults_advance.
    + intros x Hx. rewrite advance_fs. by apply elem_of_glob_names in Hx as [_ ?].
Qed.

(** A pruning pass in which the deletion at position [k] of the excess
    fails: the pass ends there. The failure is logged as a warning and not
    raised; the excess snapshots before position [k] are gone, every other
    file, the later excess snapshots included, is still there. *)
Lemma cleanup_run_stops w k ev :
  BackupManager.retention_count self < Z.of_nat (length (snapshots (fs w) target)) ->
  no_faults (take (1 + length (snapshots (fs w) target) + k) (tape w)) ->
  tape w !! (1 + length (snapshots (fs w) target) + k)%nat = Some ev ->
  is_Some (fault ev) ->
  (k < length (excess self (fs w) target))%nat ->
  exists w', BackupManager._cleanup_old_backups self target w = (Val tt, w') /\
    (forall q, fs w' !! q
               = if decide (q ∈ take k (excess self (fs w) target)) then None
                 else fs w !! q) /\
    log w' = log w ++ deleted_lines (take k (excess self (fs w) target))
                   ++ [(WARNING, BackupCleanupFailed OSError)].
Proof.
  intros Hrc Hnf Hev Hfault Hk. unfold BackupManager._cleanup_old_backups.
  rewrite run_try_except, run_bind, run_path_glob.
  cbn [Nat.add] in Hnf, Hev.
  pose proof Hnf as Hnf0.
  apply no_faults_take_S in Hnf as [Hnext Hnf]. rewrite Hnext.
  fold (snapshots (fs w) target).
  assert ((Z.of_nat (length (snapshots (fs w) target))
           <=? BackupManager.retention_count self) = false) as ->
    by (apply Z.leb_gt; lia).
  rewrite run_bind.
  destruct (sort_by_mtime_desc_run (snapshots (fs w) target) (advance w)) as (_ & _ & ->).
  - rewrite advance_fs. fold (excess self (fs w) target).
    fold (unlink_loop (excess self (fs w) target)).
    destruct (unlink_loop_stops (excess self (fs w) target)
                (advance_n (length (snapshots (fs w) target)) (advance w)) k ev)
      as (w' & -> & Hfs & Hlog).
    + apply NoDup_excess.
    + intros x Hx%elem_of_excess. rewrite advance_n_fs, advance_fs.
      by apply elem_of_glob_names in Hx as [_ ?].
    + rewrite advance_n_tape, take_drop_commute. by apply Forall_drop.
    + rewrite advance_n_tape, lookup_drop, advance_tape.
      rewrite <- Hev. by destruct (tape w).
    + done.
    + done.
    + rewrite run_LOGGER. eexists. split; [done |]. wsimpl. split.
      * intros q. by rewrite Hfs, advance_n_fs, advance_fs.
      * by rewrite Hlog, advance_n_log, advance_log, <- app_assoc.
  - rewrite <- (Nat.min_l (length (snapshots (fs w) target))
                         (length (snapshots (fs w) target) + k)) by lia.
    rewrite <- take_take. by apply no_faults_take.
  - intros x Hx. rewrite advance_fs. by apply elem_of_glob_names in Hx as [_ ?].
Qed.

(** A backup whose calls do not fail: the copy, then the pruning. *)
Lemma create_backup_run_ok w f :
  BackupManager.enable_backup self = true ->
  fs w !! target = Some f ->
  no_faults (tape w) ->
  exists backup t w',
    BackupManager.create_backup self target w = (Val (Some backup), w') /\
    let copied := <[backup := mkFile (content f) t]> (fs w) in
    forall q, fs w' !! q
              = if decide (q ∈ excess self copied target) then None else copied !! q.
Proof.
  intros Hen Hf Hnf. unfold BackupManager.create_backup. rewrite Hen. cbn [negb].
  rewrite run_try_except, run_bind, run_path_exists, no_faults_next by done.
  rewrite bool_decide_eq_true_2 by done. cbn [negb].
  rewrite run_bind. unfold datetime_now, gets at 1.
  set (backup := BackupManager.backup_name target _).
  assert (Hne : backup <> target) by apply backup_ne_target.
  pose proof (no_faults_advance _ Hnf) as Hnf1.
  rewrite run_bind, run_aio_open_rb, no_faults_next, advance_fs, Hf by done.
  pose proof (no_faults_advance _ Hnf1) as Hnf2.
  rewrite run_bind, run_aio_read, no_faults_next, !advance_fs, Hf by done.
  pose proof (no_faults_advance _ Hnf2) as Hnf3.
  rewrite run_bind, run_aio_open_wb, no_faults_next by done.
  set (w4 := set_fs _ _).
  assert (Hnf4 : no_faults (tape w4)) by (by apply no_faults_advance in Hnf3).
  rewrite run_bind, run_aio_write, no_faults_next by done. cbv beta iota zeta.
  set (w5 := set_fs _ (advance w4)).
  assert (Hnf5 : no_faults (tape w5)) by (by apply no_faults_advance in Hnf4).
  rewrite run_bind, run_LOGGER, run_bind.
  set (w6 := add_logs _ w5).
  assert (Hfs6 : fs w6 = <[backup := mkFile (content f) (clock (advance w4))]> (fs w)).
  { subst w6 w5 w4. wsimpl. rewrite !advance_fs, lookup_insert_eq. simpl.
    by rewrite insert_insert_eq. }
  destruct (cleanup_run_ok w6) as (w' & -> & Hfs & _); [done |].
  exists backup, (clock (advance w4)), w'. split; [done |]. cbn zeta.
  intros q. by rewrite Hfs, Hfs6.
Qed.

(** What is left of the snapshots once the excess is gone. *)
Lemma snapshots_after_pruning (files files' : gmap string File) :
  0 <= BackupManager.retention_count self ->
  (forall q, files' !! q
             = if decide (q ∈ excess self files target) then None else files !! q) ->
  snapshots files' target
  ≡ₚ take (Z.to_nat (BackupManager.retention_count self))
          (by_mtime_desc files (snapshots files target)).
Proof.
  intros Hrc Hfs.
  pose proof (by_mtime_desc_perm files (snapshots files target)) as Hperm.
  assert (Hnd : NoDup (by_mtime_desc files (snapshots files target)))
    by (rewrite Hperm; apply NoDup_glob_names).
  assert (Hex : excess self files target
                = drop (Z.to_nat (BackupManager.retention_count self))
                       (by_mtime_desc files (snapshots files target))).
  { unfold excess, slice_from. by apply Z.leb_le in Hrc as ->. }
  rewrite <- (take_drop (Z.to_nat (BackupManager.retention_count self))
                (by_mtime_desc files (snapshots files target))) in Hnd, Hperm.
  apply NoDup_app in Hnd as (Hnd1 & Hdisj & _).
  apply NoDup_Permutation; [apply NoDup_glob_names | done |].
  intros x. unfold snapshots at 1. rewrite elem_of_glob_names, Hfs, Hex.
  split.
  - intros [Hm Hsome]. destruct (decide _) as [|Hnot]; [by destruct Hsome |].
    assert (x ∈ snapshots files target) as Hx by (by apply elem_of_glob_names).
    rewrite <- Hperm in Hx. by apply elem_of_app in Hx as [|].
  - intros Hx. rewrite decide_False by (by apply Hdisj).
    assert (x ∈ snapshots files target) as Hx'.
    { rewrite <- Hperm. apply elem_of_app. by left. }
    by apply elem_of_glob_names in Hx'.
Qed.

End Cleanup.

End Prune.



(** ** BackupManager: restoring *)

Section Restore.

Variable loads : bytes -> option json.
Variables (self : BackupManager.t) (target : string).

Lemma sort_by_mtime_desc_unblocked names :
  unblocked (BackupManager.sort_by_mtime_desc names).
Proof. unfold BackupManager.sort_by_mtime_desc. unblocked_auto. Qed.

Lemma validate_json_file_unblocked p : unblocked (DataValidator.validate_json_file loads p).
Proof.
  intros w. destruct (validate_json_file_sound loads p w) as (b & w' & -> & _). done.
Qed.

(** The head of the sorted list is a newest name. *)
Lemma by_mtime_desc_head files names latest others :
  by_mtime_desc files names = latest :: others ->
  latest ∈ names /\ forall x, x ∈ names -> mtime_of files x <= mtime_of files latest.
Proof.
  intros E. pose proof (by_mtime_desc_perm files names) as Hperm. split.
  - rewrite <- Hperm, E. left.
  - intros x Hx. rewrite <- Hperm in Hx. rewrite E in Hx.
    apply elem_of_cons in Hx as [->|Hx]; [lia |].
    apply (by_mtime_desc_split files names 1); rewrite E; simpl; [left | done].
Qed.

(** All runs of [restore_from_backup]. *)
Lemma restore_from_backup_run w :
  exists b w', BackupManager.restore_from_backup loads self target w = (Val b, w') /\
    (snapshots (fs w) target = [] -> b = false /\ fs w' = fs w) /\
    (b = true ->
       exists s, newest (fs w) target s /\ file_ok loads (fs w) s = true /\
         content_of w' target = content_of w s) /\
    (no_faults (tape w) -> snapshots (fs w) target <> [] ->
     (forall s, newest (fs w) target s -> file_ok loads (fs w) s = true) -> b = true).
Proof.
  unfold BackupManager.restore_from_backup.
  rewrite run_try_except, run_bind, run_path_glob.
  destruct (next_fault w) eqn:F1.
  { rewrite run_bind, run_LOGGER. eexists _, _. split; [done |]. wsimpl.
    rewrite advance_fs. split; [done |]. split; [done |].
    intros Hnf. by rewrite no_faults_next in F1. }
  fold (snapshots (fs w) target).
  destruct (snapshots (fs w) target) as [|s0 rest] eqn:Esn.
  { rewrite run_bind, run_LOGGER. eexists _, _. split; [done |]. wsimpl.
    by rewrite advance_fs. }
  rewrite <- Esn. rewrite run_bind.
  assert (Hall : forall x, x ∈ snapshots (fs w) target -> is_Some (fs (advance w) !! x)).
  { intros x Hx. rewrite advance_fs. by apply elem_of_glob_names in Hx as [_ ?]. }
  destruct (sort_by_mtime_desc_run (snapshots (fs w) target) (advance w))
    as (Hfs2 & Hval2 & Hok2).
  pose proof (sort_by_mtime_desc_unblocked (snapshots (fs w) target) (advance w)) as Hub2.
  destruct (BackupManager.sort_by_mtime_desc _ (advance w)) as [r2 w2] eqn:E2.
  cbn [fst snd] in *. rewrite advance_fs in Hfs2, Hval2, Hok2.
  assert (Hne : snapshots (fs w) target <> []) by (by rewrite Esn).
  destruct r2 as [sorted|e|]; [| | done].
  2: { rewrite run_bind, run_LOGGER. eexists _, _. split; [done |]. wsimpl.
       split; [by intros ? | ]. split; [done |].
       intros Hnf _ _. exfalso.
       assert ((Raise e, w2) = (Val (by_mtime_desc (fs w) (snapshots (fs w) target)),
                 advance_n (length (snapshots (fs w) target)) (advance w))) as [=].
       apply Hok2; [by apply no_faults_take, no_faults_advance |].
       first [exact Hall | intros x Hx; by apply elem_of_glob_names in Hx as [_ ?]]. }
  assert (Hnf2 : no_faults (tape w) -> no_faults (tape w2)).
  { intros Hnf.
    assert ((Val sorted, w2) = (Val (by_mtime_desc (fs w) (snapshots (fs w) target)),
               advance_n (length (snapshots (fs w) target)) (advance w))) as [= _ ->].
    { apply Hok2; [by apply no_faults_take, no_faults_advance |].
      first [exact Hall | intros x Hx; by apply elem_of_glob_names in Hx as [_ ?]]. }
    by apply advance_n_no_faults, no_faults_advance. }
  rewrite (Hval2 sorted eq_refl).
  destruct (by_mtime_desc (fs w) (snapshots (fs w) target)) as [|latest others] eqn:Es.
  { exfalso. pose proof (by_mtime_desc_perm (fs w) (snapshots (fs w) target)) as Hp.
    rewrite Es in Hp. by apply Permutation_nil in Hp. }
  apply by_mtime_desc_head in Es as Hnew. fold (newest (fs w) target latest) in Hnew.
  rewrite run_bind.
  destruct (validate_json_file_sound loads latest w2) as (b & w3 & E3 & Hb).
  pose proof (validate_json_file_same_fs loads latest w2) as Hfs3.
  pose proof (validate_json_file_tape_runs loads latest w2) as Ht3.
  pose proof (validate_json_file_complete loads latest w2) as Hc3.
  rewrite E3 in Hfs3, Ht3, Hc3 |- *. unfold same_fs in Hfs3. cbn [fst snd] in *.
  rewrite Hfs2 in Hb, Hc3.
  destruct b; cbn [negb].
  2: { rewrite run_bind, run_LOGGER. eexists _, _. split; [done |].
       split; [by intros ? |]. split; [done |].
       intros Hnf _ Hvalid. specialize (Hc3 (Hnf2 Hnf)).
       rewrite (Hvalid latest Hnew) in Hc3. by injection Hc3. }
  specialize (Hb eq_refl).
  assert (exists f, fs w !! latest = Some f) as [f Hf].
  { unfold file_ok in Hb. destruct (fs w !! latest); [by eexists | done]. }
  assert (Hf3 : fs w3 !! latest = Some f) by (by rewrite Hfs3, Hfs2).
  rewrite run_bind, run_aio_open_rb.
  destruct (next_fault w3) eqn:F3.
  { rewrite run_bind, run_LOGGER. eexists _, _. split; [done |].
    split; [by intros ? |]. split; [done |].
    intros Hnf _ _. rewrite no_faults_next in F3; [done |].
    eapply no_faults_suffix; [exact Ht3 | by apply Hnf2]. }
  rewrite Hf3. rewrite run_bind, run_aio_read, advance_fs, Hf3.
  destruct (next_fault (advance w3)) eqn:F4.
  { rewrite run_bind, run_LOGGER. eexists _, _. split; [done |].
    split; [by intros ? |]. split; [done |].
    intros Hnf _ _. rewrite no_faults_next in F4; [done |].
    apply no_faults_advance. eapply no_faults_suffix; [exact Ht3 | by apply Hnf2]. }
  rewrite run_bind, run_aio_open_wb.
  destruct (next_fault (advance (advance w3))) eqn:F5.
  { rewrite run_bind, run_LOGGER. eexists _, _. split; [done |].
    split; [by intros ? |]. split; [done |].
    intros Hnf _ _. rewrite no_faults_next in F5; [done |].
    do 2 apply no_faults_advance. eapply no_faults_suffix; [exact Ht3 | by apply Hnf2]. }
  set (w6 := set_fs _ (advance (advance (advance w3)))).
  rewrite run_bind, run_aio_write. cbv zeta.
  assert (Hold : default [] (content <$> fs w6 !! target) = []).
  { subst w6. wsimpl. by rewrite lookup_insert_eq. }
  rewrite Hold. cbn [app].
  destruct (next_fault w6) eqn:F6.
  { rewrite run_bind, run_LOGGER. eexists _, _. split; [done |].
    split; [by intros ? |]. split; [done |].
    intros Hnf _ _. rewrite no_faults_next in F6; [done |].
    subst w6. wsimpl. do 3 apply no_faults_advance.
    eapply no_faults_suffix; [exact Ht3 | by apply Hnf2]. }
  rewrite run_bind, run_LOGGER. eexists _, _. split; [done |].
  split; [by intros ? |]. split; [| done].
  intros _. exists latest. split; [done |]. split; [done |].
  unfold content_of. wsimpl. by rewrite lookup_insert_eq, Hf.
Qed.

End Restore.
(** ** A write whose filesystem calls do not fail *)

Section WriteRun.

Import AtomicFileWriter.

Lemma advance_set_fs f w : advance (set_fs f w) = set_fs f (advance w).
Proof.
  unfold advance, set_fs, set_env. simpl.
  destruct (tape w) eqn:E; simpl; by rewrite ?E.
Qed.

Lemma advance_add_logs l w : advance (add_logs l w) = add_logs l (advance w).
Proof.
  unfold advance, add_logs, set_env. simpl.
  destruct (tape w) eqn:E; simpl; by rewrite ?E.
Qed.

Lemma advance_set_temp_path p w : advance (set_temp_path p w) = set_temp_path p (advance w).
Proof.
  unfold advance, set_temp_path, set_env. simpl.
  destruct (tape w) eqn:E; simpl; by rewrite ?E.
Qed.

Lemma advance_n_add_logs n l w : advance_n n (add_logs l w) = add_logs l (advance_n n w).
Proof. induction n as [|n IH]; [done |]. simpl. by rewrite IH, advance_add_logs. Qed.

Lemma advance_n_add a b w : advance_n a (advance_n b w) = advance_n (a + b) w.
Proof. induction a as [|a IH]; [done |]. simpl. by rewrite IH. Qed.

Variable self : AtomicFileWriter.t.

(** With no failing call [write_atomic] makes three calls to the
    filesystem (the directory, the opening and the writing of the staged
    file), meets the missing [fsync], and answers [False]: the staged file
    holds the data and stays, the rest of the directory is as before. *)
Lemma write_atomic_quiet_run data v w :
  no_faults (tape w) ->
  let tmp := temp_name (target_path self) (str_of_Z (clock (advance w))) in
  exists w', write_atomic self data v w = (Val false, w') /\
    fs w' = <[tmp := mkFile data (clock (advance_n 3 w))]> (fs w) /\
    log w' = log w ++ [(DEBUG, TempCreated tmp); (ERROR, TempWriteFailed AttributeError);
                       (ERROR, WriteFailed (target_path self) AttributeError)] /\
    tape w' = tape (advance_n 3 w) /\
    clock w' = clock (advance_n 3 w) /\
    self_temp_path w' = Some tmp /\
    self_lock w' = self_lock w.
Proof.
  intros Hnf tmp.
  pose proof (no_faults_advance _ Hnf) as Hnf1.
  unfold write_atomic, write_atomic_body.
  rewrite run_try_except, run_bind, create_temp_file_run, (no_faults_next w) by done.
  cbn beta iota zeta. fold tmp. set (w0 := add_logs _ _).
  assert (Hp : self_temp_path w0 = Some tmp) by done.
  assert (Hnf0 : no_faults (tape w0)) by done.
  pose proof (no_faults_advance _ Hnf0) as Hnf2.
  rewrite run_bind. unfold _write_to_temp.
  rewrite run_try_except, run_bind, (run_the_temp_path _ _ Hp).
  rewrite run_bind, run_aio_open_wb.
  assert (next_fault w0 = None) as -> by (by apply no_faults_next).
  cbn beta iota. set (w1 := set_fs _ (advance w0)).
  rewrite run_bind, run_aio_write. cbn zeta.
  assert (next_fault w1 = None) as -> by (by apply no_faults_next).
  cbn beta iota.
  unfold aio_fsync. rewrite run_bind. unfold raise at 1.
  rewrite run_bind, run_LOGGER. unfold raise at 1. rewrite run_bind, run_LOGGER.
  eexists. split; [reflexivity |].
  assert (Hold : default [] (content <$> fs w1 !! tmp) = []).
  { subst w1. wsimpl. by rewrite lookup_insert_eq. }
  rewrite Hold. subst w1 w0.
  rewrite !advance_set_fs, !advance_add_logs, !advance_set_temp_path.
  pose proof (advance_self (advance (advance w))) as [_ Hl2].
  pose proof (advance_self (advance w)) as [_ Hl1].
  pose proof (advance_self w) as [_ Hl0].
  wsimpl. rewrite insert_insert_eq, !advance_fs, !advance_log.
  repeat split; try done; [by rewrite <- !app_assoc | congruence].
Qed.

(** Whatever the filesystem does, [write_atomic] answers [False] and the
    target and the lock are as before: staging never returns. *)
Lemma write_atomic_always_false data v w :
  exists w', write_atomic self data v w = (Val false, w') /\
    fs w' !! target_path self = fs w !! target_path self /\
    self_lock w' = self_lock w.
Proof.
  unfold write_atomic. rewrite run_try_except, write_atomic_body_stages, run_bind.
  destruct (staging_raises self data w) as (e & w1 & E1).
  destruct (staging_run self data w) as (r1 & w1' & E1' & Hl1 & H).
  rewrite E1 in E1'. injection E1' as <- <-. rewrite E1.
  rewrite run_bind, run_LOGGER. eexists. split; [done |]. wsimpl. split; [| done].
  destruct H as [(_ & _ & _ & Hfs1)|(z & _ & Hfs1 & _)]; [by rewrite Hfs1 |].
  apply Hfs1. intros E. symmetry in E. by apply temp_ne_target in E.
Qed.

End WriteRun.

(** * The claims *)

(** ** Validation *)

(** C10. A list of dicts that hold the five required keys is accepted
    also when a required value is a boolean: [isinstance(value, (str, int))]
    is true of [True] and [False] because [bool] is a subclass of [int], so
    every record whose required values are strings, integers or booleans
    passes [_validate_cache_structure]. *)
Theorem validate_cache_structure_accepts_bool :
  (forall b, isinstance (JBool b) [PyStr; PyInt] = true) /\
  (forall items w,
     Forall (record_of str_int_or_bool_typed) items ->
     (DataValidator._validate_cache_structure (JList items) w).1 = Val true).
Proof.
  split; [done |]. intros items w H.
  destruct (validate_cache_structure_run (JList items) w) as [l ->].
  cbn [fst]. f_equal. apply structure_ok_spec. eauto.
Qed.

Lemma validate_cache_structure_accepts_bool_witness :
  (DataValidator._validate_cache_structure
     (JList [bool_record; bool_record]) (world_of [] 0 [])).1 = Val true.
Proof.
  apply (proj2 validate_cache_structure_accepts_bool).
  repeat constructor; apply record_ok_spec; vm_compute; reflexivity.
Defined.

(** C3, as stated, fails: a file whose record carries [true] under
    [index] passes validation although that value is neither a string nor
    an integer. *)
Lemma validate_json_file_accepts_bool_file :
  let w := world_of [("cache.json", mkFile bool_cache 0)] 0 [] in
  (DataValidator.validate_json_file Json.loads "cache.json" w).1 = Val true /\
  ~ valid_file str_or_int_typed Json.loads (fs w) "cache.json".
Proof.
  split; [vm_compute; reflexivity |].
  intros (f & Hf & _ & items & Hl & Hall).
  vm_compute in Hf. injection Hf as <-.
  vm_compute in Hl. injection Hl as <-.
  apply Forall_cons in Hall as [(d & Hd & Hk) _].
  injection Hd as <-.
  destruct (Hk "index") as (v & Hv & Ht); [left |].
  vm_compute in Hv. injection Hv as <-.
  destruct Ht as [[s Hs]|[z Hz]]; discriminate.
Qed.

(** C3, amended. [validate_json_file] never raises and returns [True]
    only for a file that exists with non-zero size, whose bytes parse as
    JSON, whose parsed value is a list (possibly empty), and whose elements
    are all dicts that hold the five required keys with values typed as
    string, integer or boolean. When no filesystem call fails it returns
    [True] for exactly those files, and the checks run in that order and
    stop at the first failure. *)
Theorem validate_json_file_iff loads p w :
  (exists b w', DataValidator.validate_json_file loads p w = (Val b, w') /\
     (b = true -> valid_file str_int_or_bool_typed loads (fs w) p)) /\
  (no_faults (tape w) ->
     ((DataValidator.validate_json_file loads p w).1 = Val true <->
      valid_file str_int_or_bool_typed loads (fs w) p) /\
     DataValidator.validate_json_file loads p w =
     match fs w !! p with
     | None => (Val false, add_logs [(ERROR, FileMissing p)] (advance w))
     | Some f =>
         if bool_decide (st_size f = 0%nat)
         then (Val false, add_logs [(ERROR, FileEmpty p)] (advance (advance w)))
         else
           let w4 := advance (advance (advance (advance w))) in
           match loads (content f) with
           | None => (Val false, add_logs [(ERROR, JsonFormatError)] w4)
           | Some data =>
               let w5 := (DataValidator._validate_cache_structure data w4).2 in
               (Val (structure_ok data),
                if structure_ok data then add_logs [(DEBUG, FileValid p)] w5 else w5)
           end
     end).
Proof.
  split.
  - destruct (validate_json_file_sound loads p w) as (b & w' & E & H).
    exists b, w'. split; [done |]. intros Hb. by apply file_ok_spec, H.
  - intros Hnf. split; [| by apply validate_json_file_steps].
    rewrite validate_json_file_complete by done. rewrite <- file_ok_spec.
    split; [by intros [=] | by intros ->].
Qed.

Lemma validate_json_file_iff_witness :
  let w := world_of [("cache.json", mkFile bool_cache 0)] 0 [quiet 5; quiet 5] in
  no_faults (tape w) /\
  ((DataValidator.validate_json_file Json.loads "cache.json" w).1 = Val true <->
   valid_file str_int_or_bool_typed Json.loads (fs w) "cache.json").
Proof.
  intros w. assert (H : no_faults (tape w)) by (vm_compute; repeat constructor).
  split; [exact H |].
  exact (proj1 (proj2 (validate_json_file_iff Json.loads "cache.json" w) H)).
Defined.

(** ** Atomic writes *)

Section WriteAtomic.

Import AtomicFileWriter.

(** C1. Whatever happens during [write_atomic] (with a validation hook
    that only inspects), the call does not raise and the target ends up
    with its complete previous content (or still absent) or with the
    complete new content. It holds the new content when the call reports
    success; it is the very file of before when the call reports failure;
    and an exception raised by any step of the sequence (staging,
    validation, the backup step or the replace) makes the call report
    failure with the target unmodified. Failures inside [create_backup] are
    swallowed there and are no exception of the backup step. *)
Theorem write_atomic_all_or_nothing self data v w :
  (forall f, v = Some f -> read_only f) ->
  exists r w', write_atomic self data v w = (r, w') /\
    (forall e, r <> Raise e) /\
    (content_of w' (target_path self) = content_of w (target_path self) \/
     content_of w' (target_path self) = Some data) /\
    (r = Val true -> content_of w' (target_path self) = Some data) /\
    (r = Val false -> fs w' !! target_path self = fs w !! target_path self) /\
    (forall e wb, write_atomic_body self data v w = (Raise e, wb) ->
       r = Val false /\ fs w' !! target_path self = fs w !! target_path self).
Proof.
  intros Hro. unfold write_atomic. rewrite run_try_except.
  destruct (write_atomic_body_spec self data v w Hro) as (r & w' & -> & _ & Hr & _).
  unfold content_of.
  destruct r as [[|]|e|].
  - destruct Hr as [t Ht]. eexists _, _. split; [done |]. rewrite Ht. simpl.
    repeat split; try done. by right.
  - eexists _, _. split; [done |]. rewrite Hr. repeat split; try done. by left.
  - rewrite run_bind, run_LOGGER. eexists _, _. split; [done |]. wsimpl.
    rewrite Hr. repeat split; try done. by left.
  - eexists _, _. split; [done |]. rewrite Hr. repeat split; try done. by left.
Qed.

Lemma write_atomic_all_or_nothing_witness :
  let v := Some (DataValidator.validate_json_file Json.loads) in
  let w := old_world [quiet 10; failing 10 3; quiet 10] in
  (forall f, v = Some f -> read_only f) /\
  exists r w', write_atomic test_writer bool_cache v w = (r, w') /\
    (forall e, r <> Raise e) /\
    (content_of w' "test.json" = content_of w "test.json" \/
     content_of w' "test.json" = Some bool_cache) /\
    (r = Val true -> content_of w' "test.json" = Some bool_cache) /\
    (r = Val false -> fs w' !! "test.json" = fs w !! "test.json") /\
    (forall e wb, write_atomic_body test_writer bool_cache v w = (Raise e, wb) ->
       r = Val false /\ fs w' !! "test.json" = fs w !! "test.json").
Proof.
  intros v w.
  assert (H : forall f, v = Some f -> read_only f).
  { intros f [= <-] p w0. split;
      [apply validate_json_file_same_fs | apply validate_json_file_same_self]. }
  split; [exact H |].
  exact (write_atomic_all_or_nothing test_writer bool_cache v w H).
Defined.

(** C2. When the validation hook answers [False] on the staged file,
    [write_atomic] reports failure and the target is the file of before
    the call: same content, or still absent. *)
Theorem write_atomic_validation_gate self data f w :
  read_only f ->
  (forall p, self_temp_path (staging self data w).2 = Some p ->
             (f p (staging self data w).2).1 = Val false) ->
  exists w', write_atomic self data (Some f) w = (Val false, w') /\
    fs w' !! target_path self = fs w !! target_path self.
Proof.
  intros Hro Hfalse. unfold write_atomic.
  rewrite run_try_except, write_atomic_body_stages, run_bind.
  destruct (staging_run self data w) as (r1 & w1 & E1 & Hl1 & [(-> & _ & _ & Hfs1)|(z & Hz)]);
    rewrite E1 in *; simpl in Hfalse.
  { rewrite run_bind, run_LOGGER. eexists. split; [done |]. wsimpl. by rewrite Hfs1. }
  cbn zeta in Hz. destruct Hz as (Hp1 & Hfs1 & Hr1 & _).
  assert (Htgt : fs w1 !! target_path self = fs w !! target_path self).
  { apply Hfs1. intros E. symmetry in E. by apply temp_ne_target in E. }
  destruct r1 as [[]|e|]; [| | done].
  2: { rewrite run_bind, run_LOGGER. eexists. split; [done |]. by wsimpl. }
  unfold validate_step. rewrite !run_bind, (run_the_temp_path _ _ Hp1).
  specialize (Hfalse _ Hp1). destruct (Hro (temp_name (target_path self) (str_of_Z z)) w1) as [Hs _].
  destruct (f _ w1) as [r3 w3]. simpl in Hfalse, Hs. subst r3. cbn [negb].
  rewrite run_bind, run_LOGGER. eexists. split; [done |]. wsimpl. by rewrite Hs.
Qed.

Lemma write_atomic_validation_gate_witness :
  let w := old_world [quiet 10; quiet 10; quiet 10] in
  read_only reject_all /\
  (forall p, self_temp_path (staging test_writer bool_cache w).2 = Some p ->
             (reject_all p (staging test_writer bool_cache w).2).1 = Val false) /\
  exists w', write_atomic test_writer bool_cache (Some reject_all) w = (Val false, w') /\
    fs w' !! "test.json" = fs w !! "test.json".
Proof.
  intros w.
  assert (H1 : read_only reject_all) by (intros p w0; split; reflexivity).
  assert (H2 : forall p, self_temp_path (staging test_writer bool_cache w).2 = Some p ->
             (reject_all p (staging test_writer bool_cache w).2).1 = Val false)
    by (intros p _; reflexivity).
  split; [exact H1 |]. split; [exact H2 |].
  exact (write_atomic_validation_gate test_writer bool_cache reject_all w H1 H2).
Defined.

End WriteAtomic.

(** ** Staged files and time *)

Section Sessions.

Import AtomicFileWriter.







End Sessions.

(** ** Backups: pruning *)

Section Retention.

Import BackupManager.

(** C9, as stated, fails. With one snapshot to keep and three to delete,
    the first deletion fails: the pass logs a warning and ends, and the two
    other excess snapshots stay although nothing stands in the way of
    their deletion, as a second pass shows. *)
Lemma pruning_gives_up_after_a_failed_deletion :
  let bm := mk 1 true in
  let w := snapshot_world [quiet 1; quiet 1; quiet 1; quiet 1; quiet 1; failing 1 0] in
  let pass := _cleanup_old_backups bm "test.json" w in
  let again := _cleanup_old_backups bm "test.json" pass.2 in
  excess bm (fs w) "test.json" = [snap3; snap2; snap1] /\
  pass.1 = Val tt /\
  log pass.2 = [(WARNING, BackupCleanupFailed OSError)] /\
  tape pass.2 = [] /\
  snapshots (fs pass.2) "test.json" = [snap4; snap3; snap1; snap2] /\
  snapshots (fs again.2) "test.json" = [snap4].
Proof. vm_compute. done. Qed.

(** C9, amended. During retention pruning a failure to delete an excess
    snapshot is logged as a warning, is not raised to the caller, and ends
    the pass: the excess snapshots that come before the failing one in the
    order of deletion (most recent first) are deleted, the failing one and
    all later ones are left in the directory. This is for a target whose
    name has no opening bracket and snapshots of distinct modification
    times, so that the pattern and the order of deletion are the ones of
    the code. *)
Theorem pruning_stops_at_first_failure self target w k ev :
  Str.count "[" target = 0%nat ->
  NoDup (mtime_of (fs w) <$> snapshots (fs w) target) ->
  retention_count self < Z.of_nat (length (snapshots (fs w) target)) ->
  no_faults (take (1 + length (snapshots (fs w) target) + k) (tape w)) ->
  tape w !! (1 + length (snapshots (fs w) target) + k)%nat = Some ev ->
  is_Some (fault ev) ->
  (k < length (excess self (fs w) target))%nat ->
  exists w', _cleanup_old_backups self target w = (Val tt, w') /\
    log w' = log w ++ deleted_lines (take k (excess self (fs w) target))
                   ++ [(WARNING, BackupCleanupFailed OSError)] /\
    (forall q, q ∈ take k (excess self (fs w) target) -> fs w' !! q = None) /\
    (forall q, q ∈ drop k (excess self (fs w) target) ->
       is_Some (fs w' !! q) /\ fs w' !! q = fs w !! q) /\
    (forall q, q ∉ excess self (fs w) target -> fs w' !! q = fs w !! q).
Proof.
  intros _ _ Hrc Hnf Hev Hfault Hk.
  destruct (cleanup_run_stops self target w k ev Hrc Hnf Hev Hfault Hk)
    as (w' & E & Hfs & Hlog).
  exists w'. split; [done |]. split; [done |].
  pose proof (NoDup_excess self (fs w) target) as Hnd.
  rewrite <- (take_drop k (excess self (fs w) target)) in Hnd.
  apply NoDup_app in Hnd as (_ & Hdisj & _).
  split; [| split].
  - intros q Hq. by rewrite Hfs, decide_True.
  - intros q Hq. rewrite Hfs, decide_False by (intros ?; by eapply Hdisj).
    split; [| done]. apply subseteq_drop, elem_of_excess in Hq.
    by apply elem_of_glob_names in Hq as [_ ?].
  - intros q Hq. rewrite Hfs, decide_False; [done |].
    intros ?%subseteq_take. done.
Qed.

Lemma pruning_stops_at_first_failure_witness :
  let bm := mk 1 true in
  let w := snapshot_world
             [quiet 1; quiet 1; quiet 1; quiet 1; quiet 1; quiet 1; failing 1 0] in
  exists w', _cleanup_old_backups bm "test.json" w = (Val tt, w') /\
    log w' = log w ++ deleted_lines (take 1 (excess bm (fs w) "test.json"))
                   ++ [(WARNING, BackupCleanupFailed OSError)] /\
    (forall q, q ∈ take 1 (excess bm (fs w) "test.json") -> fs w' !! q = None) /\
    (forall q, q ∈ drop 1 (excess bm (fs w) "test.json") ->
       is_Some (fs w' !! q) /\ fs w' !! q = fs w !! q) /\
    (forall q, q ∉ excess bm (fs w) "test.json" -> fs w' !! q = fs w !! q).
Proof.
  intros bm w.
  apply (pruning_stops_at_first_failure bm "test.json" w 1 (failing 1 0)).
  - reflexivity.
  - vm_compute. repeat (constructor; [rewrite ?elem_of_cons, elem_of_nil; intuition discriminate |]).
    constructor.
  - vm_compute. reflexivity.
  - vm_compute. repeat constructor.
  - vm_compute. reflexivity.
  - vm_compute. eexists. reflexivity.
  - vm_compute. lia.
Defined.

End Retention.

(** ** Backups: restoring *)

Section Restoring.

Import BackupManager.

(** C5, as stated, fails. A valid snapshot is present, and a more
    recent one that does not parse: with no failing call the restore looks
    at the most recent snapshot only, answers [False] and leaves the
    directory as it is. *)
Lemma restore_ignores_older_valid_snapshot :
  let w := world_of [("test.json", mkFile (B "lost") 500);
                     (snap1, mkFile (B "[]") 100);
                     (snap2, mkFile (B "{") 200)] 1793704210000000 [] in
  let run := restore_from_backup Json.loads (mk 2 true) "test.json" w in
  no_faults (tape w) /\
  snap1 ∈ snapshots (fs w) "test.json" /\
  file_ok Json.loads (fs w) snap1 = true /\
  run.1 = Val false /\
  fs run.2 = fs w.
Proof.
  split; [constructor |]. split; [vm_compute; left |].
  split; [vm_compute; reflexivity |]. split; vm_compute; reflexivity.
Qed.

(** C5, amended. For a target whose name has no opening bracket,
    [restore_from_backup] never raises. With no snapshot matching the
    backup pattern it returns [False] and the directory is unchanged.
    When it returns [True], the target holds the bytes of a newest snapshot
    (none is more recent by modification time), and that snapshot passes
    validation; with at least one snapshot, the newest valid and no
    failing filesystem call it does return [True]. It returns [False] when
    the newest snapshot fails validation, whatever the older ones are; and
    as it returns [True] only with the copy made, a failed copy gives
    [False] too. *)
Theorem restore_from_backup_correct loads self target w :
  Str.count "[" target = 0%nat ->
  exists b w', restore_from_backup loads self target w = (Val b, w') /\
    (snapshots (fs w) target = [] -> b = false /\ fs w' = fs w) /\
    (b = true ->
       exists s, newest (fs w) target s /\ file_ok loads (fs w) s = true /\
         content_of w' target = content_of w s) /\
    (no_faults (tape w) -> snapshots (fs w) target <> [] ->
     (forall s, newest (fs w) target s -> file_ok loads (fs w) s = true) -> b = true) /\
    ((forall s, newest (fs w) target s -> file_ok loads (fs w) s = false) -> b = false) /\
    ((forall s, newest (fs w) target s -> content_of w' target <> content_of w s) ->
     b = false).
Proof.
  intros _.
  destruct (restore_from_backup_run loads self target w) as (b & w' & E & H1 & H2 & H3).
  exists b, w'. do 4 (split; [done |]). split.
  - intros Hbad. destruct b; [| done].
    destruct (H2 eq_refl) as (s & Hs & Hok & _). by rewrite (Hbad s Hs) in Hok.
  - intros Hbad. destruct b; [| done].
    destruct (H2 eq_refl) as (s & Hs & _ & Hc). by destruct (Hbad s Hs).
Qed.

Lemma restore_from_backup_correct_witness :
  let self := mk 2 true in
  let w := snapshot_world [quiet 3; quiet 3; quiet 3] in
  Str.count "[" "test.json" = 0%nat /\
  no_faults (tape w) /\
  snapshots (fs w) "test.json" <> [] /\
  (forall s, newest (fs w) "test.json" s -> file_ok Json.loads (fs w) s = true) /\
  exists w', restore_from_backup Json.loads self "test.json" w = (Val true, w') /\
    exists s, newest (fs w) "test.json" s /\
      content_of w' "test.json" = content_of w s.
Proof.
  intros self w.
  assert (H0 : Str.count "[" "test.json" = 0%nat) by reflexivity.
  assert (H1 : no_faults (tape w)) by (vm_compute; repeat constructor).
  assert (H2 : snapshots (fs w) "test.json" <> []) by (vm_compute; discriminate).
  assert (H3 : forall s, newest (fs w) "test.json" s -> file_ok Json.loads (fs w) s = true).
  { intros s [Hs Hmax].
    assert (snap4 ∈ snapshots (fs w) "test.json") as H4 by (vm_compute; left).
    specialize (Hmax snap4 H4).
    vm_compute in Hs.
    repeat (apply elem_of_cons in Hs as [->|Hs]); try (by apply elem_of_nil in Hs);
      try (vm_compute; reflexivity); exfalso; revert Hmax; vm_compute; intros Hle;
      by apply Hle. }
  do 4 (split; [assumption |]).
  destruct (restore_from_backup_correct Json.loads self "test.json" w H0)
    as (b & w' & E & _ & Hsound & Hcomplete & _).
  assert (b = true) as -> by (by apply Hcomplete).
  exists w'. split; [exact E |].
  destruct (Hsound eq_refl) as (s & Hs & _ & Hc).
  exists s. split; assumption.
Defined.

End Restoring.
(** ** Concurrent sessions *)

Section Serialization.

Import Tasks.
Import AtomicFileWriter.

(** [__aenter__] returns only when it finds the lock free, and then holds
    it; it waits when the lock is held. *)
Lemma aenter_returns self w a w' :
  __aenter__ self w = (Val a, w') ->
  self_lock w = false /\ a = self /\ w' = set_lock true w.
Proof.
  unfold __aenter__. rewrite run_bind. unfold Lock.acquire.
  destruct (self_lock w); [done |]. by intros [= <- <-].
Qed.

Lemma aenter_waits self w :
  self_lock w = true -> __aenter__ self w = (Blocked, w).
Proof.
  intros H. unfold __aenter__. rewrite run_bind. unfold Lock.acquire. by rewrite H.
Qed.

(** A writer just constructed has its lock free and no staged path. *)
Lemma construct_free w spec inst :
  construct w spec = Some inst ->
  lock inst = false /\ temp_path inst = None /\ target_path (writer_of inst) = spec.1.
Proof. unfold construct. simpl. by intros [= <-]. Qed.

(** The world an instance sees once its attributes have been written
    back is the world the call ended in. *)
Lemma view_store i inst w' k t p s :
  view (store i inst w' k t p s)
       (mkInstance (writer_of inst) (self_temp_path w') (self_lock w')) = w'.
Proof. by destruct w'. Qed.

(** A step that ends with the lock held if the task is in flight, taken by
    a task that was in flight or found the lock free, keeps the discipline
    of the locks. *)
Lemma store_lock_discipline s k t inst w' p :
  tasks s !! k = Some t ->
  instances s !! writer t = Some inst ->
  (in_flight (mkTask (writer t) (payload t) (hook t) p) -> self_lock w' = true) ->
  in_flight t \/ lock inst = false ->
  lock_discipline s ->
  lock_discipline (store (writer t) inst w' k t p s).
Proof.
  intros Hk Hi Hheld Hbefore Hinv.
  pose proof (lookup_lt_Some _ _ _ Hk) as Hklt.
  pose proof (lookup_lt_Some _ _ _ Hi) as Hilt.
  assert (Halone : forall k' t', tasks s !! k' = Some t' -> in_flight t' ->
                     writer t' = writer t -> k' = k).
  { intros k' t' Hk' Hfl' E. destruct (Hinv k' t' Hk' Hfl') as [(inst' & Hi' & Hl') Huniq].
    destruct Hbefore as [Hfl|Hfree].
    - symmetry. by eapply Huniq.
    - rewrite E, Hi in Hi'. injection Hi' as <-. congruence. }
  intros k1 t1 Hk1 Hfl1. unfold store in *. cbn [tasks instances] in *.
  destruct (decide (k1 = k)) as [->|Hne].
  - rewrite list_lookup_insert_eq in Hk1 by done. injection Hk1 as <-. cbn [writer].
    split.
    + eexists. rewrite list_lookup_insert_eq by done. split; [done |]. by apply Hheld.
    + intros k' t' Hk' Hfl' E. destruct (decide (k' = k)) as [|Hne']; [done |].
      rewrite list_lookup_insert_ne in Hk' by done. by eapply Halone.
  - rewrite list_lookup_insert_ne in Hk1 by done.
    destruct (Hinv k1 t1 Hk1 Hfl1) as [(inst1 & Hi1 & Hl1) Huniq].
    assert (Hw : writer t1 <> writer t).
    { intros E. by apply Hne, (Halone k1 t1). }
    split.
    + exists inst1. by rewrite list_lookup_insert_ne.
    + intros k' t' Hk' Hfl' E. destruct (decide (k' = k)) as [->|Hne'].
      * rewrite list_lookup_insert_eq in Hk' by done. injection Hk' as <-.
        cbn [writer] in E. congruence.
      * rewrite list_lookup_insert_ne in Hk' by done. by eapply Huniq.
Qed.

Lemma step_lock_discipline s s' :
  step s s' -> lock_discipline s -> lock_discipline s'.
Proof.
  intros Hstep Hinv.
  destruct Hstep as [s k t inst a w' Hk Hpc Hi Hrun
                    | s k t inst r w' Hk Hpc Hi Hrun Hr
                    | s k t inst r w' Hk Hpc Hi Hrun Hr].
  - apply aenter_returns in Hrun as (Hfree & _ & ->).
    apply store_lock_discipline; [done | done | done | by right | done].
  - assert (Hfl : in_flight t) by (by left).
    destruct (Hinv k t Hk Hfl) as [(inst' & Hi' & Hl') _].
    rewrite Hi in Hi'. injection Hi' as <-.
    destruct (write_atomic_always_false (writer_of inst) (payload t) (hook t) (view s inst))
      as (w1 & E & _ & Hl1).
    rewrite Hrun in E. injection E as _ <-.
    apply store_lock_discipline; [done | done | | by left | done].
    intros _. by rewrite Hl1.
  - apply store_lock_discipline; [done | done | | by left; right | done].
    by intros [H|H].
Qed.

Lemma initial_lock_discipline w specs jobs : lock_discipline (initial w specs jobs).
Proof.
  intros k t Hk Hfl. unfold initial in Hk. cbn [tasks] in Hk.
  rewrite list_lookup_fmap in Hk.
  destruct (jobs !! k); simpl in Hk; [injection Hk as <- | discriminate Hk].
  by destruct Hfl as [H|H].
Qed.

Lemma reachable_lock_discipline w specs jobs s :
  reachable w specs jobs s -> lock_discipline s.
Proof.
  unfold reachable. revert s. apply rtc_ind_r.
  - apply initial_lock_discipline.
  - intros s1 s2 _ Hstep IH. by eapply step_lock_discipline.
Qed.

(** A task on its own: the three steps of the system are the
    [async with] block of the code, run from the first call to the last. *)
Lemma session_as_steps s k t inst r w' :
  tasks s !! k = Some t -> at_pc t = Waiting ->
  instances s !! writer t = Some inst ->
  write_session (writer_of inst) (payload t) (hook t) (view s inst) = (r, w') ->
  r <> Blocked ->
  exists s', rtc step s s' /\ env s' = w' /\
    tasks s' !! k = Some (mkTask (writer t) (payload t) (hook t) Finished) /\
    instances s' !! writer t
    = Some (mkInstance (writer_of inst) (self_temp_path w') (self_lock w')).
Proof.
  intros Hk Hpc Hi Hrun Hr.
  pose proof (lookup_lt_Some _ _ _ Hk) as Hklt.
  pose proof (lookup_lt_Some _ _ _ Hi) as Hilt.
  revert Hrun. unfold write_session, async_with. rewrite run_bind.
  destruct (__aenter__ (writer_of inst) (view s inst)) as [[a|e|] w1] eqn:E1;
    [| intros [= <- <-] | intros [= <- <-]; by destruct Hr].
  2: { apply (f_equal fst) in E1. unfold __aenter__, Lock.acquire in E1.
       rewrite run_bind in E1. by destruct (self_lock (view s inst)). }
  pose proof (aenter_returns _ _ _ _ E1) as (_ & -> & _).
  unfold try_finally.
  destruct (write_atomic_always_false (writer_of inst) (payload t) (hook t) w1)
    as (w2 & E2 & _).
  rewrite E2.
  destruct (__aexit__ (writer_of inst) w2) as [r3 w3] eqn:E3.
  intros Hrun.
  assert (w' = w3 /\ r3 <> Blocked) as [-> Hr3].
  { destruct r3 as [[]|e3|]; injection Hrun as <- <-; by split. }
  set (t1 := mkTask (writer t) (payload t) (hook t) Entered).
  set (i1 := mkInstance (writer_of inst) (self_temp_path w1) (self_lock w1)).
  set (s1 := store (writer t) inst w1 k t Entered s).
  set (t2 := mkTask (writer t) (payload t) (hook t) Written).
  set (i2 := mkInstance (writer_of inst) (self_temp_path w2) (self_lock w2)).
  set (s2 := store (writer t) i1 w2 k t1 Written s1).
  set (s3 := store (writer t) i2 w3 k t2 Finished s2).
  assert (Hk1 : tasks s1 !! k = Some t1) by (by apply list_lookup_insert_eq).
  assert (Hi1 : instances s1 !! writer t = Some i1) by (by apply list_lookup_insert_eq).
  assert (Hk2 : tasks s2 !! k = Some t2).
  { apply list_lookup_insert_eq. unfold s1, store. cbn [tasks]. by rewrite length_insert. }
  assert (Hi2 : instances s2 !! writer t = Some i2).
  { apply list_lookup_insert_eq. unfold s1, store. cbn [instances]. by rewrite length_insert. }
  exists s3. split; [| split; [done | split]].
  - eapply rtc_l; [exact (step_enter s k t inst _ w1 Hk Hpc Hi E1) |].
    eapply rtc_l.
    { apply (step_write s1 k t1 i1 (Val false) w2 Hk1 eq_refl Hi1); [| done].
      unfold s1, i1. by rewrite view_store. }
    eapply rtc_l; [| apply rtc_refl].
    apply (step_exit s2 k t2 i2 r3 w3 Hk2 eq_refl Hi2); [| done].
    replace (view s2 i2) with w2; [exact E3 |].
    symmetry. exact (view_store (writer t) i1 w2 k t1 Written s1).
  - apply list_lookup_insert_eq. unfold s2, s1, store. cbn [tasks]. by rewrite !length_insert.
  - apply list_lookup_insert_eq. unfold s2, s1, store. cbn [instances].
    by rewrite !length_insert.
Qed.

(** C7, as stated, fails. Two tasks that write the same path through
    two writer instances do not wait for each other: each [__aenter__]
    finds the lock of its own instance free, and the second sequence begins
    while the first, which has staged its file and not yet cleaned up, is
    still in flight. *)
Lemma two_writers_one_path_overlap :
  exists s t1 t2,
    reachable (world_of [] 0 []) [("cache.json", None); ("cache.json", None)]
              [(0%nat, B "[]", None); (1%nat, B "[]", None)] s /\
    tasks s !! 0%nat = Some t1 /\ tasks s !! 1%nat = Some t2 /\
    writer t1 <> writer t2 /\
    target_of s t1 = Some "cache.json" /\ target_of s t2 = Some "cache.json" /\
    at_pc t1 = Written /\ at_pc t2 = Entered /\
    in_flight t1 /\ in_flight t2.
Proof.
  eexists _, (mkTask 0 (B "[]") None Written), (mkTask 1 (B "[]") None Entered).
  split.
  - eapply rtc_l.
    { eapply (step_enter _ 0%nat (mkTask 0 (B "[]") None Waiting)); reflexivity. }
    eapply rtc_l.
    { eapply (step_write _ 0%nat (mkTask 0 (B "[]") None Entered));
        [reflexivity | reflexivity | reflexivity | reflexivity | discriminate]. }
    eapply rtc_l; [| apply rtc_refl].
    eapply (step_enter _ 1%nat (mkTask 1 (B "[]") None Waiting)); reflexivity.
  - repeat split; try reflexivity; try discriminate; [by right | by left].
Qed.

(** C7, amended. At most one write sequence is in flight per writer
    instance at a time. In every state the tasks can reach, when a
    sequence is in flight on an instance, the lock of that instance is
    held, no other task that goes through the same instance is in flight,
    and [__aenter__] of that instance waits: a second sequence on it begins
    only once the first has run its [__aexit__], success or failure.
    Sessions on distinct instances do not exclude each other, also when
    their target path is the same. *)
Theorem one_session_per_writer w specs jobs s k1 k2 t1 t2 :
  reachable w specs jobs s ->
  tasks s !! k1 = Some t1 -> tasks s !! k2 = Some t2 ->
  k1 <> k2 ->
  writer t1 = writer t2 ->
  in_flight t1 ->
  ~ in_flight t2 /\
  exists inst, instances s !! writer t2 = Some inst /\ lock inst = true /\
    __aenter__ (writer_of inst) (view s inst) = (Blocked, view s inst).
Proof.
  intros Hreach Hk1 Hk2 Hne Hw Hf1.
  pose proof (reachable_lock_discipline _ _ _ _ Hreach) as Hinv.
  destruct (Hinv k1 t1 Hk1 Hf1) as [(inst & Hi & Hl) Huniq].
  split.
  - intros Hf2. apply Hne. symmetry. by eapply Huniq.
  - exists inst. rewrite <- Hw. split; [done |]. split; [done |]. by apply aenter_waits.
Qed.

End Serialization.

Lemma one_session_per_writer_witness :
  let t1 := Tasks.mkTask 0 (B "[]") None Tasks.Written in
  let t2 := Tasks.mkTask 0 (B "[1]") None Tasks.Waiting in
  exists s,
    Tasks.reachable (world_of [] 0 []) [("cache.json", None)]
                    [(0%nat, B "[]", None); (0%nat, B "[1]", None)] s /\
    Tasks.tasks s !! 0%nat = Some t1 /\ Tasks.tasks s !! 1%nat = Some t2 /\
    0%nat <> 1%nat /\
    Tasks.writer t1 = Tasks.writer t2 /\
    Tasks.in_flight t1 /\
    ~ Tasks.in_flight t2 /\
    exists inst, Tasks.instances s !! Tasks.writer t2 = Some inst /\
      Tasks.lock inst = true /\
      AtomicFileWriter.__aenter__ (Tasks.writer_of inst) (Tasks.view s inst)
      = (Blocked, Tasks.view s inst).
Proof.
  intros t1 t2. eexists.
  eassert (H : Tasks.reachable (world_of [] 0 []) [("cache.json", None)]
                 [(0%nat, B "[]", None); (0%nat, B "[1]", None)] _).
  { eapply rtc_l.
    { eapply (Tasks.step_enter _ 0%nat (Tasks.mkTask 0 (B "[]") None Tasks.Waiting));
        reflexivity. }
    eapply rtc_l; [| apply rtc_refl].
    eapply (Tasks.step_write _ 0%nat (Tasks.mkTask 0 (B "[]") None Tasks.Entered));
      [reflexivity | reflexivity | reflexivity | reflexivity | discriminate]. }
  split; [exact H |]. split; [reflexivity |]. split; [reflexivity |].
  split; [discriminate |]. split; [reflexivity |]. split; [right; reflexivity |].
  apply (one_session_per_writer _ _ _ _ 0%nat 1%nat t1 t2 H);
    [reflexivity | reflexivity | discriminate | reflexivity | right; reflexivity].
Defined.

(** * Further properties *)

(** ** The validator's verdicts and diagnostics *)

Section ValidatorReports.

Lemma check_fields_report i d fields w :
  (forall k, k ∈ fields -> is_Some (d !! k)) ->
  (forallb (field_ok d) fields = true /\
   DataValidator.check_fields i d fields w = (Val true, w)) \/
  (exists k v, k ∈ fields /\ d !! k = Some v /\ isinstance v [PyStr; PyInt] = false /\
     DataValidator.check_fields i d fields w
     = (Val false, add_logs [(ERROR, ItemFieldType i k)] w)).
Proof.
  induction fields as [|k fields IH]; intros Hall; [by left |].
  destruct (Hall k) as [v Hv]; [left |].
  cbn [DataValidator.check_fields forallb]. unfold field_ok at 1. rewrite Hv.
  destruct (isinstance v [PyStr; PyInt]) eqn:Hi; cbn [negb andb].
  - destruct IH as [[? ?]|(k' & v' & Hk' & ? & ? & ?)].
    + intros k' Hk'. apply Hall. by right.
    + by left.
    + right. exists k', v'. split; [by right | done].
  - right. exists k, v. split; [left | done].
Qed.

Lemma check_item_report i item w :
  (record_ok item = true /\ DataValidator.check_item i item w = (Val true, w)) \/
  (record_ok item = false /\ exists m, diagnoses i item m /\
     DataValidator.check_item i item w = (Val false, add_logs [(ERROR, m)] w)).
Proof.
  destruct item as [| | | | | |d]; try (right; split; [done |]; by eexists).
  cbn [DataValidator.check_item record_ok diagnoses].
  destruct (bool_decide _) eqn:E; cbn [negb].
  - apply bool_decide_eq_true in E.
    assert (Hall : forall k, k ∈ DataValidator.required_fields -> is_Some (d !! k)).
    { intros k Hk. destruct (d !! k) eqn:Hd; [done |].
      assert (k ∈ filter (fun k => d !! k = None) DataValidator.required_fields) as Hin
        by by apply list_elem_of_filter.
      rewrite E in Hin. by apply not_elem_of_nil in Hin. }
    destruct (check_fields_report i d DataValidator.required_fields w Hall)
      as [[Hok Hrun]|(k & v & Hk & Hv & Hi & Hrun)].
    + left. by rewrite Hok.
    + right. split.
      * apply not_true_iff_false. intros H. rewrite forallb_forall in H.
        apply list_elem_of_In in Hk. specialize (H k Hk). unfold field_ok in H.
        rewrite Hv in H. congruence.
      * eexists. split; [| exact Hrun]. right. by exists k, v.
  - apply bool_decide_eq_false in E. right. split.
    + apply not_true_iff_false. intros H. apply E.
      destruct (filter _ _) as [|k rest] eqn:F; [done |].
      assert (k ∈ filter (fun k => d !! k = None) DataValidator.required_fields) as Hin
        by (rewrite F; left).
      apply list_elem_of_filter in Hin as [Hnone Hk].
      rewrite forallb_forall in H. apply list_elem_of_In in Hk. specialize (H k Hk).
      unfold field_ok in H. by rewrite Hnone in H.
    + eexists. split; [| reflexivity]. left. eexists. split; [done |]. split; [done |].
      intros k. rewrite list_elem_of_filter. tauto.
Qed.

Lemma check_items_accepts i items w :
  forallb record_ok items = true ->
  DataValidator.check_items i items w = (Val true, w).
Proof.
  revert i. induction items as [|item items IH]; intros i H; [done |].
  cbn [forallb] in H. apply andb_true_iff in H as [H1 H2].
  cbn [DataValidator.check_items]. rewrite run_bind.
  destruct (check_item_report i item w) as [[_ ->]|[Hno _]]; [by apply IH | congruence].
Qed.

Lemma check_items_report i good bad rest w :
  forallb record_ok good = true -> record_ok bad = false ->
  exists m, diagnoses (i + length good) bad m /\
    DataValidator.check_items i (good ++ bad :: rest) w
    = (Val false, add_logs [(ERROR, m)] w).
Proof.
  revert i. induction good as [|g good IH]; intros i Hgood Hbad.
  - cbn [app DataValidator.check_items length]. rewrite run_bind, Nat.add_0_r.
    destruct (check_item_report i bad w) as [[Hyes _]|(_ & m & Hm & ->)]; [congruence |].
    by exists m.
  - cbn [forallb] in Hgood. apply andb_true_iff in Hgood as [H1 H2].
    cbn [app DataValidator.check_items length]. rewrite run_bind.
    destruct (check_item_report i g w) as [[_ ->]|[Hno _]]; [| congruence].
    destruct (IH (S i) H2 Hbad) as (m & Hm & ->).
    exists m. split; [| done]. by replace (i + S (length good))%nat with (S i + length good)%nat by lia.
Qed.

(** The first element of a list that is not an acceptable record, if any. *)
Lemma first_offender items :
  forallb record_ok items = false ->
  exists good bad rest, items = good ++ bad :: rest /\
    forallb record_ok good = true /\ record_ok bad = false.
Proof.
  induction items as [|x items IH]; [done |]. cbn [forallb]. intros H.
  destruct (record_ok x) eqn:Hx.
  - destruct (IH H) as (good & bad & rest & -> & Hg & Hb).
    exists (x :: good), bad, rest. cbn [forallb]. by rewrite Hx, Hg.
  - by exists [], x, items.
Qed.

Lemma structure_report data w :
  exists line,
    DataValidator._validate_cache_structure data w
    = (Val (structure_ok data), add_logs [line] w) /\
    match data with
    | JList items =>
        if structure_ok data then line = (DEBUG, StructureValid (length items))
        else line.1 = ERROR /\
             exists i item, items !! i = Some item /\ record_ok item = false /\
                            diagnoses i item line.2
    | _ => line = (ERROR, NotAList)
    end.
Proof.
  unfold DataValidator._validate_cache_structure. rewrite run_try_except.
  destruct data as [| | | | |items|]; try by eexists.
  rewrite run_bind. cbn [structure_ok].
  destruct (forallb record_ok items) eqn:Hall.
  - rewrite check_items_accepts by done. rewrite run_bind, run_LOGGER. by eexists.
  - destruct (first_offender items Hall) as (good & bad & rest & -> & Hg & Hb).
    destruct (check_items_report 0 good bad rest w Hg Hb) as (m & Hm & ->).
    exists (ERROR, m). split; [done |]. split; [done |].
    exists (length good), bad. split; [| done].
    by rewrite lookup_app_r, Nat.sub_diag by lia.
Qed.

(** [_validate_cache_structure] never raises and never reaches its
    [except] clause. It leaves the directory, the clock and the tape alone
    and writes exactly one log line: [NotAList] for a value that is no
    list, the debug line with the number of records for an accepted list,
    and for a rejected list an error line about one of its elements. *)
Theorem validate_cache_structure_one_line data w :
  exists line,
    DataValidator._validate_cache_structure data w
    = (Val (structure_ok data), add_logs [line] w) /\
    match data with
    | JList items =>
        if structure_ok data then line = (DEBUG, StructureValid (length items))
        else line.1 = ERROR /\
             exists i item, items !! i = Some item /\ record_ok item = false /\
                            diagnoses i item line.2
    | _ => line = (ERROR, NotAList)
    end.
Proof. apply structure_report. Qed.

(** The element that is reported is the first offending one: when the
    records before position [i] are acceptable and the one at [i] is not,
    the list is rejected with one error line for position [i] that says
    what is wrong with that element, whatever follows it. *)
Theorem validate_cache_structure_first_offender good bad rest w :
  forallb record_ok good = true -> record_ok bad = false ->
  exists m, diagnoses (length good) bad m /\
    DataValidator._validate_cache_structure (JList (good ++ bad :: rest)) w
    = (Val false, add_logs [(ERROR, m)] w).
Proof.
  intros Hg Hb.
  unfold DataValidator._validate_cache_structure. rewrite run_try_except, run_bind.
  destruct (check_items_report 0 good bad rest w Hg Hb) as (m & Hm & ->).
  by exists m.
Qed.

Lemma validate_cache_structure_first_offender_witness :
  forallb record_ok [bool_record] = true /\ record_ok (JStr "x") = false /\
  exists m, diagnoses 1 (JStr "x") m /\
    DataValidator._validate_cache_structure
      (JList ([bool_record] ++ JStr "x" :: [JNull])) (world_of [] 0 [])
    = (Val false, add_logs [(ERROR, m)] (world_of [] 0 [])).
Proof.
  assert (H1 : forallb record_ok [bool_record] = true) by (vm_compute; reflexivity).
  assert (H2 : record_ok (JStr "x") = false) by reflexivity.
  split; [exact H1 |]. split; [exact H2 |].
  exact (validate_cache_structure_first_offender [bool_record] (JStr "x") [JNull]
           (world_of [] 0 []) H1 H2).
Defined.

Lemma record_ok_insert_optional d k v :
  k ∉ DataValidator.required_fields ->
  record_ok (JDict (<[k := v]> d)) = record_ok (JDict d).
Proof.
  intros Hk. cbn [record_ok].
  assert (H : forall fields, (forall x, x ∈ fields -> x ∈ DataValidator.required_fields) ->
            forallb (field_ok (<[k := v]> d)) fields = forallb (field_ok d) fields).
  { induction fields as [|x fields IH]; intros Hsub; [done |]. cbn [forallb].
    rewrite IH by (intros y Hy; apply Hsub; by right). f_equal.
    unfold field_ok. rewrite lookup_insert_ne; [done |].
    intros ->. apply Hk, Hsub. left. }
  by apply H.
Qed.

(** Keys beyond the five required ones play no part: adding one to a
    record (or changing its value) changes the verdict on no list. *)
Theorem validate_cache_structure_ignores_optional_keys pre d post k v w :
  k ∉ DataValidator.required_fields ->
  (DataValidator._validate_cache_structure (JList (pre ++ JDict (<[k := v]> d) :: post)) w).1
  = (DataValidator._validate_cache_structure (JList (pre ++ JDict d :: post)) w).1.
Proof.
  intros Hk.
  destruct (validate_cache_structure_run (JList (pre ++ JDict (<[k := v]> d) :: post)) w)
    as [l1 ->].
  destruct (validate_cache_structure_run (JList (pre ++ JDict d :: post)) w) as [l2 ->].
  cbn [fst structure_ok]. f_equal.
  rewrite !forallb_app. cbn [forallb]. by rewrite record_ok_insert_optional.
Qed.

Lemma validate_cache_structure_ignores_optional_keys_witness :
  ("trans_by" ∉ DataValidator.required_fields) /\
  ((DataValidator._validate_cache_structure
      (JList ([] ++ JDict (<["trans_by" := JNull]> ∅) :: [])) (world_of [] 0 [])).1
   = (DataValidator._validate_cache_structure
        (JList ([] ++ JDict ∅ :: [])) (world_of [] 0 [])).1).
Proof.
  assert (H : "trans_by" ∉ DataValidator.required_fields).
  { unfold DataValidator.required_fields. rewrite !not_elem_of_cons.
    repeat split; try discriminate. apply not_elem_of_nil. }
  split; [exact H |].
  exact (validate_cache_structure_ignores_optional_keys [] ∅ [] "trans_by" JNull
           (world_of [] 0 []) H).
Defined.


Variable loads : bytes -> option json.

(** [validate_json_file] explains every verdict in the log, whatever the
    filesystem does: a rejection adds exactly one error line (the cause
    found by the check that failed, or the exception caught), an
    acceptance adds the two debug lines and no error. *)
Theorem validate_json_file_verdict_logged p w :
  exists b l w', DataValidator.validate_json_file loads p w = (Val b, w') /\
    log w' = log w ++ l /\
    (b = false -> exists m, l = [(ERROR, m)]) /\
    (b = true -> exists n, l = [(DEBUG, StructureValid n); (DEBUG, FileValid p)]).
Proof.
  unfold DataValidator.validate_json_file.
  rewrite run_try_except, run_bind, run_path_exists.
  destruct (next_fault w).
  { rewrite run_bind, run_LOGGER. eexists false, _, _. split; [done |].
    cbn [log add_logs]. rewrite advance_log. split; [done |]. split; [by eexists | done]. }
  destruct (fs w !! p) as [f|] eqn:Hf;
    [rewrite bool_decide_eq_true_2 by done | rewrite bool_decide_eq_false_2 by by intros [??]];
    cbn [negb].
  2: { rewrite run_bind, run_LOGGER. eexists false, _, _. split; [done |].
       cbn [log add_logs]. rewrite advance_log. split; [done |]. split; [by eexists | done]. }
  rewrite run_bind, run_path_stat. destruct (next_fault (advance w)).
  { rewrite run_bind, run_LOGGER. eexists false, _, _. split; [done |].
    cbn [log add_logs]. rewrite !advance_log. split; [done |]. split; [by eexists | done]. }
  rewrite advance_fs, Hf. case_bool_decide; cbn [negb andb].
  { rewrite run_bind, run_LOGGER. eexists false, _, _. split; [done |].
    cbn [log add_logs]. rewrite !advance_log. split; [done |]. split; [by eexists | done]. }
  rewrite run_bind, run_aio_open_rb. destruct (next_fault _).
  { rewrite run_bind, run_LOGGER. eexists false, _, _. split; [done |].
    cbn [log add_logs]. rewrite !advance_log. split; [done |]. split; [by eexists | done]. }
  rewrite !advance_fs, Hf.
  rewrite run_bind, run_aio_read. destruct (next_fault _).
  { rewrite run_bind, run_LOGGER. eexists false, _, _. split; [done |].
    cbn [log add_logs]. rewrite !advance_log. split; [done |]. split; [by eexists | done]. }
  rewrite !advance_fs, Hf.
  destruct (loads (content f)) as [data|].
  2: { rewrite run_bind, run_LOGGER. eexists false, _, _. split; [done |].
       cbn [log add_logs]. rewrite !advance_log. split; [done |]. split; [by eexists | done]. }
  rewrite run_bind.
  destruct (structure_report data
              (advance (advance (advance (advance w))))) as (line & -> & Hline).
  destruct (structure_ok data) eqn:Hok; cbn [negb].
  - rewrite run_bind, run_LOGGER. eexists true, _, _. split; [done |].
    cbn [log add_logs]. rewrite !advance_log, <- app_assoc. split; [done |].
    split; [done |]. intros _.
    destruct data; try done. rewrite Hline. by eexists.
  - eexists false, _, _. split; [done |].
    cbn [log add_logs]. rewrite !advance_log. split; [done |]. split; [| done]. intros _.
    destruct line as [lv m]. exists m. f_equal. f_equal.
    destruct data; try (by injection Hline); by destruct Hline.
Qed.

(** [validate_json_file] only reads, and its verdict can be asked for
    again: the directory and the writer's attributes are as before the
    call, and as long as no filesystem call fails a second call gives the
    verdict of the first. *)
Theorem validate_json_file_repeatable p w :
  no_faults (tape w) ->
  let first := DataValidator.validate_json_file loads p w in
  fs first.2 = fs w /\ self_temp_path first.2 = self_temp_path w /\
  self_lock first.2 = self_lock w /\
  (DataValidator.validate_json_file loads p first.2).1 = first.1.
Proof.
  intros Hnf. cbn zeta.
  pose proof (validate_json_file_same_fs loads p w) as Hfs.
  pose proof (validate_json_file_same_self loads p w) as [Ht Hl].
  pose proof (validate_json_file_tape_runs loads p w) as Htape.
  unfold same_fs in Hfs. unfold tape_runs in Htape.
  do 3 (split; [assumption |]).
  rewrite validate_json_file_complete by by eapply no_faults_suffix.
  rewrite (validate_json_file_complete loads p w) by done.
  unfold file_ok. by rewrite Hfs.
Qed.

End ValidatorReports.

Lemma validate_json_file_repeatable_witness :
  let w := world_of [("cache.json", mkFile bool_cache 0)] 0 [quiet 5; quiet 5] in
  let first := DataValidator.validate_json_file Json.loads "cache.json" w in
  no_faults (tape w) /\
  (DataValidator.validate_json_file Json.loads "cache.json" first.2).1 = first.1.
Proof.
  intros w first.
  assert (H : no_faults (tape w)) by (vm_compute; repeat constructor).
  split; [exact H |].
  exact (proj2 (proj2 (proj2 (validate_json_file_repeatable Json.loads "cache.json" w H)))).
Defined.

(** ** Configuration *)

Section Configuration.

(** What a configuration built from the caller's overrides answers: the
    caller's value where there is one, the built-in default otherwise, and
    the fallback given to [get] only for a key that neither holds. Safe
    writing is enabled unless the caller's own [enable_safe_write] is
    falsy. *)
Theorem config_overrides_then_defaults config_dict key fallback :
  SafeWriteConfig.get (SafeWriteConfig.__init__ config_dict) key fallback
  = match default ∅ config_dict !! key with
    | Some v => Some v
    | None =>
        match SafeWriteConfig.DEFAULT_CONFIG !! key with
        | Some v => Some v
        | None => fallback
        end
    end /\
  SafeWriteConfig.is_enabled (SafeWriteConfig.__init__ config_dict)
  = match default ∅ config_dict !! "enable_safe_write" with
    | Some v => truthy v
    | None => true
    end.
Proof.
  unfold SafeWriteConfig.get, SafeWriteConfig.is_enabled, SafeWriteConfig.__init__.
  destruct config_dict as [d|]; cbn [default from_option id SafeWriteConfig.config].
  - split.
    + destruct (d !! key) as [v|] eqn:Hd.
      * by rewrite (lookup_union_Some_l _ _ _ _ Hd).
      * by rewrite lookup_union_r.
    + destruct (d !! "enable_safe_write") as [v|] eqn:Hd.
      * by rewrite (lookup_union_Some_l _ _ _ _ Hd).
      * by rewrite lookup_union_r.
  - rewrite !lookup_empty. split; [| done].
    by destruct (SafeWriteConfig.DEFAULT_CONFIG !! key).
Qed.

(** The fallbacks written into [BackupManager.__init__] are the values of
    [DEFAULT_CONFIG]: a manager built from the merged configuration is the
    manager built from the caller's overrides alone. *)
Theorem backup_manager_defaults_agree config_dict :
  BackupManager.__init__
    (Some (SafeWriteConfig.config (SafeWriteConfig.__init__ config_dict)))
  = BackupManager.__init__ config_dict.
Proof.
  unfold BackupManager.__init__, SafeWriteConfig.__init__.
  destruct config_dict as [d|]; cbn [default from_option id SafeWriteConfig.config]; [| done].
  f_equal.
  - destruct (d !! "backup_retention_count") as [v|] eqn:Hd.
    + by rewrite (lookup_union_Some_l _ _ _ _ Hd).
    + by rewrite lookup_union_r.
  - destruct (d !! "enable_backup") as [v|] eqn:Hd.
    + by rewrite (lookup_union_Some_l _ _ _ _ Hd).
    + by rewrite lookup_union_r.
Qed.

End Configuration.

(** ** File names *)

Section MoreNames.

Local Open Scope nat_scope.
Local Arguments Ascii.eqb : simpl never.

Lemma fnmatch_here_star pat a s :
  fnmatch_here (String "*" pat) (String a s)
  = fnmatch_here pat (String a s) || fnmatch_here (String "*" pat) s.
Proof. cbn [fnmatch_here]. rewrite Ascii.eqb_refl. by destruct s. Qed.

Lemma fnmatch_here_star_nil pat :
  fnmatch_here (String "*" pat) "" = fnmatch_here pat "".
Proof. cbn [fnmatch_here]. rewrite Ascii.eqb_refl. by rewrite orb_false_r. Qed.

(** A star takes up any run of characters. *)
Lemma fnmatch_here_skip pat mid s :
  fnmatch_here pat s = true -> fnmatch_here (String "*" pat) (mid +:+ s) = true.
Proof.
  intros H. induction mid as [|a mid IH].
  - change ("" +:+ s) with s. destruct s as [|b s].
    + by rewrite fnmatch_here_star_nil.
    + by rewrite fnmatch_here_star, H.
  - rewrite str_app_cons, fnmatch_here_star, IH. apply orb_true_r.
Qed.

(** Text without wildcards matches itself in front of anything. *)
Lemma fnmatch_here_literal lit pat s :
  fnmatch_here pat s = true -> fnmatch_here (lit +:+ pat) (lit +:+ s) = true.
Proof.
  intros H. induction lit as [|a lit IH]; [done |].
  rewrite !str_app_cons.
  destruct (Ascii.eqb a "*") eqn:Ea.
  - apply Ascii.eqb_eq in Ea as ->.
    rewrite fnmatch_here_star.
    destruct (lit +:+ s) as [|b r] eqn:E.
    + by rewrite fnmatch_here_star_nil, IH, orb_true_r.
    + by rewrite fnmatch_here_star, IH, !orb_true_r.
  - cbn [fnmatch_here]. rewrite Ea, Ascii.eqb_refl, orb_true_r. done.
Qed.

Lemma fnmatch_here_refl s : fnmatch_here s s = true.
Proof.
  rewrite <- (str_app_nil_r s) at 1. rewrite <- (str_app_nil_r s) at 2.
  by apply fnmatch_here_literal.
Qed.

Lemma str_app_assoc (a b c : string) : (a +:+ b) +:+ c = a +:+ (b +:+ c).
Proof. induction a as [|x a IH]; [done |]. by rewrite !str_app_cons, IH. Qed.

Lemma backup_name_in_family stem1 suffix1 x :
  fnmatch_here (stem1 +:+ "_*_backup" +:+ suffix1)
               (stem1 +:+ "_" +:+ x +:+ "_backup" +:+ suffix1) = true.
Proof.
  apply fnmatch_here_literal.
  change ("_*_backup" +:+ suffix1) with ("_" +:+ String "*" ("_backup" +:+ suffix1)).
  apply fnmatch_here_literal, fnmatch_here_skip.
  apply fnmatch_here_refl.
Qed.

(** The snapshot that [create_backup] names is one that pruning and
    restoring look for, whatever the timestamp; the target itself and its
    staged files are not. (For a target name without an opening bracket:
    bracket classes are no part of the matcher of this development.) *)
Theorem backup_name_matches_pattern target ts :
  Str.count "[" target = 0 ->
  fnmatch (BackupManager.backup_name target ts) (BackupManager.backup_pattern target) = true /\
  fnmatch target (BackupManager.backup_pattern target) = false /\
  forall z, fnmatch (AtomicFileWriter.temp_name target (str_of_Z z))
                    (BackupManager.backup_pattern target) = false.
Proof.
  intros _. split; [apply backup_name_in_family |].
  split; [apply target_not_snapshot | intros z; apply temp_not_snapshot].
Qed.

Lemma backup_name_matches_pattern_witness :
  Str.count "[" "test.json" = 0 /\
  fnmatch (BackupManager.backup_name "test.json" "20261103_100000")
          (BackupManager.backup_pattern "test.json") = true.
Proof.
  assert (H : Str.count "[" "test.json" = 0) by reflexivity.
  split; [exact H |].
  exact (proj1 (backup_name_matches_pattern "test.json" "20261103_100000" H)).
Defined.

(** Snapshot families are told apart by pattern only, and the patterns
    overlap: when the stem of a second target is the stem of the first
    followed by an underscore and more, with the same suffix, every
    snapshot of the second target counts as a snapshot of the first, for
    pruning and for restoring. *)
Theorem backup_families_overlap t1 t2 x ts files :
  Str.count "[" t1 = 0 ->
  PurePath.stem t2 = PurePath.stem t1 +:+ "_" +:+ x ->
  PurePath.suffix t2 = PurePath.suffix t1 ->
  is_Some (files !! BackupManager.backup_name t2 ts) ->
  BackupManager.backup_name t2 ts ∈ snapshots files t1.
Proof.
  intros _ Hstem Hsuffix Hfile. apply elem_of_glob_names. split; [| done].
  unfold fnmatch, BackupManager.backup_name, BackupManager.backup_pattern.
  rewrite Hstem, Hsuffix, !str_app_assoc.
  rewrite <- (str_app_assoc "_" ts), <- (str_app_assoc x).
  apply backup_name_in_family.
Qed.

Lemma backup_families_overlap_witness :
  let files : gmap string File :=
    {[ "a_b_20261103_100000_backup.json" := mkFile [] 0%Z ]} in
  "a_b_20261103_100000_backup.json" ∈ snapshots files "a.json".
Proof.
  intros files.
  apply (backup_families_overlap "a.json" "a_b.json" "b" "20261103_100000" files).
  - reflexivity.
  - reflexivity.
  - reflexivity.
  - vm_compute. by eexists.
Defined.

Lemma str_app_inv_head (a x y : string) : a +:+ x = a +:+ y -> x = y.
Proof.
  induction a as [|c a IH]; [done |]. rewrite !str_app_cons. intros [= H]. by apply IH.
Qed.

Lemma str_length_app (a b : string) :
  String.length (a +:+ b) = String.length a + String.length b.
Proof. induction a as [|c a IH]; [done |]. rewrite str_app_cons. simpl. by rewrite IH. Qed.

Lemma str_app_inv_tail (x y b : string) : x +:+ b = y +:+ b -> x = y.
Proof.
  revert y. induction x as [|c x IH]; intros [|d y] H.
  - done.
  - apply (f_equal String.length) in H. rewrite !str_length_app in H. simpl in H. lia.
  - apply (f_equal String.length) in H. rewrite !str_length_app in H. simpl in H. lia.
  - rewrite !str_app_cons in H. injection H as -> H. f_equal. by apply IH.
Qed.

Lemma str_of_Z_inj z1 z2 : str_of_Z z1 = str_of_Z z2 -> z1 = z2.
Proof.
  unfold str_of_Z. intros H. apply DecimalZ.to_int_inj.
  assert (Hnn : forall z, Z.to_int z <> Decimal.Pos Decimal.Nil /\
                          Z.to_int z <> Decimal.Neg Decimal.Nil).
  { intros z. split; intros E; pose proof (f_equal Z.of_int E) as E';
      rewrite DecimalZ.of_to in E'; rewrite E' in E; discriminate E. }
  apply (f_equal NilZero.int_of_string) in H.
  rewrite !NilZero.isi in H by apply Hnn. by injection H.
Qed.

(** The staged names of a target are as distinct as the clock readings
    they are made from: two attempts get the same staged name exactly when
    they read the same microsecond. *)
Theorem temp_name_distinct target z1 z2 :
  AtomicFileWriter.temp_name target (str_of_Z z1)
  = AtomicFileWriter.temp_name target (str_of_Z z2) <-> z1 = z2.
Proof.
  split; [| by intros ->]. unfold AtomicFileWriter.temp_name. intros H.
  apply str_app_inv_head, str_app_inv_head, str_app_inv_head, str_app_inv_tail in H.
  by apply str_of_Z_inj.
Qed.

End MoreNames.

(** ** What a backup, a pruning pass and a restore touch *)

Section BackupFootprint.

#[global] Instance kept_or_gone_po p : PreOrder (kept_or_gone p).
Proof.
  split.
  - intros w. by left.
  - intros w1 w2 w3 [H12|H12] [H23|H23]; unfold kept_or_gone;
      rewrite ?H23, ?H12; auto.
Qed.

Lemma same_fs_kept_or_gone {A} (m : IO A) p :
  stable same_fs m -> stable (kept_or_gone p) m.
Proof. intros H w. left. by rewrite (H w). Qed.

Lemma unlink_kept_or_gone p x : stable (kept_or_gone p) (path_unlink x).
Proof.
  intros w. rewrite run_path_unlink. unfold kept_or_gone.
  destruct (next_fault w); [left; cbn [snd]; by rewrite advance_fs |].
  destruct (fs w !! x) eqn:Hx; [| left; cbn [snd]; by rewrite advance_fs].
  cbn [snd set_fs fs]. destruct (decide (x = p)) as [->|Hne].
  - right. apply lookup_delete_eq.
  - left. by rewrite lookup_delete_ne.
Qed.

Variables (self : BackupManager.t) (target : string).

Lemma cleanup_kept_or_gone q :
  stable (kept_or_gone q) (BackupManager._cleanup_old_backups self target).
Proof.
  unfold BackupManager._cleanup_old_backups, BackupManager.sort_by_mtime_desc.
  repeat first
    [ apply unlink_kept_or_gone
    | apply same_fs_kept_or_gone; solve [prim_stable]
    | stable_step ].
Qed.

(** For a target whose name has no opening bracket, a pruning pass
    never raises, creates no file and changes none: a file is afterwards as
    it was, or it is gone, and what is gone matched the backup pattern of
    the target. The writer's attributes are not touched. This holds
    whatever the filesystem does. *)
Theorem cleanup_only_deletes_snapshots w :
  Str.count "[" target = 0%nat ->
  exists w', BackupManager._cleanup_old_backups self target w = (Val tt, w') /\
    self_temp_path w' = self_temp_path w /\ self_lock w' = self_lock w /\
    forall q, fs w' !! q = fs w !! q \/
              (fs w' !! q = None /\
               fnmatch q (BackupManager.backup_pattern target) = true).
Proof.
  intros _.
  destruct (BackupManager._cleanup_old_backups self target w) as [r w'] eqn:E.
  assert (r = Val tt) as ->.
  { assert (exists a, (BackupManager._cleanup_old_backups self target w).1 = Val a) as [[] Ha].
    { unfold BackupManager._cleanup_old_backups.
      apply try_except_returns; [| by eexists].
      unfold BackupManager.sort_by_mtime_desc. unblocked_auto. }
    by rewrite E in Ha. }
  exists w'. split; [done |].
  pose proof (cleanup_same_self self target w) as [Ht Hl]. rewrite E in Ht, Hl.
  do 2 (split; [assumption |]). intros q.
  destruct (fnmatch q (BackupManager.backup_pattern target)) eqn:Hq.
  - pose proof (cleanup_kept_or_gone q w) as H. rewrite E in H.
    destruct H as [H|H]; [by left | by right].
  - left. pose proof (cleanup_keeps self target q Hq w) as H. by rewrite E in H.
Qed.

(** For a target whose name has no opening bracket, [create_backup]
    never raises, whatever the filesystem does. The files it may create or
    change are snapshots: the target, and every file that neither matches
    the backup pattern nor carries a snapshot name, is as before, and no
    file appears under another name than a snapshot name. The writer's
    attributes are not touched; with backups disabled nothing at all
    happens. *)
Theorem create_backup_footprint w :
  Str.count "[" target = 0%nat ->
  exists o w', BackupManager.create_backup self target w = (Val o, w') /\
    self_temp_path w' = self_temp_path w /\ self_lock w' = self_lock w /\
    fs w' !! target = fs w !! target /\
    (forall q, fnmatch q (BackupManager.backup_pattern target) = false ->
       (forall d, BackupManager.backup_name target (Datetime.strftime_backup d) <> q) ->
       fs w' !! q = fs w !! q) /\
    (forall q, (forall d, BackupManager.backup_name target (Datetime.strftime_backup d) <> q) ->
       fs w !! q = None -> fs w' !! q = None) /\
    (BackupManager.enable_backup self = false -> o = None /\ w' = w).
Proof.
  intros _.
  destruct (create_backup_returns self target w) as [o Ho].
  destruct (BackupManager.create_backup self target w) as [r w'] eqn:E.
  cbn [fst] in Ho. subst r. exists o, w'. split; [done |].
  pose proof (create_backup_same_self self target w) as [Ht Hl]. rewrite E in Ht, Hl.
  do 2 (split; [assumption |]).
  assert (Hkeep : forall q, fnmatch q (BackupManager.backup_pattern target) = false ->
       (forall d, BackupManager.backup_name target (Datetime.strftime_backup d) <> q) ->
       fs w' !! q = fs w !! q).
  { intros q Hq Hne. pose proof (create_backup_keeps self target q Hq Hne w) as H.
    by rewrite E in H. }
  split; [| split; [exact Hkeep | split]].
  - apply Hkeep; [apply target_not_snapshot | intros d; apply backup_ne_target].
  - intros q Hne Hnone.
    pose proof (create_backup_no_new self target q Hne w) as H. rewrite E in H.
    by apply H.
  - intros Hen. unfold BackupManager.create_backup in E. rewrite Hen in E.
    by injection E as <- <-.
Qed.

End BackupFootprint.

Lemma cleanup_only_deletes_snapshots_witness :
  let bm := BackupManager.mk 1 true in
  let w := snapshot_world [quiet 1; quiet 1; quiet 1; quiet 1; quiet 1; quiet 1; failing 1 0] in
  Str.count "[" "test.json" = 0%nat /\
  exists w', BackupManager._cleanup_old_backups bm "test.json" w = (Val tt, w') /\
    self_temp_path w' = self_temp_path w /\ self_lock w' = self_lock w /\
    forall q, fs w' !! q = fs w !! q \/
              (fs w' !! q = None /\
               fnmatch q (BackupManager.backup_pattern "test.json") = true).
Proof.
  intros bm w. assert (H : Str.count "[" "test.json" = 0%nat) by reflexivity.
  split; [exact H |]. exact (cleanup_only_deletes_snapshots bm "test.json" w H).
Defined.

Lemma create_backup_footprint_witness :
  let bm := BackupManager.mk 1 true in
  let w := snapshot_world [quiet 1; quiet 1; quiet 1; failing 1 2] in
  Str.count "[" "test.json" = 0%nat /\
  exists o w', BackupManager.create_backup bm "test.json" w = (Val o, w') /\
    fs w' !! "test.json" = fs w !! "test.json".
Proof.
  intros bm w. assert (H : Str.count "[" "test.json" = 0%nat) by reflexivity.
  split; [exact H |].
  destruct (create_backup_footprint bm "test.json" w H) as (o & w' & E & _ & _ & Ht & _).
  exists o, w'. split; [exact E | exact Ht].
Defined.

Section RestoreFootprint.

Variable loads : bytes -> option json.
Variables (self : BackupManager.t) (target : string).

Lemma validate_json_file_keeps p q : stable (keeps q) (DataValidator.validate_json_file loads p).
Proof. intros w. unfold keeps. by rewrite (validate_json_file_same_fs loads p w). Qed.

Lemma restore_keeps q :
  q <> target -> stable (keeps q) (BackupManager.restore_from_backup loads self target).
Proof.
  intros Hq. pose proof (fun p => validate_json_file_keeps p q).
  unfold BackupManager.restore_from_backup, BackupManager.sort_by_mtime_desc. stable_auto.
Qed.

Lemma restore_same_self :
  stable same_self (BackupManager.restore_from_backup loads self target).
Proof.
  pose proof (validate_json_file_same_self loads).
  unfold BackupManager.restore_from_backup, BackupManager.sort_by_mtime_desc. stable_auto.
Qed.

(** A restore writes the target and nothing else, whatever the
    filesystem does and whatever it returns: every other file, the
    snapshots among them, is as before (the snapshot restored from is not
    consumed), and the writer's attributes are not touched. *)
Theorem restore_touches_target_only w :
  exists b w', BackupManager.restore_from_backup loads self target w = (Val b, w') /\
    (forall q, q <> target -> fs w' !! q = fs w !! q) /\
    (forall s, s ∈ snapshots (fs w) target -> fs w' !! s = fs w !! s) /\
    snapshots (fs w') target ≡ₚ snapshots (fs w) target /\
    self_temp_path w' = self_temp_path w /\ self_lock w' = self_lock w.
Proof.
  destruct (restore_from_backup_run loads self target w) as (b & w' & E & _).
  exists b, w'. split; [done |].
  assert (Hkeep : forall q, q <> target -> fs w' !! q = fs w !! q).
  { intros q Hq. pose proof (restore_keeps q Hq w) as H. by rewrite E in H. }
  assert (Hsnap : forall s, fnmatch s (BackupManager.backup_pattern target) = true ->
                            fs w' !! s = fs w !! s).
  { intros s Hs. apply Hkeep. intros ->. by rewrite target_not_snapshot in Hs. }
  split; [done |]. split; [| split].
  - intros s Hs. apply Hsnap. by apply elem_of_glob_names in Hs as [? _].
  - apply NoDup_Permutation; [apply NoDup_glob_names | apply NoDup_glob_names |].
    intros s. unfold snapshots. rewrite !elem_of_glob_names.
    split; intros [Hm Hsome]; (split; [done |]); by rewrite ?Hsnap in * by done.
  - pose proof (restore_same_self w) as H. by rewrite E in H.
Qed.

End RestoreFootprint.

(** ** Retention counts out of the ordinary *)

Section OddRetention.

Variables (self : BackupManager.t) (target : string).

(** What is left of the snapshots when the excess is what comes after
    the first [n] of them, most recent first. *)
Lemma survivors_of_pruning n (files files' : gmap string File) :
  excess self files target = drop n (by_mtime_desc files (snapshots files target)) ->
  (forall q, files' !! q
             = if decide (q ∈ excess self files target) then None else files !! q) ->
  snapshots files' target ≡ₚ take n (by_mtime_desc files (snapshots files target)).
Proof.
  intros Hex Hfs.
  pose proof (by_mtime_desc_perm files (snapshots files target)) as Hperm.
  assert (Hnd : NoDup (by_mtime_desc files (snapshots files target)))
    by (rewrite Hperm; apply NoDup_glob_names).
  rewrite <- (take_drop n (by_mtime_desc files (snapshots files target))) in Hnd, Hperm.
  apply NoDup_app in Hnd as (Hnd1 & Hdisj & _).
  apply NoDup_Permutation; [apply NoDup_glob_names | done |].
  intros x. unfold snapshots at 1. rewrite elem_of_glob_names, Hfs, Hex. split.
  - intros [Hm Hsome]. destruct (decide _) as [|Hnot]; [by destruct Hsome |].
    assert (x ∈ snapshots files target) as Hx by (by apply elem_of_glob_names).
    rewrite <- Hperm in Hx. by apply elem_of_app in Hx as [|].
  - intros Hx. rewrite decide_False by (by apply Hdisj).
    assert (x ∈ snapshots files target) as Hx'.
    { rewrite <- Hperm. apply elem_of_app. by left. }
    by apply elem_of_glob_names in Hx'.
Qed.

(** A negative retention count is read as Python reads a negative slice
    bound: for a target whose name has no opening bracket, a pruning pass
    whose calls do not fail deletes [-retention_count] snapshots (all of
    them when there are fewer) and keeps all the others, however many they
    are; the ones it keeps are unchanged, and each one it deletes is at
    most as recent as each one it keeps. *)
Theorem cleanup_negative_retention w :
  Str.count "[" target = 0%nat ->
  BackupManager.retention_count self < 0 ->
  no_faults (tape w) ->
  let n := length (snapshots (fs w) target) in
  let k := Z.to_nat (- BackupManager.retention_count self) in
  exists w', BackupManager._cleanup_old_backups self target w = (Val tt, w') /\
    length (snapshots (fs w') target) = (n - k)%nat /\
    (forall s, s ∈ snapshots (fs w') target ->
       s ∈ snapshots (fs w) target /\ fs w' !! s = fs w !! s) /\
    (forall s d, s ∈ snapshots (fs w') target -> d ∈ snapshots (fs w) target ->
       d ∉ snapshots (fs w') target -> mtime_of (fs w) d <= mtime_of (fs w) s).
Proof.
  intros _ Hrc Hnf n k.
  destruct (cleanup_run_ok self target w Hnf) as (w' & E & Hfs & _).
  exists w'. split; [done |].
  pose proof (by_mtime_desc_perm (fs w) (snapshots (fs w) target)) as Hperm.
  assert (Hlen : length (by_mtime_desc (fs w) (snapshots (fs w) target)) = n)
    by (by apply Permutation_length).
  assert (Hsurv : snapshots (fs w') target
                  ≡ₚ take (n - k) (by_mtime_desc (fs w) (snapshots (fs w) target))).
  { apply survivors_of_pruning; [| done]. unfold excess, slice_from.
    assert ((0 <=? BackupManager.retention_count self) = false) as -> by (apply Z.leb_gt; lia).
    by rewrite Hlen. }
  split; [rewrite Hsurv, length_take, Hlen; lia |]. split.
  - intros s Hs. split.
    + rewrite Hsurv in Hs. apply subseteq_take in Hs. by rewrite Hperm in Hs.
    + apply elem_of_glob_names in Hs as [_ Hsome]. rewrite Hfs in Hsome |- *.
      destruct (decide _); [by destruct Hsome | done].
  - intros s d Hs Hd Hnot. rewrite Hsurv in Hs, Hnot.
    apply (by_mtime_desc_split _ (snapshots (fs w) target) (n - k)); [done |].
    rewrite <- Hperm in Hd.
    rewrite <- (take_drop (n - k) (by_mtime_desc (fs w) (snapshots (fs w) target))) in Hd.
    by apply elem_of_app in Hd as [|].
Qed.

End OddRetention.

Lemma cleanup_negative_retention_witness :
  let bm := BackupManager.mk (-1) true in
  let w := snapshot_world [] in
  Str.count "[" "test.json" = 0%nat /\
  BackupManager.retention_count bm < 0 /\
  no_faults (tape w) /\
  exists w', BackupManager._cleanup_old_backups bm "test.json" w = (Val tt, w') /\
    length (snapshots (fs w') "test.json") = 3%nat.
Proof.
  intros bm w.
  assert (H0 : Str.count "[" "test.json" = 0%nat) by reflexivity.
  assert (H1 : BackupManager.retention_count bm < 0) by (simpl; lia).
  assert (H2 : no_faults (tape w)) by (vm_compute; constructor).
  do 3 (split; [assumption |]).
  destruct (cleanup_negative_retention bm "test.json" w H0 H1 H2) as (w' & E & Hlen & _).
  exists w'. split; [exact E |]. rewrite Hlen. vm_compute. reflexivity.
Defined.

(** ** A backup and a restore, run one after the other *)

Section BackupRun.

(** Time does not run backwards on a tape of calls that take time. *)
Lemma clock_advance w :
  Forall (fun ev => 0 <= elapsed ev) (tape w) ->
  clock w <= clock (advance w) /\ Forall (fun ev => 0 <= elapsed ev) (tape (advance w)).
Proof.
  unfold advance. destruct (tape w) as [|ev t] eqn:E; [by rewrite E |].
  intros [H1 H2]%Forall_cons. simpl. split; [lia | done].
Qed.

Lemma clock_advance_n n w :
  Forall (fun ev => 0 <= elapsed ev) (tape w) ->
  clock w <= clock (advance_n n w) /\
  Forall (fun ev => 0 <= elapsed ev) (tape (advance_n n w)).
Proof.
  intros H. induction n as [|n [IH1 IH2]]; [by split |]. simpl.
  destruct (clock_advance (advance_n n w) IH2). split; [lia | done].
Qed.

Variables (self : BackupManager.t) (target : string).

(** A backup whose calls do not fail, with the name and the time of the
    snapshot it writes. *)
Lemma create_backup_run_named w f :
  BackupManager.enable_backup self = true ->
  fs w !! target = Some f ->
  no_faults (tape w) ->
  let backup := BackupManager.backup_name target
                  (Datetime.strftime_backup (Datetime.of_clock (clock (advance w)))) in
  let copied := <[backup := mkFile (content f) (clock (advance_n 5 w))]> (fs w) in
  exists w', BackupManager.create_backup self target w = (Val (Some backup), w') /\
    (forall q, fs w' !! q
               = if decide (q ∈ excess self copied target) then None else copied !! q) /\
    no_faults (tape w').
Proof.
  intros Hen Hf Hnf backup copied.
  unfold BackupManager.create_backup. rewrite Hen. cbn [negb].
  rewrite run_try_except, run_bind, run_path_exists, no_faults_next by done.
  rewrite bool_decide_eq_true_2 by done. cbn [negb].
  rewrite run_bind. unfold datetime_now, gets at 1. fold backup.
  pose proof (no_faults_advance _ Hnf) as Hnf1.
  rewrite run_bind, run_aio_open_rb, no_faults_next, advance_fs, Hf by done.
  pose proof (no_faults_advance _ Hnf1) as Hnf2.
  rewrite run_bind, run_aio_read, no_faults_next, !advance_fs, Hf by done.
  pose proof (no_faults_advance _ Hnf2) as Hnf3.
  rewrite run_bind, run_aio_open_wb, no_faults_next by done.
  set (w4 := set_fs _ _).
  assert (Hnf4 : no_faults (tape w4)) by (by apply no_faults_advance in Hnf3).
  rewrite run_bind, run_aio_write, no_faults_next by done. cbv beta iota zeta.
  set (w5 := set_fs _ (advance w4)).
  assert (Hnf5 : no_faults (tape w5)) by (by apply no_faults_advance in Hnf4).
  rewrite run_bind, run_LOGGER, run_bind.
  set (w6 := add_logs _ w5).
  assert (Hfs6 : fs w6 = copied).
  { subst w6 w5 w4 copied. wsimpl. rewrite !advance_fs, lookup_insert_eq. simpl.
    rewrite insert_insert_eq. do 2 f_equal.
    change (advance_n 5 w) with (advance (advance (advance (advance (advance w))))).
    generalize (advance (advance (advance (advance w)))). intros w0.
    unfold advance. simpl. destruct (tape w0); reflexivity. }
  destruct (cleanup_run_ok self target w6) as (w' & Ecl & Hfs & _); [done |].
  pose proof (cleanup_tape_runs self target w6) as Htape. rewrite Ecl in Htape.
  rewrite Ecl. exists w'. split; [done |]. split.
  - intros q. by rewrite Hfs, Hfs6.
  - eapply no_faults_suffix; [exact Htape | done].
Qed.

(** The snapshot just written is the most recent one when the snapshots
    found are from before the call and time does not run backwards. *)
Lemma fresh_snapshot_is_newest w f :
  fs w !! target = Some f ->
  Forall (fun ev => 0 <= elapsed ev) (tape w) ->
  (forall s, s ∈ snapshots (fs w) target -> mtime_of (fs w) s < clock w) ->
  let backup := BackupManager.backup_name target
                  (Datetime.strftime_backup (Datetime.of_clock (clock (advance w)))) in
  let copied := <[backup := mkFile (content f) (clock (advance_n 5 w))]> (fs w) in
  backup ∈ snapshots copied target /\
  (forall s, s ∈ snapshots copied target -> s <> backup ->
             mtime_of copied s < mtime_of copied backup) /\
  exists others, by_mtime_desc copied (snapshots copied target) = backup :: others /\
                 backup ∉ others.
Proof.
  intros Hf Htime Hold backup copied.
  assert (Hin : backup ∈ snapshots copied target).
  { apply elem_of_glob_names. split; [apply backup_name_in_family |].
    unfold copied. by rewrite lookup_insert_eq. }
  assert (Hlt : forall s, s ∈ snapshots copied target -> s <> backup ->
                  mtime_of copied s < mtime_of copied backup).
  { intros s Hs Hne. unfold mtime_of, copied.
    rewrite lookup_insert_eq, lookup_insert_ne by done. cbn [from_option mtime].
    apply elem_of_glob_names in Hs as [Hm Hsome].
    unfold copied in Hsome. rewrite lookup_insert_ne in Hsome by done.
    assert (s ∈ snapshots (fs w) target) as Hs by (by apply elem_of_glob_names).
    specialize (Hold s Hs). unfold mtime_of in Hold.
    destruct (clock_advance_n 5 w Htime) as [Hc _]. lia. }
  split; [done |]. split; [done |].
  pose proof (by_mtime_desc_perm copied (snapshots copied target)) as Hperm.
  destruct (by_mtime_desc copied (snapshots copied target)) as [|latest others] eqn:Es.
  { rewrite <- Hperm in Hin. by apply elem_of_nil in Hin. }
  destruct (by_mtime_desc_head _ _ _ _ Es) as [Hlatest Hmax].
  assert (latest = backup) as ->.
  { destruct (decide (latest = backup)) as [|Hne]; [done |].
    specialize (Hlt latest Hlatest Hne). specialize (Hmax backup Hin). lia. }
  exists others. split; [done |].
  assert (Hnd : NoDup (backup :: others)) by (rewrite Hperm; apply NoDup_glob_names).
  by apply NoDup_cons in Hnd as [? _].
Qed.

(** With a retention count of zero a backup keeps nothing: the copy is
    made, pruned in the same call, and [create_backup] still returns its
    path, which names no file any more. (For a target name without an
    opening bracket, see above.) *)
Theorem create_backup_keeps_none w f :
  Str.count "[" target = 0%nat ->
  BackupManager.enable_backup self = true ->
  BackupManager.retention_count self = 0 ->
  fs w !! target = Some f ->
  no_faults (tape w) ->
  exists backup w',
    BackupManager.create_backup self target w = (Val (Some backup), w') /\
    fs w' !! backup = None /\
    snapshots (fs w') target = [] /\
    fs w' !! target = Some f.
Proof.
  intros _ Hen Hrc Hf Hnf.
  destruct (create_backup_run_named w f Hen Hf Hnf) as (w' & E & Hfs & _).
  cbn zeta in Hfs. set (backup := BackupManager.backup_name _ _) in *.
  set (copied := <[backup := _]> (fs w)) in *.
  exists backup, w'. split; [done |].
  assert (Hex : excess self copied target
                = drop 0 (by_mtime_desc copied (snapshots copied target))).
  { unfold excess, slice_from. by rewrite Hrc. }
  assert (Hin : backup ∈ snapshots copied target).
  { apply elem_of_glob_names. split; [apply backup_name_in_family |].
    unfold copied. by rewrite lookup_insert_eq. }
  split; [| split].
  - rewrite Hfs, decide_True; [done |].
    rewrite Hex, drop_0. by rewrite by_mtime_desc_perm.
  - apply Permutation_nil. by rewrite (survivors_of_pruning self target 0 copied (fs w')).
  - rewrite Hfs, decide_False.
    + unfold copied. rewrite lookup_insert_ne; [done |]. apply backup_ne_target.
    + intros Hx%elem_of_excess. apply elem_of_glob_names in Hx as [Hm _].
      by rewrite target_not_snapshot in Hm.
Qed.

End BackupRun.

Lemma create_backup_keeps_none_witness :
  let self := BackupManager.mk 0 true in
  let w := snapshot_world [] in
  exists backup w',
    BackupManager.create_backup self "test.json" w = (Val (Some backup), w') /\
    fs w' !! backup = None /\
    snapshots (fs w') "test.json" = [] /\
    fs w' !! "test.json" = Some (mkFile (B "[]") 500).
Proof.
  intros self w.
  apply (create_backup_keeps_none self "test.json" w (mkFile (B "[]") 500)).
  - reflexivity.
  - reflexivity.
  - reflexivity.
  - vm_compute. reflexivity.
  - vm_compute. constructor.
Defined.

Section RoundTrip.

Variable loads : bytes -> option json.
Variables (self : BackupManager.t) (target : string).

(** A backup followed by a restore gives the target back. When backups
    are enabled and at least one snapshot is kept, the target is a valid
    cache file, the snapshots found are from before the call, time does
    not run backwards and no filesystem call fails, [create_backup] returns
    a snapshot, and whatever happens to the target afterwards (overwritten,
    truncated, deleted), a restore returns [True] and the target holds the
    bytes it held when the backup was made. (For a target name without an
    opening bracket, see above.) *)
Theorem backup_then_restore w f :
  Str.count "[" target = 0%nat ->
  BackupManager.enable_backup self = true ->
  1 <= BackupManager.retention_count self ->
  fs w !! target = Some f ->
  file_ok loads (fs w) target = true ->
  no_faults (tape w) ->
  Forall (fun ev => 0 <= elapsed ev) (tape w) ->
  (forall s, s ∈ snapshots (fs w) target -> mtime_of (fs w) s < clock w) ->
  exists backup w1,
    BackupManager.create_backup self target w = (Val (Some backup), w1) /\
    forall w2,
      (forall q, q <> target -> fs w2 !! q = fs w1 !! q) ->
      no_faults (tape w2) ->
      exists w3,
        BackupManager.restore_from_backup loads self target w2 = (Val true, w3) /\
        content_of w3 target = Some (content f).
Proof.
  intros _ Hen Hrc Hf Hok Hnf Htime Hold.
  destruct (create_backup_run_named self target w f Hen Hf Hnf) as (w1 & E & Hfs & _).
  destruct (fresh_snapshot_is_newest target w f Hf Htime Hold)
    as (Hin & Hlt & others & Hsorted & Hnot).
  cbn zeta in Hfs, Hin, Hlt, Hsorted.
  set (backup := BackupManager.backup_name _ _) in *.
  set (copied := <[backup := _]> (fs w)) in *.
  exists backup, w1. split; [done |]. intros w2 Hsame Hnf2.
  assert (Hne : backup <> target) by apply backup_ne_target.
  assert (Hkept : backup ∉ excess self copied target).
  { unfold excess, slice_from.
    assert ((0 <=? BackupManager.retention_count self) = true) as -> by (apply Z.leb_le; lia).
    rewrite Hsorted.
    destruct (Z.to_nat (BackupManager.retention_count self)) as [|k] eqn:Ek; [lia |].
    cbn [drop]. intros Hx. apply Hnot. by eapply subseteq_drop. }
  assert (Hb2 : fs w2 !! backup = Some (mkFile (content f) (clock (advance_n 5 w)))).
  { rewrite Hsame, Hfs, decide_False by done. unfold copied. by rewrite lookup_insert_eq. }
  assert (Hsnap2 : forall s, s ∈ snapshots (fs w2) target ->
                     s ∈ snapshots copied target /\ fs w2 !! s = copied !! s).
  { intros s [Hm Hsome]%elem_of_glob_names.
    assert (s <> target) by (intros ->; by rewrite target_not_snapshot in Hm).
    rewrite Hsame, Hfs in Hsome |- * by done.
    destruct (decide _); [by destruct Hsome |].
    split; [by apply elem_of_glob_names | done]. }
  assert (Hin2 : backup ∈ snapshots (fs w2) target).
  { apply elem_of_glob_names. split; [| by rewrite Hb2].
    by apply elem_of_glob_names in Hin as [? _]. }
  assert (Hnewest : forall s, newest (fs w2) target s -> s = backup).
  { intros s [Hs Hmax]. destruct (decide (s = backup)) as [|Hsb]; [done |].
    destruct (Hsnap2 s Hs) as [Hsc Heq]. destruct (Hsnap2 backup Hin2) as [_ Heqb].
    specialize (Hmax backup Hin2). specialize (Hlt s Hsc Hsb).
    unfold mtime_of in *. rewrite Heq, Heqb in Hmax. lia. }
  assert (Hvalid : file_ok loads (fs w2) backup = true).
  { unfold file_ok in *. rewrite Hb2. by rewrite Hf in Hok. }
  destruct (restore_from_backup_run loads self target w2)
    as (b & w3 & E3 & _ & Hsound & Hcomplete).
  assert (b = true) as ->.
  { apply Hcomplete; [done | |].
    - intros Hnil. rewrite Hnil in Hin2. by apply elem_of_nil in Hin2.
    - intros s Hs. by rewrite (Hnewest s Hs). }
  exists w3. split; [done |].
  destruct (Hsound eq_refl) as (s & Hs & _ & Hc).
  rewrite Hc, (Hnewest s Hs). unfold content_of. by rewrite Hb2.
Qed.

End RoundTrip.

Lemma backup_then_restore_witness :
  let self := BackupManager.mk 2 true in
  let w := snapshot_world [quiet 3; quiet 3] in
  exists backup w1,
    BackupManager.create_backup self "test.json" w = (Val (Some backup), w1) /\
    forall w2,
      (forall q, q <> "test.json" -> fs w2 !! q = fs w1 !! q) ->
      no_faults (tape w2) ->
      exists w3,
        BackupManager.restore_from_backup Json.loads self "test.json" w2 = (Val true, w3) /\
        content_of w3 "test.json" = Some (B "[]").
Proof.
  intros self w.
  apply (backup_then_restore Json.loads self "test.json" w (mkFile (B "[]") 500)).
  - reflexivity.
  - reflexivity.
  - simpl. lia.
  - vm_compute. reflexivity.
  - vm_compute. reflexivity.
  - vm_compute. repeat constructor.
  - vm_compute. repeat constructor; discriminate.
  - intros s Hs. vm_compute in Hs.
    repeat (apply elem_of_cons in Hs as [->|Hs]); try (by apply elem_of_nil in Hs);
      vm_compute; reflexivity.
Defined.

(** ** Backups: retention *)

Section Retention.

Import BackupManager.

(** C4, as stated, fails. [create_backup] returns without pruning when
    backups are disabled and when the target does not exist: four
    snapshots are in the directory afterwards where two may be kept. *)
Lemma create_backup_may_leave_excess_snapshots :
  let w := snapshot_world [] in
  let disabled := create_backup (mk 2 false) "test.json" w in
  let no_target := create_backup (mk 2 true) "test.json"
                     (set_fs (delete "test.json" (fs w)) w) in
  disabled.1 = Val None /\
  length (snapshots (fs disabled.2) "test.json") = 4%nat /\
  no_target.1 = Val None /\
  length (snapshots (fs no_target.2) "test.json") = 4%nat.
Proof. vm_compute. done. Qed.

(** C4, amended. For a target whose name has no opening bracket and a
    retention count that is not negative: with backups disabled
    [create_backup] returns [None] and does nothing; with the target
    missing it returns [None] and the directory is as before, nothing is
    pruned. With backups enabled, the target present and no failing
    filesystem call it returns the path of the new snapshot, a name that
    matches the backup pattern, written with the bytes of the target;
    afterwards every file is as it was once the copy was made, or is a
    snapshot that has been deleted, and the snapshots of the target number
    at most [retention_count]: as many as there were after the copy when
    those are fewer, unchanged, and every deleted snapshot is at most as
    recent by modification time as every surviving one. *)
Theorem create_backup_retention self target w :
  Str.count "[" target = 0%nat ->
  0 <= retention_count self ->
  (enable_backup self = false -> create_backup self target w = (Val None, w)) /\
  (enable_backup self = true -> fs w !! target = None ->
     exists w', create_backup self target w = (Val None, w') /\ fs w' = fs w) /\
  (forall f, enable_backup self = true -> fs w !! target = Some f -> no_faults (tape w) ->
     let backup := backup_name target
                     (Datetime.strftime_backup (Datetime.of_clock (clock (advance w)))) in
     let copied := <[backup := mkFile (content f) (clock (advance_n 5 w))]> (fs w) in
     exists w', create_backup self target w = (Val (Some backup), w') /\
       fnmatch backup (backup_pattern target) = true /\
       backup ∈ snapshots copied target /\
       (forall q, fs w' !! q = copied !! q \/
                  (fs w' !! q = None /\ q ∈ snapshots copied target)) /\
       Z.of_nat (length (snapshots (fs w') target)) <= retention_count self /\
       length (snapshots (fs w') target)
       = Nat.min (Z.to_nat (retention_count self)) (length (snapshots copied target)) /\
       (forall s, s ∈ snapshots (fs w') target ->
          s ∈ snapshots copied target /\ fs w' !! s = copied !! s) /\
       (forall s d, s ∈ snapshots (fs w') target -> d ∈ snapshots copied target ->
          d ∉ snapshots (fs w') target -> mtime_of copied d <= mtime_of copied s)).
Proof.
  intros _ Hrc. split; [| split].
  - intros Hen. unfold create_backup. by rewrite Hen.
  - intros Hen Hnone. unfold create_backup. rewrite Hen. cbn [negb].
    rewrite run_try_except, run_bind, run_path_exists.
    destruct (next_fault w).
    + rewrite run_bind, run_LOGGER. eexists. split; [done |]. wsimpl. apply advance_fs.
    + rewrite Hnone, bool_decide_eq_false_2 by (by intros [??]). cbn [negb].
      rewrite run_bind, run_LOGGER. eexists. split; [done |]. wsimpl. apply advance_fs.
  - intros f Hen Hf Hnf backup copied.
    destruct (create_backup_run_named self target w f Hen Hf Hnf) as (w' & E & Hfs & _).
    fold backup copied in E, Hfs.
    exists w'. split; [done |].
    assert (Hmatch : fnmatch backup (backup_pattern target) = true)
      by apply backup_name_in_family.
    split; [done |].
    assert (Hin : backup ∈ snapshots copied target).
    { apply elem_of_glob_names. split; [done |]. unfold copied. by rewrite lookup_insert_eq. }
    split; [done |]. split.
    { intros q. rewrite Hfs. destruct (decide _) as [Hq|]; [| by left].
      right. split; [done |]. by apply elem_of_excess in Hq. }
    pose proof (snapshots_after_pruning self target copied (fs w') Hrc Hfs) as Hperm.
    pose proof (by_mtime_desc_perm copied (snapshots copied target)) as Hsorted.
    assert (Hlen : length (snapshots (fs w') target)
                   = Nat.min (Z.to_nat (retention_count self))
                             (length (snapshots copied target))).
    { by rewrite Hperm, length_take, Hsorted. }
    split; [lia |]. split; [done |]. split.
    + intros s Hs. split.
      * rewrite Hperm in Hs. apply subseteq_take in Hs. by rewrite Hsorted in Hs.
      * apply elem_of_glob_names in Hs as [_ Hsome]. rewrite Hfs in Hsome |- *.
        destruct (decide _); [by destruct Hsome | done].
    + intros s d Hs Hd Hnot. rewrite Hperm in Hs, Hnot.
      apply (by_mtime_desc_split _ (snapshots copied target)
               (Z.to_nat (retention_count self))); [done |].
      rewrite <- Hsorted in Hd.
      rewrite <- (take_drop (Z.to_nat (retention_count self))
                    (by_mtime_desc copied (snapshots copied target))) in Hd.
      by apply elem_of_app in Hd as [|].
Qed.

Lemma create_backup_retention_witness :
  let self := mk 2 true in
  let w := snapshot_world [quiet 7; quiet 7] in
  Str.count "[" "test.json" = 0%nat /\
  0 <= retention_count self /\
  enable_backup self = true /\
  fs w !! "test.json" = Some (mkFile (B "[]") 500) /\
  no_faults (tape w) /\
  exists backup w',
    create_backup self "test.json" w = (Val (Some backup), w') /\
    fnmatch backup (backup_pattern "test.json") = true /\
    content_of w' backup = Some (B "[]") /\
    length (snapshots (fs w') "test.json") = 2%nat.
Proof.
  intros self w.
  assert (H0 : Str.count "[" "test.json" = 0%nat) by reflexivity.
  assert (H1 : 0 <= retention_count self) by (simpl; lia).
  assert (H2 : enable_backup self = true) by reflexivity.
  assert (H3 : fs w !! "test.json" = Some (mkFile (B "[]") 500)) by (vm_compute; reflexivity).
  assert (H4 : no_faults (tape w)) by (vm_compute; repeat constructor).
  do 5 (split; [assumption |]).
  destruct (proj2 (proj2 (create_backup_retention self "test.json" w H0 H1)) _ H2 H3 H4)
    as (w' & E & Hm & _ & _ & _ & Hlen & _).
  eexists _, w'. split; [exact E |]. split; [exact Hm |]. split.
  - apply (f_equal snd) in E. cbn [snd] in E. rewrite <- E. vm_compute. reflexivity.
  - rewrite Hlen. vm_compute. reflexivity.
Defined.

End Retention.

(** ** A restore that fails half-way *)

Section PartialRestore.

Lemma next_fault_add_logs l w : next_fault (add_logs l w) = next_fault w.
Proof. reflexivity. Qed.

Lemma next_fault_set_fs f w : next_fault (set_fs f w) = next_fault w.
Proof. reflexivity. Qed.

Lemma next_fault_advance_n_None k m w :
  no_faults (take m (tape w)) -> (k < m)%nat -> next_fault (advance_n k w) = None.
Proof.
  intros Hnf Hk. unfold next_fault. rewrite advance_n_tape.
  destruct (drop k (tape w)) as [|ev t] eqn:E; [done |].
  assert (Hev : tape w !! k = Some ev).
  { pose proof (lookup_drop (tape w) k 0) as H0. rewrite E, Nat.add_0_r in H0.
    by rewrite <- H0. }
  unfold no_faults in Hnf. rewrite Forall_lookup in Hnf. apply (Hnf k).
  by rewrite lookup_take_lt.
Qed.

Lemma next_fault_advance_n_Some k ev w :
  tape w !! k = Some ev -> next_fault (advance_n k w) = fault ev.
Proof.
  intros Hev. unfold next_fault. rewrite advance_n_tape.
  assert (H0 : drop k (tape w) !! 0%nat = Some ev)
    by (by rewrite lookup_drop, Nat.add_0_r).
  destruct (drop k (tape w)) as [|ev' t]; [done |]. by injection H0 as ->.
Qed.

Lemma match_nonempty {A B} (xs : list A) (a b : B) :
  xs <> [] -> match xs with [] => a | _ :: _ => b end = b.
Proof. by destruct xs. Qed.

Lemma no_faults_take_le t m k :
  no_faults (take m t) -> (k <= m)%nat -> no_faults (take k t).
Proof.
  intros H Hk. replace k with (k `min` m)%nat by lia.
  rewrite <- take_take. by apply no_faults_take.
Qed.

Variable loads : bytes -> option json.

(** A file that passes is accepted after four calls. *)
Lemma validate_json_file_accepts p w :
  no_faults (take 4 (tape w)) -> file_ok loads (fs w) p = true ->
  exists l, DataValidator.validate_json_file loads p w
            = (Val true, add_logs l (advance_n 4 w)).
Proof.
  intros Hnf Hok. unfold file_ok in Hok.
  destruct (fs w !! p) as [f|] eqn:Hf; [| done].
  apply andb_true_iff in Hok as [Hsz Hst].
  apply negb_true_iff, bool_decide_eq_false in Hsz.
  destruct (loads (content f)) as [data|] eqn:Hl; [| done].
  apply no_faults_take_S in Hnf as [F1 Hnf]. apply no_faults_take_S in Hnf as [F2 Hnf].
  apply no_faults_take_S in Hnf as [F3 Hnf]. apply no_faults_take_S in Hnf as [F4 _].
  unfold DataValidator.validate_json_file.
  rewrite run_try_except, run_bind, run_path_exists, F1, Hf.
  rewrite bool_decide_eq_true_2 by done. cbn [negb].
  rewrite run_bind, run_path_stat, F2, advance_fs, Hf.
  rewrite bool_decide_eq_false_2 by done.
  rewrite run_bind, run_aio_open_rb, F3, !advance_fs, Hf.
  rewrite run_bind, run_aio_read, F4, !advance_fs, Hf, Hl.
  rewrite run_bind.
  destruct (structure_report data (advance (advance (advance (advance w)))))
    as (line & -> & _).
  rewrite Hst. cbn [negb]. rewrite run_bind, run_LOGGER, add_logs_app. by eexists.
Qed.

Variables (self : BackupManager.t) (target : string).

(** A restore is no atomic write. For a target whose name has no
    opening bracket and a snapshot that is more recent than every other
    one: when every call up to the write into the target succeeds and that
    write fails after [n] bytes, the restore returns [False], logs the
    failure, and the target is left holding the first [n] bytes of the
    snapshot, whatever it held before. *)
Theorem restore_is_not_atomic w latest f ev n :
  Str.count "[" target = 0%nat ->
  latest ∈ snapshots (fs w) target ->
  (forall s, s ∈ snapshots (fs w) target -> s <> latest ->
             mtime_of (fs w) s < mtime_of (fs w) latest) ->
  fs w !! latest = Some f ->
  file_ok loads (fs w) latest = true ->
  no_faults (take (length (snapshots (fs w) target) + 8) (tape w)) ->
  tape w !! (length (snapshots (fs w) target) + 8)%nat = Some ev ->
  fault ev = Some n ->
  exists w', BackupManager.restore_from_backup loads self target w = (Val false, w') /\
    content_of w' target = Some (take n (content f)) /\
    last (log w') = Some (ERROR, RestoreFailed OSError).
Proof.
  intros _ Hin Hlt Hf Hok Hnf Hev Hfault.
  assert (exists others, by_mtime_desc (fs w) (snapshots (fs w) target) = latest :: others)
    as [others Hsorted].
  { pose proof (by_mtime_desc_perm (fs w) (snapshots (fs w) target)) as Hperm.
    destruct (by_mtime_desc (fs w) (snapshots (fs w) target)) as [|first others] eqn:Es.
    { rewrite <- Hperm in Hin. by apply elem_of_nil in Hin. }
    destruct (by_mtime_desc_head _ _ _ _ Es) as [Hfirst Hmax].
    exists others. f_equal. destruct (decide (first = latest)) as [|Hne]; [done |].
    specialize (Hlt first Hfirst Hne). specialize (Hmax latest Hin). lia. }
  set (len := length (snapshots (fs w) target)) in *.
  assert (Hnext : forall k, (k < len + 8)%nat -> next_fault (advance_n k w) = None).
  { intros k Hk. by eapply next_fault_advance_n_None. }
  assert (Hfs : forall k, fs (advance_n k w) !! latest = Some f)
    by (intros k; by rewrite advance_n_fs).
  unfold BackupManager.restore_from_backup.
  rewrite run_try_except, run_bind, run_path_glob.
  change (next_fault w) with (next_fault (advance_n 0 w)). rewrite Hnext by lia.
  fold (snapshots (fs w) target).
  assert (Hne : snapshots (fs w) target <> []).
  { intros Hnil. pose proof (by_mtime_desc_perm (fs w) (snapshots (fs w) target)) as Hp.
    rewrite Hsorted, Hnil in Hp. by apply Permutation_nil_r in Hp. }
  rewrite (match_nonempty _ _ _ Hne), run_bind.
  destruct (sort_by_mtime_desc_run (snapshots (fs w) target) (advance w)) as (_ & _ & ->).
  2: { fold len. apply (no_faults_take_S len w).
       eapply (no_faults_take_le _ (len + 8)); [done | lia]. }
  2: { intros x Hx. rewrite advance_fs. by apply elem_of_glob_names in Hx as [_ ?]. }
  rewrite advance_fs, Hsorted, advance_n_S. fold len. rewrite run_bind.
  destruct (validate_json_file_accepts latest (advance_n (S len) w)) as [l ->].
  { rewrite advance_n_tape, take_drop_commute. apply Forall_drop.
    eapply (no_faults_take_le _ (len + 8)); [done | lia]. }
  { unfold file_ok. rewrite advance_n_fs. exact Hok. }
  cbn [negb]. rewrite advance_n_add.
  rewrite run_bind, run_aio_open_rb, next_fault_add_logs, Hnext by lia.
  cbn [add_logs fs]. rewrite Hfs.
  rewrite run_bind, run_aio_read, advance_add_logs, next_fault_add_logs.
  change (advance (advance_n (4 + S len) w)) with (advance_n (S (4 + S len)) w).
  rewrite Hnext by lia. cbn [add_logs fs]. rewrite Hfs.
  rewrite run_bind, run_aio_open_wb, advance_add_logs, next_fault_add_logs.
  change (advance (advance_n (S (4 + S len)) w)) with (advance_n (S (S (4 + S len))) w).
  rewrite Hnext by lia.
  rewrite advance_add_logs.
  change (advance (advance_n (S (S (4 + S len))) w))
    with (advance_n (S (S (S (4 + S len)))) w).
  set (w6 := set_fs _ _).
  rewrite run_bind, run_aio_write. cbv zeta.
  assert (Hold : default [] (content <$> fs w6 !! target) = []).
  { subst w6. cbn [set_fs fs]. by rewrite lookup_insert_eq. }
  rewrite Hold. cbn [app].
  assert (next_fault w6 = Some n) as ->.
  { subst w6. rewrite next_fault_set_fs, next_fault_add_logs.
    replace (S (S (S (4 + S len)))) with (len + 8)%nat by lia.
    by rewrite (next_fault_advance_n_Some _ ev). }
  rewrite run_bind, run_LOGGER. eexists. split; [done |]. split.
  - unfold content_of. cbn [add_logs set_fs fs]. by rewrite lookup_insert_eq.
  - cbn [add_logs log]. apply last_snoc.
Qed.

End PartialRestore.

Lemma restore_is_not_atomic_witness :
  let w := snapshot_world (replicate 12 (quiet 1) ++ [failing 1 3]) in
  exists w',
    BackupManager.restore_from_backup Json.loads (BackupManager.mk 2 true) "test.json" w
    = (Val false, w') /\
    content_of w' "test.json" = Some (take 3 bool_cache) /\
    last (log w') = Some (ERROR, RestoreFailed OSError).
Proof.
  intros w.
  apply (restore_is_not_atomic Json.loads (BackupManager.mk 2 true) "test.json" w
           snap4 (mkFile bool_cache 400) (failing 1 3) 3).
  - reflexivity.
  - vm_compute. left.
  - intros s Hs Hne. vm_compute in Hs.
    repeat (apply elem_of_cons in Hs as [->|Hs]); try (by apply elem_of_nil in Hs);
      try (by destruct Hne); vm_compute; reflexivity.
  - vm_compute. reflexivity.
  - vm_compute. reflexivity.
  - vm_compute. repeat constructor.
  - vm_compute. reflexivity.
  - reflexivity.
Defined.

(** ** The writer: verdicts, the lock, and what a write touches *)

Section WriterMore.

Import AtomicFileWriter.

Variable self : AtomicFileWriter.t.

(** [write_atomic] never raises, and its last log line tells its
    verdict, whatever the hook and the filesystem do: [True] comes with the
    debug line of a finished write, [False] with an error line that names
    the target, either the rejection by the hook or the exception that was
    caught. *)
Theorem write_atomic_verdict_logged data v w :
  exists r w', write_atomic self data v w = (r, w') /\
    (forall e, r <> Raise e) /\
    (r = Val true ->
     last (log w') = Some (DEBUG, WriteSucceeded (target_path self))) /\
    (r = Val false ->
     last (log w') = Some (ERROR, ValidationFailed (target_path self)) \/
     exists e, last (log w') = Some (ERROR, WriteFailed (target_path self) e)).
Proof.
  unfold write_atomic. rewrite run_try_except, write_atomic_body_stages, run_bind.
  destruct (staging self data w) as [[[]|e|] w1].
  2: { rewrite run_bind, run_LOGGER. eexists _, _. split; [done |]. cbn [add_logs log].
       split; [done |]. split; [done |]. intros _. right. exists e. apply last_snoc. }
  2: { eexists _, _. split; [done |]. repeat split; done. }
  rewrite run_bind. destruct (validate_step v w1) as [[[|]|e|] w2]; cbn [negb].
  2: { rewrite run_bind, run_LOGGER. eexists _, _. split; [done |]. cbn [add_logs log].
       split; [done |]. split; [done |]. intros _. left. apply last_snoc. }
  2: { rewrite run_bind, run_LOGGER. eexists _, _. split; [done |]. cbn [add_logs log].
       split; [done |]. split; [done |]. intros _. right. exists e. apply last_snoc. }
  2: { eexists _, _. split; [done |]. repeat split; done. }
  unfold commit. rewrite run_bind. destruct (backup_step self w2) as [[[]|e|] w3].
  2: { rewrite run_bind, run_LOGGER. eexists _, _. split; [done |]. cbn [add_logs log].
       split; [done |]. split; [done |]. intros _. right. exists e. apply last_snoc. }
  2: { eexists _, _. split; [done |]. repeat split; done. }
  rewrite run_bind. destruct (_atomic_replace self w3) as [[[]|e|] w4].
  2: { rewrite run_bind, run_LOGGER. eexists _, _. split; [done |]. cbn [add_logs log].
       split; [done |]. split; [done |]. intros _. right. exists e. apply last_snoc. }
  2: { eexists _, _. split; [done |]. repeat split; done. }
  rewrite run_bind, run_LOGGER. eexists _, _. split; [done |]. cbn [add_logs log].
  split; [done |]. split; [| done]. intros _. apply last_snoc.
Qed.

Lemma aexit_run_any w :
  self_lock w = true ->
  exists r w', __aexit__ self w = (r, w') /\
    self_lock w' = false /\
    (r = Val tt \/ r = Raise OSError) /\
    self_temp_path w' = self_temp_path w /\
    (forall q, self_temp_path w <> Some q -> fs w' !! q = fs w !! q) /\
    (forall q, fs w' !! q = fs w !! q \/ fs w' !! q = None).
Proof.
  intros Hlock. unfold __aexit__, try_finally. rewrite run_bind. unfold gets at 1.
  pose proof (advance_self w) as [Ht1 Hl1].
  pose proof (advance_self (advance w)) as [Ht2 Hl2].
  destruct (self_temp_path w) as [p|] eqn:Hp.
  - rewrite run_bind, run_path_exists.
    destruct (next_fault w).
    { unfold Lock.release. rewrite Hl1, Hlock. eexists _, _. split; [done |].
      cbn [set_lock add_logs set_fs self_lock self_temp_path fs]. rewrite advance_fs.
      repeat split; auto; congruence. }
    destruct (fs w !! p) as [f|] eqn:Hf.
    + rewrite bool_decide_eq_true_2 by done.
      rewrite run_try_except, run_bind, run_path_unlink.
      destruct (next_fault (advance w)).
      * rewrite run_LOGGER. unfold Lock.release. cbn [add_logs self_lock].
        rewrite Hl2, Hl1, Hlock. eexists _, _. split; [done |].
        cbn [set_lock add_logs set_fs self_lock self_temp_path fs]. rewrite ?advance_fs.
        repeat split; auto; congruence.
      * rewrite advance_fs, Hf, run_LOGGER. unfold Lock.release.
        cbn [add_logs set_fs self_lock]. rewrite Hl2, Hl1, Hlock.
        eexists _, _. split; [done |].
        cbn [set_lock add_logs set_fs self_lock self_temp_path fs]. rewrite ?advance_fs.
        split; [done |]. split; [auto |]. split; [congruence |]. split.
        -- intros q Hq. rewrite lookup_delete_ne; [done | congruence].
        -- intros q. destruct (decide (p = q)) as [->|Hne].
           ++ right. apply lookup_delete_eq.
           ++ left. by rewrite lookup_delete_ne.
    + rewrite bool_decide_eq_false_2 by by intros [??].
      unfold Lock.release, ret. rewrite Hl1, Hlock. eexists _, _. split; [done |].
      cbn [set_lock add_logs set_fs self_lock self_temp_path fs]. rewrite advance_fs.
      repeat split; auto; congruence.
  - unfold Lock.release, ret. rewrite Hlock. eexists _, _. split; [done |].
    cbn [set_lock add_logs set_fs self_lock self_temp_path fs]. repeat split; auto.
Qed.

(** [__aexit__] gives the lock back on every path: whether the staged
    file was there or not, whether its removal worked or failed, and also
    when the probe for it raised. It removes no file but the staged one and
    leaves [self.temp_path] as it was. *)
Theorem aexit_always_releases w :
  self_lock w = true ->
  exists r w', __aexit__ self w = (r, w') /\
    self_lock w' = false /\
    (r = Val tt \/ r = Raise OSError) /\
    self_temp_path w' = self_temp_path w /\
    (forall q, self_temp_path w <> Some q -> fs w' !! q = fs w !! q) /\
    (forall q, fs w' !! q = fs w !! q \/ fs w' !! q = None).
Proof. apply aexit_run_any. Qed.

(** A write never waits for ever when its hook does not. *)
Lemma write_atomic_unblocked data v :
  (forall f, v = Some f -> forall p, unblocked (f p)) ->
  unblocked (write_atomic self data v).
Proof.
  intros Hv.
  assert (Hbk : forall bm, unblocked (BackupManager.create_backup bm (target_path self))).
  { intros bm w. destruct (create_backup_returns bm (target_path self) w) as [o Ho].
    by rewrite Ho. }
  unfold write_atomic, write_atomic_body, _create_temp_file, _write_to_temp,
    _atomic_replace, the_temp_path.
  destruct v as [f|]; [pose proof (Hv f eq_refl) as Hf |]; unblocked_auto.
Qed.

(** A write session always ends with the lock given back. Entered with
    the lock free, [async with writer: await writer.write_atomic(...)]
    does not wait (as long as the hook does not), and when it is over the
    lock is free again, whatever the filesystem did: the block gave the
    verdict of the write, or the probe of [__aexit__] for the staged file
    raised. *)
Theorem session_releases_lock data v w :
  (forall f, v = Some f -> read_only f) ->
  (forall f, v = Some f -> forall p, unblocked (f p)) ->
  self_lock w = false ->
  exists r w', write_session self data v w = (r, w') /\
    self_lock w' = false /\
    ((exists b, r = Val b) \/ r = Raise OSError).
Proof.
  intros Hro Hub Hfree.
  unfold write_session, async_with, __aenter__.
  rewrite !run_bind. unfold Lock.acquire at 1. rewrite Hfree. unfold ret at 1.
  set (w0 := set_lock true w).
  destruct (write_atomic_footprint self data v w0 Hro) as (r2 & w2 & E2 & Hnr & Hl2 & _).
  pose proof (write_atomic_unblocked data v Hub w0) as Hnb. rewrite E2 in Hnb.
  cbn [fst] in Hnb.
  destruct (aexit_run_any w2) as (r3 & w3 & E3 & Hl3 & Hr3 & _); [by rewrite Hl2 |].
  unfold try_finally. rewrite E2, E3.
  destruct r2 as [b|e|]; [| by destruct (Hnr e) | done].
  destruct Hr3 as [->| ->]; eexists _, _; (split; [done |]); split; eauto.
Qed.

Lemma backup_step_keeps q :
  fnmatch q (BackupManager.backup_pattern (target_path self)) = false ->
  (forall d, BackupManager.backup_name (target_path self) (Datetime.strftime_backup d) <> q) ->
  stable (keeps q) (backup_step self).
Proof.
  intros Hq Hne. unfold backup_step. destruct (backup_manager self) as [bm|]; [| stable_auto].
  pose proof (create_backup_keeps bm (target_path self) q Hq Hne). stable_auto.
Qed.

Lemma backup_step_same_self : stable same_self (backup_step self).
Proof.
  unfold backup_step. destruct (backup_manager self) as [bm|]; [| stable_auto].
  pose proof (create_backup_same_self bm (target_path self)). stable_auto.
Qed.

(** The commit leaves alone what is neither the target, nor the staged
    file, nor a snapshot; when it succeeds the staged file is gone. *)
Lemma commit_keeps w z :
  let tmp := temp_name (target_path self) (str_of_Z z) in
  self_temp_path w = Some tmp ->
  exists r w', commit self w = (r, w') /\
    self_temp_path w' = Some tmp /\
    (forall q, q <> target_path self -> q <> tmp ->
       fnmatch q (BackupManager.backup_pattern (target_path self)) = false ->
       (forall d, BackupManager.backup_name (target_path self)
                    (Datetime.strftime_backup d) <> q) ->
       fs w' !! q = fs w !! q) /\
    (r = Val true -> fs w' !! tmp = None).
Proof.
  intros tmp Hp. unfold commit. rewrite run_bind.
  pose proof (backup_step_same_self w) as [Hs1 _].
  assert (Hk : forall q,
    fnmatch q (BackupManager.backup_pattern (target_path self)) = false ->
    (forall d, BackupManager.backup_name (target_path self)
                 (Datetime.strftime_backup d) <> q) ->
    fs (backup_step self w).2 !! q = fs w !! q).
  { intros q Hq Hne. apply (backup_step_keeps q Hq Hne w). }
  destruct (backup_step self w) as [r4 w4]. cbn [snd] in Hs1, Hk.
  assert (Hp4 : self_temp_path w4 = Some tmp) by congruence.
  destruct r4 as [[]|e|]; [| by eexists _, _; repeat split; auto ..].
  destruct (atomic_replace_run self w4 tmp Hp4) as (r5 & w5 & E5 & [Hs5 _] & _ & Hr5 & _).
  rewrite run_bind, E5.
  assert (Hp5 : self_temp_path w5 = Some tmp) by congruence.
  destruct r5 as [[]|e|]; [| | done].
  - rewrite run_bind, run_LOGGER. eexists _, _. split; [done |].
    destruct Hr5 as (f & Hf & Hfs5). cbn [add_logs self_temp_path fs].
    split; [done |]. split.
    + intros q Hq1 Hq2 Hq3 Hq4. rewrite Hfs5, lookup_insert_ne, lookup_delete_ne by done.
      by apply Hk.
    + intros _. rewrite Hfs5, lookup_insert_ne by (symmetry; apply temp_ne_target).
      apply lookup_delete_eq.
  - eexists _, _. split; [done |]. split; [done |]. split; [| done].
    intros q Hq1 Hq2 Hq3 Hq4. rewrite Hr5. by apply Hk.
Qed.

Lemma write_atomic_keeps_run data v w :
  (forall f, v = Some f -> read_only f) ->
  exists r w', write_atomic self data v w = (r, w') /\
    (forall q, q <> target_path self -> self_temp_path w' <> Some q ->
       fnmatch q (BackupManager.backup_pattern (target_path self)) = false ->
       (forall d, BackupManager.backup_name (target_path self)
                    (Datetime.strftime_backup d) <> q) ->
       fs w' !! q = fs w !! q) /\
    (r = Val true ->
     exists tmp t, self_temp_path w' = Some tmp /\ fs w' !! tmp = None /\
       fs w' !! target_path self = Some (mkFile data t)).
Proof.
  intros Hro. unfold write_atomic.
  rewrite run_try_except, write_atomic_body_stages, run_bind.
  destruct (staging_run self data w) as (r1 & w1 & E1 & _ & [(-> & _ & _ & Hfs1)|(z & Hz)]).
  { rewrite E1, run_bind, run_LOGGER. eexists _, _. split; [done |].
    cbn [add_logs fs]. split; [| done]. intros q _ _ _ _. by rewrite Hfs1. }
  cbn zeta in Hz. set (tmp := temp_name _ _) in *.
  destruct Hz as (Hp1 & Hfs1 & Hr1 & _). rewrite E1.
  destruct r1 as [[]|e|]; [| | done].
  2: { rewrite run_bind, run_LOGGER. eexists _, _. split; [done |].
       cbn [add_logs fs self_temp_path]. split; [| done].
       intros q _ Hq _ _. apply Hfs1. congruence. }
  destruct Hr1 as [t Htmp1].
  destruct (validate_step_run v w1 tmp Hro Hp1) as (r3 & w3 & E3 & Hfs3 & [Hs3 _] & _).
  rewrite run_bind, E3.
  assert (Hp3 : self_temp_path w3 = Some tmp) by congruence.
  destruct r3 as [[|]|e|]; cbn [negb].
  2: { rewrite run_bind, run_LOGGER. eexists _, _. split; [done |].
       cbn [add_logs fs self_temp_path]. split; [| done].
       intros q _ Hq _ _. rewrite Hfs3. apply Hfs1. congruence. }
  2: { rewrite run_bind, run_LOGGER. eexists _, _. split; [done |].
       cbn [add_logs fs self_temp_path]. split; [| done].
       intros q _ Hq _ _. rewrite Hfs3. apply Hfs1. congruence. }
  2: { eexists _, _. split; [done |]. split; [| done].
       intros q _ Hq _ _. rewrite Hfs3. apply Hfs1. congruence. }
  subst tmp.
  destruct (commit_run self w3 z Hp3) as (r & w' & E & _ & _ & Hr & _).
  destruct (commit_keeps w3 z Hp3) as (r' & w'' & E' & Hp' & Hk & Hgone).
  rewrite E in E'. injection E' as <- <-. rewrite E.
  assert (Hkeep : forall q, q <> target_path self -> self_temp_path w' <> Some q ->
       fnmatch q (BackupManager.backup_pattern (target_path self)) = false ->
       (forall d, BackupManager.backup_name (target_path self)
                    (Datetime.strftime_backup d) <> q) ->
       fs w' !! q = fs w !! q).
  { intros q Hq1 Hq2 Hq3 Hq4.
    assert (q <> temp_name (target_path self) (str_of_Z z)) by congruence.
    rewrite Hk, Hfs3 by done. by apply Hfs1. }
  destruct r as [[|]|e|].
  - eexists _, _. split; [done |]. split; [done |]. intros _.
    destruct Hr as (_ & f & Hf & Hf'). rewrite Hfs3, Htmp1 in Hf. injection Hf as <-.
    eexists _, t. split; [done |]. split; [by apply Hgone | done].
  - eexists _, _. split; [done |]. split; [done |]. done.
  - rewrite run_bind, run_LOGGER. eexists _, _. split; [done |].
    cbn [add_logs fs self_temp_path]. split; [done | done].
  - eexists _, _. split; [done |]. split; [done | done].
Qed.

(** What a write touches, whatever the filesystem does: besides the
    target, the staged file of this attempt and the snapshots of the
    target, every file is afterwards exactly as it was. Staged files that
    earlier attempts left behind are among the files not touched. *)
Theorem write_atomic_touches data v w :
  (forall f, v = Some f -> read_only f) ->
  exists r w', write_atomic self data v w = (r, w') /\
    forall q, q <> target_path self -> self_temp_path w' <> Some q ->
      fnmatch q (BackupManager.backup_pattern (target_path self)) = false ->
      (forall d, BackupManager.backup_name (target_path self)
                   (Datetime.strftime_backup d) <> q) ->
      fs w' !! q = fs w !! q.
Proof.
  intros Hro. destruct (write_atomic_keeps_run data v w Hro) as (r & w' & E & H & _).
  by exists r, w'.
Qed.

End WriterMore.

Lemma aexit_always_releases_witness :
  let w := set_lock true (set_temp_path (Some ".test_1_tmp.json")
             (world_of [(".test_1_tmp.json", mkFile [] 0)] 0 [quiet 1; failing 1 0])) in
  self_lock w = true /\
  exists r w', AtomicFileWriter.__aexit__ test_writer w = (r, w') /\ self_lock w' = false.
Proof.
  intros w. assert (H : self_lock w = true) by reflexivity.
  split; [exact H |].
  destruct (aexit_always_releases test_writer w H) as (r & w' & E & Hl & _).
  exists r, w'. split; assumption.
Defined.

Lemma session_releases_lock_witness :
  let w := old_world [quiet 10; failing 10 3; quiet 10] in
  let v := Some reject_all in
  exists r w', write_session test_writer bool_cache v w = (r, w') /\
    self_lock w' = false /\
    ((exists b, r = Val b) \/ r = Raise OSError).
Proof.
  intros w v.
  apply (session_releases_lock test_writer bool_cache v w).
  - intros f [= <-] p w0. split; reflexivity.
  - intros f [= <-] p w0. discriminate.
  - reflexivity.
Defined.

Lemma write_atomic_touches_witness :
  let w := old_world [quiet 10; failing 10 3; quiet 10] in
  let v := Some reject_all in
  exists r w', AtomicFileWriter.write_atomic test_writer bool_cache v w = (r, w') /\
    forall q, q <> "test.json" -> self_temp_path w' <> Some q ->
      fnmatch q (BackupManager.backup_pattern "test.json") = false ->
      (forall d, BackupManager.backup_name "test.json" (Datetime.strftime_backup d) <> q) ->
      fs w' !! q = fs w !! q.
Proof.
  intros w v.
  apply (write_atomic_touches test_writer bool_cache v w).
  intros f [= <-] p w0. split; reflexivity.
Defined.

(** ** The hook and the plain write *)

Section HookAndPlainWrite.

Import AtomicFileWriter.

Variable self : AtomicFileWriter.t.


(** A write whose filesystem calls do not fail, as the code runs it:
    it answers [False]. The directory afterwards is the directory of
    before with the staged file added, holding the complete data; the
    target and every other file are as they were, and nothing is removed.
    The hook and the backup manager make no difference: neither is
    reached. The lock is left alone and the last log line reports the
    [fsync] the file handle does not have. *)
Theorem fault_free_write_result data v w :
  no_faults (tape w) ->
  let tmp := temp_name (target_path self) (str_of_Z (clock (advance w))) in
  exists t w', write_atomic self data v w = (Val false, w') /\
    write_atomic self data None w = (Val false, w') /\
    self_temp_path w' = Some tmp /\
    self_lock w' = self_lock w /\
    fs w' = <[tmp := mkFile data t]> (fs w) /\
    fs w' !! target_path self = fs w !! target_path self /\
    (forall q, is_Some (fs w !! q) -> is_Some (fs w' !! q)) /\
    last (log w') = Some (ERROR, WriteFailed (target_path self) AttributeError).
Proof.
  intros Hnf tmp.
  destruct (write_atomic_quiet_run self data v w Hnf)
    as (w' & E & Hfs & Hlog & _ & _ & Hp & Hl).
  fold tmp in Hfs, Hlog, Hp.
  exists (clock (advance_n 3 w)), w'. split; [exact E |].
  split; [by rewrite <- (write_atomic_ignores_hook self data v w) |].
  split; [exact Hp |]. split; [exact Hl |]. split; [exact Hfs |]. split; [| split].
  - rewrite Hfs, lookup_insert_ne; [done |]. apply temp_ne_target.
  - intros q Hq. rewrite Hfs. destruct (decide (tmp = q)) as [->|Hne].
    + rewrite lookup_insert_eq. by eexists.
    + by rewrite lookup_insert_ne.
  - rewrite Hlog.
    change [(DEBUG, TempCreated ?a); ?b; ?c] with ([(DEBUG, TempCreated a); b] ++ [c]).
    by rewrite app_assoc, last_snoc.
Qed.

End HookAndPlainWrite.

Lemma fault_free_write_result_witness :
  let w := old_world [quiet 2; quiet 2; quiet 2; quiet 2; quiet 2] in
  no_faults (tape w) /\
  exists t w',
    AtomicFileWriter.write_atomic test_writer bool_cache
      (Some (DataValidator.validate_json_file Json.loads)) w = (Val false, w') /\
    fs w' = <[".test_1793704210000002_tmp.json" := mkFile bool_cache t]> (fs w) /\
    fs w' !! "test.json" = fs w !! "test.json".
Proof.
  intros w. assert (H : no_faults (tape w)) by (vm_compute; repeat constructor).
  split; [exact H |].
  destruct (fault_free_write_result test_writer bool_cache
              (Some (DataValidator.validate_json_file Json.loads)) w H)
    as (t & w' & E & _ & _ & _ & Hfs & Ht & _).
  exists t, w'. split; [exact E |]. split; [exact Hfs | exact Ht].
Defined.
